(** * Mobius pool quoting library: a shallow embedding and its properties

    The program under study is [mobius_pool_integration.py], an off-chain
    replica of the swap-pricing mathematics of the Mobius pools.  All of its
    arithmetic is done with Python's [decimal.Decimal] under the context
    installed at the top of the module ([getcontext().prec = 28], rounding
    half-even, [Emax = 999999], [Emin = -999999], traps on overflow,
    division by zero and invalid operation).

    The development has four parts:
    - [PyDecimal]: the decimal arithmetic the program relies on;
    - [Mobius]: the pool, its state and its methods;
    - a small theory of exact decimal operations;
    - the properties of the quoting functions. *)

From Stdlib Require Import ZArith QArith Qpower Qabs Lia Bool.
From stdpp Require Import base option strings gmap.

Local Open Scope Z_scope.

(** ** Errors and fallible computations *)

(** The program signals every domain failure with [ValueError] and a message;
    the constructors below name the messages.  [IntStrDigits] is the
    [ValueError] that [str] raises for an integer of too many digits, and
    the last three are the signals of the decimal module that the default
    context traps.  All of them are subclasses of Python's [Exception]. *)
Inductive error : Type :=
  | AssetNotFound            (* "Asset not found in pool" *)
  | AggregateAccountMismatch (* "Assets must be in the same aggregate account" *)
  | ZeroLiability            (* "Liability cannot be zero" *)
  | ZeroThreshold            (* "R threshold cannot be zero" *)
  | ZeroRatio                (* "R cannot be zero" *)
  | PriceNotSet              (* "Invalid price - price not set for variant asset" *)
  | ZeroPrice                (* "Price cannot be zero" *)
  | InsufficientCash         (* "Insufficient cash in destination asset" *)
  | IntStrDigits             (* "Exceeds the limit (4300 digits) for integer string conversion" *)
  | DecOverflow              (* decimal.Overflow *)
  | DecDivisionByZero        (* decimal.DivisionByZero *)
  | DecInvalidOperation.     (* decimal.InvalidOperation *)

Inductive result (A : Type) : Type :=
  | Ok (a : A)
  | Err (e : error).
Arguments Ok {A} a.
Arguments Err {A} e.

#[global] Instance result_ret : MRet result := fun A a => Ok a.
#[global] Instance result_bind : MBind result := fun A B f m =>
  match m with
  | Ok a => f a
  | Err e => Err e
  end.

(** ** Python's decimal arithmetic *)

Module PyDecimal.

(** A finite decimal is a signed coefficient and an exponent; it denotes
    [coef * 10 ^ expo].  The sign of a zero and the textual form are not
    kept: the program never prints a decimal nor reads its sign, and
    comparison, arithmetic and [int()] depend on the numeric value only.
    Infinities and NaNs have no representation: the context traps the three
    signals that would produce them, so an operation either returns a finite
    decimal or raises. *)
Record Decimal : Type := mkDecimal { coef : Z; expo : Z }.

(** The context: [getcontext().prec = 28] over the default context. *)
Definition prec : Z := 28.
Definition Emax : Z := 999999.
Definition Emin : Z := -999999.
Definition Etiny (p : Z) : Z := Emin - p + 1.
Definition Etop (p : Z) : Z := Emax - p + 1.

(** The decimal of an integer: [Decimal('<digits>')] for the literals of the
    module, and the implicit conversion of an [int] operand of a decimal
    operator.  Both are exact, whatever the length of the integer. *)
Definition of_int (x : Z) : Decimal := mkDecimal x 0.

(** Number of decimal digits of the coefficient ([len(self._int)]);
    a zero coefficient has one digit. *)
Fixpoint ndigits_aux (fuel : nat) (n : Z) : Z :=
  match fuel with
  | O => 1
  | S fuel' => if n <? 10 then 1 else 1 + ndigits_aux fuel' (n / 10)
  end.

Definition ndigits (c : Z) : Z :=
  ndigits_aux (Z.to_nat (Z.log2 (Z.abs c))) (Z.abs c).

(** [str(x)] for a Python integer: CPython from 3.11 on refuses to convert
    an integer of more than [sys.int_info.default_max_str_digits = 4300]
    digits, the sign not counted, and raises [ValueError].  The module
    leaves the limit at its default. *)
Definition int_max_str_digits : Z := 4300.

(** [Decimal(str(x))]: exact when [str] accepts the integer. *)
Definition decimal_of_str (x : Z) : result Decimal :=
  if int_max_str_digits <? ndigits x then Err IntStrDigits else Ok (of_int x).

(** Drop the last [k] digits of the non-negative coefficient [c], rounding
    half to even. *)
Definition round_half_even (c k : Z) : Z :=
  let p := 10 ^ k in
  let q := c / p in
  let r := c mod p in
  if (p <? 2 * r) || ((2 * r =? p) && Z.odd q) then q + 1 else q.

(** [Decimal._fix]: round to [p] significant digits and to the exponent range
    of the context.  Overflow is trapped; underflow and the other signals
    only set flags, so the subnormal result is returned. *)
Definition _fix (p : Z) (d : Decimal) : result Decimal :=
  let c := coef d in
  let e := expo d in
  if c =? 0 then Ok (mkDecimal 0 (Z.min (Z.max e (Etiny p)) Emax))
  else
    let exp_min := ndigits c + e - p in
    if Etop p <? exp_min then Err DecOverflow
    else
      let exp_min := Z.max exp_min (Etiny p) in
      if e <? exp_min then
        let q := round_half_even (Z.abs c) (exp_min - e) in
        let '(q, exp_min) :=
          if p <? ndigits q then (q / 10, exp_min + 1) else (q, exp_min) in
        if Etop p <? exp_min then Err DecOverflow
        else Ok (mkDecimal (Z.sgn c * q) exp_min)
      else Ok d.

Definition dec_neg (a : Decimal) : Decimal := mkDecimal (- coef a) (expo a).

(** [a + b]: the exact sum at the smaller exponent, then [_fix]. *)
Definition add_prec (p : Z) (a b : Decimal) : result Decimal :=
  let e := Z.min (expo a) (expo b) in
  _fix p (mkDecimal (coef a * 10 ^ (expo a - e) + coef b * 10 ^ (expo b - e)) e).

(** [a * b]: the exact product, then [_fix]. *)
Definition mul_prec (p : Z) (a b : Decimal) : result Decimal :=
  _fix p (mkDecimal (coef a * coef b) (expo a + expo b)).

(** Bring an exact quotient as close to the ideal exponent as its trailing
    zeros allow ([while exp < ideal_exp and coeff % 10 == 0]). *)
Fixpoint strip_zeros (fuel : nat) (coeff exp : Z) : Z * Z :=
  match fuel with
  | O => (coeff, exp)
  | S fuel' =>
      if coeff mod 10 =? 0 then strip_zeros fuel' (coeff / 10) (exp + 1)
      else (coeff, exp)
  end.

(** [a / b]: the quotient to [p + 1] or [p + 2] digits with a sticky last
    digit when it is inexact, then [_fix]. *)
Definition div_prec (p : Z) (a b : Decimal) : result Decimal :=
  if coef b =? 0 then
    if coef a =? 0 then Err DecInvalidOperation else Err DecDivisionByZero
  else if coef a =? 0 then _fix p (mkDecimal 0 (expo a - expo b))
  else
    let sign := Z.sgn (coef a) * Z.sgn (coef b) in
    let shift := ndigits (coef b) - ndigits (coef a) + p + 1 in
    let exp := expo a - expo b - shift in
    let num := if 0 <=? shift then Z.abs (coef a) * 10 ^ shift else Z.abs (coef a) in
    let den := if 0 <=? shift then Z.abs (coef b) else Z.abs (coef b) * 10 ^ (- shift) in
    let coeff := num / den in
    let remainder := num mod den in
    let '(coeff, exp) :=
      if remainder =? 0
      then strip_zeros (Z.to_nat (expo a - expo b - exp)) coeff exp
      else (if coeff mod 5 =? 0 then coeff + 1 else coeff, exp) in
    _fix p (mkDecimal (sign * coeff) exp).

(** [a ** n] for a positive integer [n], as libmpdec computes it: repeated
    squaring from the most significant bit of [n], every product rounded to
    [prec + len(str(n)) + 2] digits, and a final [_fix] to the context.
    The power of a zero is the zero the products give; libmpdec returns it
    with the exponent 0, the same value. *)
Fixpoint pow_loop (w : Z) (base : Decimal) (n : positive) : result Decimal :=
  match n with
  | xH => Ok base
  | xO n' => r ← pow_loop w base n'; mul_prec w r r
  | xI n' => r ← pow_loop w base n'; r2 ← mul_prec w r r; mul_prec w r2 base
  end.

Definition dec_add : Decimal -> Decimal -> result Decimal := add_prec prec.
Definition dec_sub (a b : Decimal) : result Decimal := add_prec prec a (dec_neg b).
Definition dec_mul : Decimal -> Decimal -> result Decimal := mul_prec prec.
Definition dec_div : Decimal -> Decimal -> result Decimal := div_prec prec.
Definition dec_pow (a : Decimal) (n : positive) : result Decimal :=
  r ← pow_loop (prec + ndigits (Zpos n) + 2) a n; _fix prec r.

(** Comparison is by value: both coefficients at the smaller exponent. *)
Definition dec_compare (a b : Decimal) : comparison :=
  let e := Z.min (expo a) (expo b) in
  (coef a * 10 ^ (expo a - e)) ?= (coef b * 10 ^ (expo b - e)).

Definition dec_eqb (a b : Decimal) : bool :=
  match dec_compare a b with Eq => true | _ => false end.
Definition dec_ltb (a b : Decimal) : bool :=
  match dec_compare a b with Lt => true | _ => false end.
Definition dec_leb (a b : Decimal) : bool :=
  match dec_compare a b with Gt => false | _ => true end.
Definition dec_gtb (a b : Decimal) : bool :=
  match dec_compare a b with Gt => true | _ => false end.
Definition dec_is_zero (a : Decimal) : bool := coef a =? 0.

(** [int(a)]: truncation toward zero. *)
Definition to_int (a : Decimal) : Z :=
  if 0 <=? expo a then coef a * 10 ^ expo a
  else Z.quot (coef a) (10 ^ (- expo a)).

End PyDecimal.

Export PyDecimal.

(** ** The pool *)

Module Mobius.

Definition WAD : Decimal := of_int 1000000000000000000.
Definition UNIT : Decimal := WAD.

(** [Decimal('5000000000000000000')] and [Decimal('0')]. *)
Definition FIVE_WAD : Decimal := of_int 5000000000000000000.
Definition ZERO : Decimal := of_int 0.

Record AssetState : Type := mkAssetState {
  token_address : string;
  cash : Decimal;
  liability : Decimal;
  underlying_token_decimals : Z;
  aggregate_account : string;
  price_wad : option Decimal
}.

Record PoolConfig : Type := mkPoolConfig {
  r_threshold : Decimal;
  haircut_rate : Decimal;
  retention_ratio : Decimal;
  pool_type : string
}.

(** The object state of a [MobiusPool]: the two dictionaries are finite maps
    keyed by token address. *)
Record MobiusPool : Type := mkMobiusPool {
  pool_address : string;
  config : PoolConfig;
  assets : gmap string AssetState;
  asset_addresses : gmap string string
}.

(** *** Mathematical functions *)

Definition _to_wad (x d : Z) : result Decimal :=
  x_decimal ← decimal_of_str x;
  if d <? 18 then dec_mul x_decimal (of_int (10 ^ (18 - d)))
  else if 18 <? d then dec_div x_decimal (of_int (10 ^ (d - 18)))
  else Ok x_decimal.

Definition _from_wad (x : Decimal) (d : Z) : result Decimal :=
  if d <? 18 then dec_div x (of_int (10 ^ (18 - d)))
  else if 18 <? d then dec_mul x (of_int (10 ^ (d - 18)))
  else Ok x.

Definition _coverage_ratio (cash_wad liability_wad : Decimal) : result Decimal :=
  if dec_is_zero liability_wad then Err ZeroLiability
  else dec_div cash_wad liability_wad.

(** Case 1 of the integral, [r <= rThres]:
    [(UNIT - r_thres_wad) / Decimal('5000000000000000000') + r_thres_wad - r_wad]. *)
Definition integral_case1 (r_thres_wad r_wad : Decimal) : result Decimal :=
  a ← dec_sub UNIT r_thres_wad;
  b ← dec_div a FIVE_WAD;
  c ← dec_add b r_thres_wad;
  dec_sub c r_wad.

(** Case 2, [rThres < r < UNIT]:
    [((UNIT - r_wad) ** 5) / (Decimal('5000000000000000000') * (UNIT - r_thres_wad) ** 4)]. *)
Definition integral_case2 (r_thres_wad r_wad : Decimal) : result Decimal :=
  a ← dec_sub UNIT r_wad;
  num ← dec_pow a 5;
  b ← dec_sub UNIT r_thres_wad;
  p4 ← dec_pow b 4;
  den ← dec_mul FIVE_WAD p4;
  dec_div num den.

Definition _solvency_curve_integral (r_thres_wad r_wad : Decimal) : result Decimal :=
  if dec_is_zero r_thres_wad then Err ZeroThreshold
  else if dec_is_zero r_wad then Err ZeroRatio
  else if dec_leb r_wad r_thres_wad then integral_case1 r_thres_wad r_wad
  else if dec_ltb r_wad UNIT then integral_case2 r_thres_wad r_wad
  else Ok ZERO.

Definition _solvency_score (r_thres_wad cash_wad liability_wad cash_change_wad : Decimal)
    (add_cash : bool) : result Decimal :=
  if dec_is_zero liability_wad then Err ZeroLiability
  else
    cov_before ← dec_div cash_wad liability_wad;
    cov_after ←
      (if add_cash
       then s ← dec_add cash_wad cash_change_wad; dec_div s liability_wad
       else s ← dec_sub cash_wad cash_change_wad; dec_div s liability_wad);
    if dec_eqb cov_before cov_after then Ok ZERO
    else
      cov_before_wad ← dec_mul cov_before UNIT;
      cov_after_wad ← dec_mul cov_after UNIT;
      solvency_integral_before ← _solvency_curve_integral r_thres_wad cov_before_wad;
      solvency_integral_after ← _solvency_curve_integral r_thres_wad cov_after_wad;
      if dec_gtb cov_before cov_after
      then
        n ← dec_sub solvency_integral_after solvency_integral_before;
        d ← dec_sub cov_before cov_after;
        dec_div n d
      else
        n ← dec_sub solvency_integral_before solvency_integral_after;
        d ← dec_sub cov_after cov_before;
        dec_div n d.

Definition _compute_to_amount (si_wad sj_wad from_amount_wad : Decimal) : result Decimal :=
  a ← dec_add UNIT si_wad;
  b ← dec_sub a sj_wad;
  c ← dec_mul from_amount_wad b;
  dec_div c UNIT.

Definition _haircut (amount_wad rate_wad : Decimal) : result Decimal :=
  a ← dec_mul amount_wad rate_wad;
  dec_div a UNIT.

Definition _convert_token_amount (from_amount_wad from_price_wad to_price_wad : Decimal)
    : result Decimal :=
  if dec_is_zero to_price_wad || dec_is_zero from_price_wad then Err ZeroPrice
  else
    a ← dec_mul from_amount_wad from_price_wad;
    dec_div a to_price_wad.

(** *** Quoting *)

Definition _quote_ideal_to_amount (from_asset to_asset : AssetState)
    (from_amount_wad : Decimal) : result Decimal :=
  match price_wad to_asset, price_wad from_asset with
  | Some to_price, Some from_price =>
      _convert_token_amount from_amount_wad from_price to_price
  | _, _ => Err PriceNotSet
  end.

Definition is_stable_pool (cfg : PoolConfig) : bool :=
  String.eqb (pool_type cfg) "stable".

(** The first step of [_quote_swap_internal] (and of [validate_swap]):
    one to one in a stable pool, by the price ratio otherwise. *)
Definition ideal_to_amount (cfg : PoolConfig) (from_asset to_asset : AssetState)
    (from_amount_wad : Decimal) : result Decimal :=
  if is_stable_pool cfg then Ok from_amount_wad
  else _quote_ideal_to_amount from_asset to_asset from_amount_wad.

Definition _quote_swap_internal (self : MobiusPool) (from_asset to_asset : AssetState)
    (from_amount_wad : Decimal) : result (Decimal * Decimal) :=
  ideal ← ideal_to_amount (config self) from_asset to_asset from_amount_wad;
  if dec_ltb (cash to_asset) ideal then Err InsufficientCash
  else
    solvency_from ← _solvency_score (r_threshold (config self))
                      (cash from_asset) (liability from_asset) from_amount_wad true;
    solvency_to ← _solvency_score (r_threshold (config self))
                    (cash to_asset) (liability to_asset) ideal false;
    si ← dec_mul solvency_from UNIT;
    sj ← dec_mul solvency_to UNIT;
    to_amount ← _compute_to_amount si sj ideal;
    haircut ← _haircut to_amount (haircut_rate (config self));
    actual_to_amount ← dec_sub to_amount haircut;
    Ok (actual_to_amount, haircut).

(** *** Methods

    A method runs on the object state and may raise; it returns its outcome
    together with the state it leaves behind. *)
Definition method (A : Type) : Type := MobiusPool -> result A * MobiusPool.

Definition m_ret {A} (a : A) : method A := fun self => (Ok a, self).
Definition m_raise {A} (e : error) : method A := fun self => (Err e, self).
Definition m_lift {A} (r : result A) : method A := fun self => (r, self).
Definition m_self : method MobiusPool := fun self => (Ok self, self).
Definition m_store (s : MobiusPool) : method unit := fun _ => (Ok tt, s).
Definition m_bind {A B} (m : method A) (k : A -> method B) : method B :=
  fun self =>
    match m self with
    | (Ok a, self') => k a self'
    | (Err e, self') => (Err e, self')
    end.
(** [try: m except Exception: h]. *)
Definition m_try {A} (m : method A) (h : error -> method A) : method A :=
  fun self =>
    match m self with
    | (Ok a, self') => (Ok a, self')
    | (Err e, self') => h e self'
    end.

#[global] Instance method_ret : MRet method := @m_ret.
#[global] Instance method_bind : MBind method := fun A B k m => m_bind m k.

Definition update_asset_state (token asset_address : string) (cash_in liability_in : Z)
    (decimals : Z) (aggregate : string) (values_in_wad : bool) (price : option Z)
    : method unit :=
  cash_wad ←
    m_lift (if values_in_wad then decimal_of_str cash_in else _to_wad cash_in decimals);
  liability_wad ←
    m_lift (if values_in_wad then decimal_of_str liability_in
            else _to_wad liability_in decimals);
  price_decimal ←
    m_lift (match price with
            | Some price_wad => p ← decimal_of_str price_wad; Ok (Some p)
            | None => Ok None
            end);
  self ← m_self;
  m_store
    {| pool_address := pool_address self;
       config := config self;
       assets := <[token := mkAssetState token cash_wad liability_wad decimals
                             aggregate price_decimal]> (assets self);
       asset_addresses := <[token := asset_address]> (asset_addresses self) |}.

Definition get_asset_state (token : string) : method (option AssetState) :=
  self ← m_self;
  m_ret (assets self !! token).

Definition is_stable_asset (token : string) : method bool :=
  self ← m_self;
  m_ret (match assets self !! token with
         | Some asset => match price_wad asset with None => true | Some _ => false end
         | None => false
         end).

Definition update_asset_price (token : string) (price : Z) : method unit :=
  self ← m_self;
  match assets self !! token with
  | None => m_raise AssetNotFound
  | Some asset =>
      price_decimal ← m_lift (decimal_of_str price);
      m_store
        {| pool_address := pool_address self;
           config := config self;
           assets := <[token := mkAssetState (token_address asset) (cash asset)
                                 (liability asset) (underlying_token_decimals asset)
                                 (aggregate_account asset) (Some price_decimal)]>
                       (assets self);
           asset_addresses := asset_addresses self |}
  end.

Definition quote_swap (from_token to_token : string) (from_amount : Z) : method (Z * Z) :=
  self ← m_self;
  match assets self !! from_token, assets self !! to_token with
  | Some from_asset, Some to_asset =>
      if negb (String.eqb (aggregate_account from_asset) (aggregate_account to_asset))
      then m_raise AggregateAccountMismatch
      else
        from_amount_wad ←
          m_lift (_to_wad from_amount (underlying_token_decimals from_asset));
        '(to_amount_wad, haircut_wad) ←
          m_lift (_quote_swap_internal self from_asset to_asset from_amount_wad);
        to_amount ←
          m_lift (_from_wad to_amount_wad (underlying_token_decimals to_asset));
        haircut ←
          m_lift (_from_wad haircut_wad (underlying_token_decimals to_asset));
        m_ret (to_int to_amount, to_int haircut)
  | _, _ => m_raise AssetNotFound
  end.

Definition validate_swap (from_token to_token : string) (from_amount : Z) : method bool :=
  m_try
    (self ← m_self;
     match assets self !! from_token, assets self !! to_token with
     | Some from_asset, Some to_asset =>
         if negb (String.eqb (aggregate_account from_asset) (aggregate_account to_asset))
         then m_ret false
         else if from_amount <=? 0 then m_ret false
         else
           from_amount_wad ←
             m_lift (_to_wad from_amount (underlying_token_decimals from_asset));
           ideal ←
             m_lift (ideal_to_amount (config self) from_asset to_asset from_amount_wad);
           if dec_ltb (cash to_asset) ideal then m_ret false else m_ret true
     | _, _ => m_ret false
     end)
    (fun _ => m_ret false).

End Mobius.

Export Mobius.

(** ** The pools of the module's examples *)

Module Examples.

Definition USDe : string := "0x5d3a1Ff2b6BAb83b63cd9AD0787074081a52ef34".
Definition USDC : string := "0x09Bc4E0D864854c6aFB6eB9A9cdF58aC190D0dF9".
Definition USDT : string := "0x201EBa5CC46D216Ce6DC03F6a759e8E766e956aE".
Definition cmETH : string := "0xE6829d9a7eE3040e1276Fa75293Bde931859e8fA".
Definition mETH : string := "0xcDA86A272531e8640cD7F1a92c01839911B90bb0".
Definition WETH : string := "0xdEAddEaDdeadDEadDEADDEAddEADDEAddead1111".
Definition stable_account : string := "0x7f63b4B1B9177BD064040D4F7ceBEef328f33e20".
Definition variant_account : string := "0x927348962E7Bf9e156845585Cf858c613D389f4B".

Definition create_mantle_mainnet_stable_pool : MobiusPool :=
  {| pool_address := "0x3c056E0efaE7218b257868734b1dA7719B41F920";
     config := {| r_threshold := of_int 230000000000000000;
                  haircut_rate := of_int 50000000000000;
                  retention_ratio := of_int 200000000000000000;
                  pool_type := "stable" |};
     assets := ∅;
     asset_addresses := ∅ |}.

Definition create_mantle_mainnet_variant_pool : MobiusPool :=
  {| pool_address := "0xF95595635D4b09aE4c662069e82CA43012118707";
     config := {| r_threshold := of_int 200000000000000000;
                  haircut_rate := of_int 50000000000000;
                  retention_ratio := of_int 200000000000000000;
                  pool_type := "variant" |};
     assets := ∅;
     asset_addresses := ∅ |}.

Definition setup_stable_pool_state : method unit :=
  _ ← update_asset_state USDe "0x362F4D6F539201dB13A7305369a48FaC58960be5"
        21564039972018040980967 24336765812301186559140 18 stable_account true None;
  _ ← update_asset_state USDC "0xb8Ca9787Cf03c6f1fA6ef207aB93e875F3B84426"
        21491644533317066991913 18717507771725148273016 6 stable_account true None;
  update_asset_state USDT "0x6A7D252b807887AfEE870d14C5D7eb25f00A7044"
        17494532897516387104081 17494496221405803482740 6 stable_account true None.

Definition setup_variant_pool_state : method unit :=
  _ ← update_asset_state WETH "0x6d01Ad49e74aa488EB293c1869D4aCDC39359B4b"
        100000000000000000000 100000000000000000000 18 variant_account true
        (Some 1000000000000000000);
  _ ← update_asset_state cmETH "0x801f29bB8fa066b71bF2f4e1Af34D7E4682cCecc"
        100000000000000000000 100000000000000000000 18 variant_account true
        (Some 1072690000000000000);
  update_asset_state mETH "0x88837Ef995907016C5ca0776693f6B2339A44E35"
        100000000000000000000 100000000000000000000 18 variant_account true
        (Some 1072690000000000000).

(** The state a method leaves behind. *)
Definition state_after {A} (m : method A) (self : MobiusPool) : MobiusPool := snd (m self).

Definition stable_pool : MobiusPool :=
  state_after setup_stable_pool_state create_mantle_mainnet_stable_pool.
Definition variant_pool : MobiusPool :=
  state_after setup_variant_pool_state create_mantle_mainnet_variant_pool.

(** A variant pool in which WETH has been registered without a price. *)
Definition unpriced_pool : MobiusPool :=
  state_after
    (update_asset_state WETH "0x6d01Ad49e74aa488EB293c1869D4aCDC39359B4b"
       100000000000000000000 100000000000000000000 18 variant_account true None)
    variant_pool.

(** A stable pool whose destination asset is covered at ten per cent. *)
Definition drained_pool : MobiusPool :=
  state_after
    (_ ← update_asset_state USDe "0x362F4D6F539201dB13A7305369a48FaC58960be5"
           100000000000000000000 100000000000000000000 18 stable_account true None;
     update_asset_state USDC "0xb8Ca9787Cf03c6f1fA6ef207aB93e875F3B84426"
           10000000000000000000 100000000000000000000 18 stable_account true None)
    create_mantle_mainnet_stable_pool.

(** A stable pool configured with a zero threshold, holding two assets
    whose cash needs twenty-nine digits. *)
Definition zero_threshold_pool : MobiusPool :=
  state_after
    (_ ← update_asset_state USDe "0x362F4D6F539201dB13A7305369a48FaC58960be5"
           10000000000000000000000000001 3 18 stable_account true None;
     update_asset_state USDC "0xb8Ca9787Cf03c6f1fA6ef207aB93e875F3B84426"
           10000000000000000000000000001 3 6 stable_account true None)
    {| pool_address := "0x3c056E0efaE7218b257868734b1dA7719B41F920";
       config := {| r_threshold := of_int 0;
                    haircut_rate := of_int 50000000000000;
                    retention_ratio := of_int 200000000000000000;
                    pool_type := "stable" |};
       assets := ∅;
       asset_addresses := ∅ |}.

(** The stable pool with two assets whose cash, [10^28 + 1], has one
    digit more than the precision of the context, against a liability of
    3. *)
Definition long_cash_pool : MobiusPool :=
  state_after
    (_ ← update_asset_state USDe "0x362F4D6F539201dB13A7305369a48FaC58960be5"
           10000000000000000000000000001 3 18 stable_account true None;
     update_asset_state USDC "0xb8Ca9787Cf03c6f1fA6ef207aB93e875F3B84426"
           10000000000000000000000000001 3 6 stable_account true None)
    create_mantle_mainnet_stable_pool.

End Examples.


(** ** Vocabulary of the statements *)

(** The rational number a decimal denotes. *)
Definition dval (d : Decimal) : Q := (inject_Z (coef d) * 10 ^ expo d)%Q.

(** [q] is [m * 10 ^ j], a value that [p] digits and the exponent range of
    the context can hold. *)
Definition fits (p : Z) (q : Q) (m j : Z) : Prop :=
  (q == inject_Z m * 10 ^ j)%Q /\ Z.abs m < 10 ^ p /\ Emin <= j /\ j + p - 1 <= Emax.

(** A method is read-only when it leaves every state as it found it. *)
Definition read_only {A} (m : method A) : Prop := forall self, snd (m self) = self.

(** The computation of [quote_swap] once both assets are found in the same
    aggregate account. *)
Definition quote_pipeline (self : MobiusPool) (from_asset to_asset : AssetState)
    (from_amount : Z) : result (Z * Z) :=
  from_amount_wad ← _to_wad from_amount (underlying_token_decimals from_asset);
  '(to_amount_wad, haircut_wad) ←
     _quote_swap_internal self from_asset to_asset from_amount_wad;
  to_amount ← _from_wad to_amount_wad (underlying_token_decimals to_asset);
  haircut ← _from_wad haircut_wad (underlying_token_decimals to_asset);
  Ok (to_int to_amount, to_int haircut).


(** The signals of the decimal module. *)
Definition arith_error (e : error) : Prop :=
  e = DecOverflow \/ e = DecDivisionByZero \/ e = DecInvalidOperation.

(** The requests [validate_swap] is documented to turn down: a non-positive
    amount, an unregistered token, or an ideal destination amount above the
    destination's cash. *)
Inductive rejected (self : MobiusPool) (f t : string) (amt : Z) : Prop :=
  | rejected_amount : amt <= 0 -> rejected self f t amt
  | rejected_from : assets self !! f = None -> rejected self f t amt
  | rejected_to : assets self !! t = None -> rejected self f t amt
  | rejected_cash fa ta w ideal :
      assets self !! f = Some fa -> assets self !! t = Some ta ->
      _to_wad amt (underlying_token_decimals fa) = Ok w ->
      ideal_to_amount (config self) fa ta w = Ok ideal ->
      dec_ltb (cash ta) ideal = true ->
      rejected self f t amt.

(** The coefficient [c] at the exponent [e] with every digit after the
    first [p] dropped, rounding half to even: [c * 10 ^ e] correctly rounded
    to [p] significant digits.  A coefficient of at most [p] digits is kept
    as it is. *)
Definition rounded (p : Z) (c e : Z) : Decimal :=
  if ndigits c <=? p then mkDecimal c e
  else mkDecimal (Z.sgn c * round_half_even (Z.abs c) (ndigits c - p)) (e + (ndigits c - p)).

(** A decimal of ordinary size: its last digit stands no lower than
    [10 ^ (- R)] and its first digit below [10 ^ R]. *)
Definition ordinary (R : Z) (d : Decimal) : Prop :=
  - R <= expo d /\ ndigits (coef d) + expo d <= R.

(** The size of the amounts of a pool: ten thousand digits on either side
    of the decimal point, more than [str] lets an integer have. *)
Definition size_limit : Z := 10000.

(** Cash and liability of a record are of ordinary size, as they are in
    every record that [update_asset_state] stores with a decimal count
    between 0 and 255. *)
Definition ordinary_asset (a : AssetState) : Prop :=
  ordinary size_limit (cash a) /\ ordinary size_limit (liability a).

(** ** Further definitions of the module *)

(** The [coverage_ratio] property of [AssetState]. *)
Definition coverage_ratio (a : AssetState) : result Decimal :=
  if dec_is_zero (liability a) then Err ZeroLiability
  else dec_div (cash a) (liability a).

(** [TOKEN_CONFIG], in the order of the dictionary literal: name, decimals
    and address of each token. *)
Definition TOKEN_CONFIG : list (string * (Z * string)) :=
  [ ("USDe", (18, "0x5d3a1Ff2b6BAb83b63cd9AD0787074081a52ef34"));
    ("USDC", (6, "0x09Bc4E0D864854c6aFB6eB9A9cdF58aC190D0dF9"));
    ("USDT", (6, "0x201EBa5CC46D216Ce6DC03F6a759e8E766e956aE"));
    ("cmETH", (18, "0xE6829d9a7eE3040e1276Fa75293Bde931859e8fA"));
    ("mETH", (18, "0xcDA86A272531e8640cD7F1a92c01839911B90bb0"));
    ("WETH", (18, "0xdEAddEaDdeadDEadDEADDEAddEADDEAddead1111")) ]%string.

(** The loop of [get_token_decimals] over the items of a configuration:
    the decimals of the first token with the address, 18 when there is
    none. *)
Fixpoint token_decimals_in (items : list (string * (Z * string))) (token_address : string)
    : Z :=
  match items with
  | [] => 18
  | (_, (decimals, address)) :: rest =>
      if String.eqb address token_address then decimals
      else token_decimals_in rest token_address
  end.

(** The loop of [get_token_name]. *)
Fixpoint token_name_in (items : list (string * (Z * string))) (token_address : string)
    : string :=
  match items with
  | [] => "Unknown"
  | (token_name, (_, address)) :: rest =>
      if String.eqb address token_address then token_name
      else token_name_in rest token_address
  end.

Definition get_token_decimals (token_address : string) : Z :=
  token_decimals_in TOKEN_CONFIG token_address.

Definition get_token_name (token_address : string) : string :=
  token_name_in TOKEN_CONFIG token_address.

(** Where a failure of the quoting computation can come from: the cash
    check, a price of a variant pool, a zero liability of one of the two
    assets, a zero threshold, a zero coverage ratio, the decimal module, or
    the conversion of an amount of too many digits. *)
Definition quote_failure (self : MobiusPool) (fa ta : AssetState) (e : error) : Prop :=
  e = InsufficientCash
  \/ (is_stable_pool (config self) = false /\ (e = PriceNotSet \/ e = ZeroPrice))
  \/ (e = ZeroLiability
      /\ (dec_is_zero (liability fa) = true \/ dec_is_zero (liability ta) = true))
  \/ (e = ZeroThreshold /\ dec_is_zero (r_threshold (config self)) = true)
  \/ e = ZeroRatio
  \/ arith_error e
  \/ e = IntStrDigits.

(** The record [update_asset_price] leaves for an asset: the price
    replaced, or the record as it was when the price has too many digits
    for [str] and the call raises before the assignment. *)
Definition with_price (a : AssetState) (price : Z) : AssetState :=
  match decimal_of_str price with
  | Ok price_decimal =>
      mkAssetState (token_address a) (cash a) (liability a) (underlying_token_decimals a)
        (aggregate_account a) (Some price_decimal)
  | Err _ => a
  end.

(** The three conversions at the head of [update_asset_state], in the
    order of the source: cash, liability, price. *)
Definition converted_inputs (c l d : Z) (viw : bool) (price : option Z)
    : result (Decimal * Decimal * option Decimal) :=
  cw ← (if viw then decimal_of_str c else _to_wad c d);
  lw ← (if viw then decimal_of_str l else _to_wad l d);
  pd ← match price with
       | Some price_wad => p ← decimal_of_str price_wad; Ok (Some p)
       | None => Ok None
       end;
  Ok (cw, lw, pd).

(** The stable pool of the examples with WETH registered as well, in the
    aggregate account of the variant pool. *)
Definition mixed_pool : MobiusPool :=
  Examples.state_after
    (update_asset_state Examples.WETH "0x6d01Ad49e74aa488EB293c1869D4aCDC39359B4b"
       100000000000000000000 100000000000000000000 18 Examples.variant_account true
       (Some 1000000000000000000))
    Examples.stable_pool.

(** The stable pool of the examples with a USDe asset that has no
    liability. *)
Definition unfunded_pool : MobiusPool :=
  Examples.state_after
    (update_asset_state Examples.USDe "0x362F4D6F539201dB13A7305369a48FaC58960be5"
       0 0 18 Examples.stable_account true None)
    Examples.stable_pool.

(** ** Decimal digits *)

Lemma pow10_gt0 k : 0 <= k -> 0 < 10 ^ k.
Proof. intros; apply Z.pow_pos_nonneg; lia. Qed.

Lemma pow10_succ k : 0 <= k -> 10 ^ (k + 1) = 10 * 10 ^ k.
Proof. intros. rewrite Z.pow_add_r by lia. lia. Qed.

Lemma pow10_lt a b : 0 <= a -> a < b -> 10 ^ a < 10 ^ b.
Proof. intros. apply Z.pow_lt_mono_r; lia. Qed.

Lemma pow10_le a b : 0 <= a -> a <= b -> 10 ^ a <= 10 ^ b.
Proof. intros. apply Z.pow_le_mono_r; lia. Qed.

Lemma pow10_lt_inv a b : 0 <= a -> 0 <= b -> 10 ^ a < 10 ^ b -> a < b.
Proof.
  intros Ha Hb H. destruct (Z_lt_le_dec a b) as [|Hle]; [assumption|].
  pose proof (pow10_le b a Hb Hle). lia.
Qed.

Lemma ndigits_aux_spec fuel : forall n,
  0 < n -> Z.log2 n <= Z.of_nat fuel ->
  1 <= ndigits_aux fuel n /\ 10 ^ (ndigits_aux fuel n - 1) <= n < 10 ^ ndigits_aux fuel n.
Proof.
  induction fuel as [|fuel IH]; intros n Hn Hlog.
  - simpl. assert (n < 2 ^ 1) by (apply Z.log2_lt_pow2; lia).
    change (2 ^ 1) with 2 in *. simpl. lia.
  - cbn [ndigits_aux]. destruct (Z.ltb_spec n 10) as [Hlt|Hge].
    + simpl. lia.
    + assert (Hq : 0 < n / 10) by (apply Z.div_str_pos; lia).
      assert (Hlog' : Z.log2 (n / 10) <= Z.of_nat fuel).
      { assert (n < 2 ^ (Z.of_nat (S fuel) + 1)) by (apply Z.log2_lt_pow2; lia).
        assert (E : 2 ^ (Z.of_nat (S fuel) + 1) = 4 * 2 ^ Z.of_nat fuel).
        { replace (Z.of_nat (S fuel) + 1) with (Z.of_nat fuel + 2) by lia.
          rewrite Z.pow_add_r by lia. lia. }
        assert (0 < 2 ^ Z.of_nat fuel) by (apply Z.pow_pos_nonneg; lia).
        assert (n / 10 < 2 ^ Z.of_nat fuel).
        { apply Z.div_lt_upper_bound; lia. }
        destruct fuel as [|fuel'].
        - simpl in *. lia.
        - assert (Z.log2 (n / 10) < Z.of_nat (S fuel')) by (apply Z.log2_lt_pow2; lia). lia. }
      destruct (IH (n / 10) Hq Hlog') as (Hk & Hlo & Hhi).
      set (k := ndigits_aux fuel (n / 10)) in *.
      replace (1 + k - 1) with k by lia.
      replace (1 + k) with (k + 1) by lia.
      rewrite pow10_succ by lia.
      assert (E : 10 ^ k = 10 * 10 ^ (k - 1)).
      { rewrite <- pow10_succ by lia. f_equal. lia. }
      pose proof (Z.div_mod n 10 ltac:(lia)). pose proof (Z.mod_pos_bound n 10 ltac:(lia)).
      split; [lia|]. split; lia.
Qed.

Lemma ndigits_spec c :
  c <> 0 -> 1 <= ndigits c /\ 10 ^ (ndigits c - 1) <= Z.abs c < 10 ^ ndigits c.
Proof.
  intros Hc. unfold ndigits. apply ndigits_aux_spec; [lia|].
  rewrite Z2Nat.id; [lia | apply Z.log2_nonneg].
Qed.

Lemma ndigits_pos c : 1 <= ndigits c.
Proof.
  destruct (Z.eq_dec c 0) as [->|Hc]; [reflexivity | apply ndigits_spec; assumption].
Qed.

Lemma ndigits_unique c k :
  1 <= k -> 10 ^ (k - 1) <= Z.abs c < 10 ^ k -> ndigits c = k.
Proof.
  intros Hk [Hlo Hhi].
  assert (Hc : c <> 0).
  { intros ->. simpl in Hlo. pose proof (pow10_gt0 (k - 1)). lia. }
  destruct (ndigits_spec c Hc) as (Hn & Hlo' & Hhi').
  assert (ndigits c - 1 < k) by (apply pow10_lt_inv; lia).
  assert (k - 1 < ndigits c) by (apply pow10_lt_inv; lia).
  lia.
Qed.

Lemma ndigits_le c k : 1 <= k -> Z.abs c < 10 ^ k -> ndigits c <= k.
Proof.
  intros Hk Hlt. destruct (Z.eq_dec c 0) as [->|Hc]; [change (ndigits 0) with 1; lia|].
  destruct (ndigits_spec c Hc) as (Hn & Hlo & Hhi).
  assert (ndigits c - 1 < k) by (apply pow10_lt_inv; lia). lia.
Qed.

Lemma ndigits_abs c : ndigits (Z.abs c) = ndigits c.
Proof. unfold ndigits. rewrite Z.abs_idemp. reflexivity. Qed.

Lemma ndigits_mul_pow10 c k :
  c <> 0 -> 0 <= k -> ndigits (c * 10 ^ k) = ndigits c + k.
Proof.
  intros Hc Hk. destruct (ndigits_spec c Hc) as (Hn & Hlo & Hhi).
  pose proof (pow10_gt0 k Hk).
  apply ndigits_unique; [lia|].
  rewrite Z.abs_mul, (Z.abs_eq (10 ^ k)) by lia.
  replace (ndigits c + k - 1) with ((ndigits c - 1) + k) by lia.
  rewrite !Z.pow_add_r by lia. split; nia.
Qed.

Lemma ndigits_pow10 k : 0 <= k -> ndigits (10 ^ k) = k + 1.
Proof.
  intros Hk. rewrite <- (Z.mul_1_l (10 ^ k)).
  rewrite ndigits_mul_pow10 by lia. change (ndigits 1) with 1. lia.
Qed.

(** [str] accepts every integer of at most 4300 digits. *)
Lemma decimal_of_str_ok x :
  ndigits x <= int_max_str_digits -> decimal_of_str x = Ok (of_int x).
Proof.
  intros H. unfold decimal_of_str.
  destruct (Z.ltb_spec int_max_str_digits (ndigits x)); [lia|reflexivity].
Qed.

Lemma decimal_of_str_small x : Z.abs x < 10 ^ 28 -> decimal_of_str x = Ok (of_int x).
Proof.
  intros H. apply decimal_of_str_ok.
  pose proof (ndigits_le x 28 ltac:(lia) H). unfold int_max_str_digits. lia.
Qed.

Lemma decimal_of_str_inv x r : decimal_of_str x = Ok r -> r = of_int x.
Proof. unfold decimal_of_str. destruct (_ <? _); congruence. Qed.

Lemma decimal_of_str_error x e : decimal_of_str x = Err e -> e = IntStrDigits.
Proof. unfold decimal_of_str. destruct (_ <? _); congruence. Qed.

(** ** The value of a decimal *)

Lemma ten_nz : ~ (10 == 0)%Q.
Proof. discriminate. Qed.

Lemma Qpow10_pos e : (0 < 10 ^ e)%Q.
Proof. apply Qpower_0_lt. reflexivity. Qed.

Lemma Qpow10_nz e : ~ (10 ^ e == 0)%Q.
Proof. apply Qpower_not_0, ten_nz. Qed.

Lemma Qpow10_add a b : (10 ^ (a + b) == 10 ^ a * 10 ^ b)%Q.
Proof. apply Qpower_plus, ten_nz. Qed.

Lemma Qpow10_Z k : 0 <= k -> (inject_Z (10 ^ k) == 10 ^ k)%Q.
Proof. intros. rewrite Zpower_Qpower by assumption. reflexivity. Qed.

Lemma inject_Z_eq a b : (inject_Z a == inject_Z b)%Q -> a = b.
Proof. unfold Qeq; simpl. lia. Qed.

(** Two scaled integers with the same value. *)
Lemma scaled_eq a x b y :
  (inject_Z a * 10 ^ x == inject_Z b * 10 ^ y)%Q -> x <= y -> a = b * 10 ^ (y - x).
Proof.
  intros H Hxy. apply inject_Z_eq.
  rewrite inject_Z_mult, Qpow10_Z by lia.
  replace y with ((y - x) + x) in H at 1 by lia.
  rewrite Qpow10_add, Qmult_assoc in H.
  apply Qmult_inj_r in H; [exact H | apply Qpow10_nz].
Qed.

Lemma dval_zero e : (dval (mkDecimal 0 e) == 0)%Q.
Proof. unfold dval; simpl. apply Qmult_0_l. Qed.

Lemma dval_scale c e k :
  0 <= k -> (dval (mkDecimal (c * 10 ^ k) e) == dval (mkDecimal c (e + k)))%Q.
Proof.
  intros Hk. unfold dval; simpl.
  rewrite inject_Z_mult, Qpow10_Z, Qpow10_add by lia.
  rewrite (Qmult_comm (10 ^ e) (10 ^ k)), Qmult_assoc. reflexivity.
Qed.

Lemma dval_coef_zero d : (dval d == 0)%Q -> coef d = 0.
Proof.
  unfold dval. intros H. apply Qmult_integral in H. destruct H as [H|H].
  - apply inject_Z_eq. exact H.
  - exfalso. eapply Qpow10_nz; eauto.
Qed.

(** The position of the leading digit depends on the value only. *)
Lemma adjusted_unique c e m j :
  c <> 0 -> (dval (mkDecimal c e) == inject_Z m * 10 ^ j)%Q ->
  ndigits c + e = ndigits m + j.
Proof.
  intros Hc H. unfold dval in H; simpl in H.
  destruct (Z_le_gt_dec e j) as [Hle|Hgt].
  - apply scaled_eq in H; [|assumption]. subst c.
    assert (m <> 0) by (intros ->; apply Hc; reflexivity).
    rewrite ndigits_mul_pow10 by lia. lia.
  - symmetry in H. apply scaled_eq in H; [|lia]. subst m.
    rewrite ndigits_mul_pow10 by lia. lia.
Qed.

(** A coefficient longer than the digits of its value ends in zeros. *)
Lemma trailing_zeros c e m j k :
  c <> 0 -> (dval (mkDecimal c e) == inject_Z m * 10 ^ j)%Q ->
  0 <= k <= ndigits c - ndigits m ->
  exists c', c = c' * 10 ^ k /\ ndigits c' = ndigits c - k /\ c' <> 0.
Proof.
  intros Hc H Hk. pose proof (adjusted_unique c e m j Hc H) as Hadj.
  unfold dval in H; simpl in H.
  assert (Hm : m <> 0).
  { intros ->. rewrite Qmult_0_l in H. apply Qmult_integral in H.
    destruct H as [H|H]; [apply Hc, inject_Z_eq; exact H | eapply Qpow10_nz; eauto]. }
  assert (Hle : e <= j) by lia.
  apply scaled_eq in H; [|assumption].
  exists (m * 10 ^ (j - e - k)). 
  assert (Hc' : m * 10 ^ (j - e - k) <> 0).
  { pose proof (pow10_gt0 (j - e - k) ltac:(lia)). nia. }
  split; [|split; [|assumption]].
  - rewrite <- Z.mul_assoc, <- Z.pow_add_r by lia. rewrite H. f_equal. f_equal. lia.
  - rewrite ndigits_mul_pow10 by lia. lia.
Qed.

Lemma round_half_even_exact c k : 0 <= k -> round_half_even (c * 10 ^ k) k = c.
Proof.
  intros Hk. unfold round_half_even. pose proof (pow10_gt0 k Hk).
  rewrite Z.mod_mul, Z.div_mul by lia.
  destruct (Z.ltb_spec (10 ^ k) (2 * 0)); [lia|].
  destruct (Z.eqb_spec (2 * 0) (10 ^ k)); [lia|]. reflexivity.
Qed.

(** [_fix] returns a value it can hold unchanged. *)
Lemma fix_exact p d m j :
  0 < p -> (dval d == inject_Z m * 10 ^ j)%Q ->
  Z.abs m < 10 ^ p -> Emin <= j -> j + p - 1 <= Emax ->
  exists r, _fix p d = Ok r /\ (dval r == dval d)%Q.
Proof.
  intros Hp H Hm Hj1 Hj2. destruct d as [c e]. unfold _fix; simpl.
  destruct (Z.eqb_spec c 0) as [->|Hc].
  { eexists; split; [reflexivity|]. rewrite !dval_zero. reflexivity. }
  pose proof (adjusted_unique c e m j Hc H) as Hadj.
  pose proof (ndigits_pos m) as Hm1.
  pose proof (ndigits_le m p ltac:(lia) Hm) as Hm2.
  unfold Etop, Etiny.
  destruct (Z.ltb_spec (Emax - p + 1) (ndigits c + e - p)) as [Hbad|_]; [lia|].
  rewrite Z.max_l by lia.
  destruct (Z.ltb_spec e (ndigits c + e - p)) as [Hlong|Hshort].
  - destruct (trailing_zeros c e m j (ndigits c - p) Hc H ltac:(lia))
      as (c' & Ec & Hn' & Hc').
    replace (ndigits c + e - p - e) with (ndigits c - p) by lia.
    assert (Eabs : Z.abs c = Z.abs c' * 10 ^ (ndigits c - p)).
    { rewrite Ec at 1. rewrite Z.abs_mul. f_equal. apply Z.abs_eq.
      pose proof (pow10_gt0 (ndigits c - p)). lia. }
    rewrite Eabs, round_half_even_exact by lia.
    rewrite ndigits_abs.
    destruct (Z.ltb_spec p (ndigits c')) as [Hbad|_]; [lia|].
    destruct (Z.ltb_spec (Emax - p + 1) (ndigits c + e - p)) as [Hbad|_]; [lia|].
    eexists; split; [reflexivity|].
    assert (Esgn : Z.sgn c = Z.sgn c').
    { rewrite Ec. rewrite Z.sgn_mul.
      rewrite (Z.sgn_pos (10 ^ _)) by (apply pow10_gt0; lia). lia. }
    rewrite Esgn. replace (Z.sgn c' * Z.abs c') with c' by (destruct c'; simpl; lia).
    rewrite Ec at 2. rewrite dval_scale by lia.
    replace (e + (ndigits c - p)) with (ndigits c + e - p) by lia. reflexivity.
  - eexists; split; reflexivity.
Qed.

(** ** Exact operations *)

Lemma dval_mul a b :
  (dval (mkDecimal (coef a * coef b) (expo a + expo b)) == dval a * dval b)%Q.
Proof.
  unfold dval; simpl. rewrite inject_Z_mult, Qpow10_add. ring.
Qed.

Lemma dval_align c e e' :
  e' <= e -> (dval (mkDecimal (c * 10 ^ (e - e')) e') == dval (mkDecimal c e))%Q.
Proof.
  intros H. rewrite dval_scale by lia. replace (e' + (e - e')) with e by lia. reflexivity.
Qed.

Lemma dval_add a b :
  let e := Z.min (expo a) (expo b) in
  (dval (mkDecimal (coef a * 10 ^ (expo a - e) + coef b * 10 ^ (expo b - e)) e)
   == dval a + dval b)%Q.
Proof.
  intros e. destruct a as [ca ea], b as [cb eb]; simpl in *.
  assert (e <= ea /\ e <= eb) as [H1 H2] by (unfold e; lia).
  rewrite <- (dval_align ca ea e H1), <- (dval_align cb eb e H2).
  unfold dval; simpl. rewrite inject_Z_plus. ring.
Qed.

Lemma dval_neg a : (dval (dec_neg a) == - dval a)%Q.
Proof. unfold dval, dec_neg; simpl. rewrite inject_Z_opp. ring. Qed.

Section Exact.

Variable p : Z.
Hypothesis p_pos : 0 < p.

Lemma fix_fits d m j :
  fits p (dval d) m j -> exists r, _fix p d = Ok r /\ (dval r == inject_Z m * 10 ^ j)%Q.
Proof.
  intros (H & Hm & Hj1 & Hj2).
  destruct (fix_exact p d m j p_pos H Hm Hj1 Hj2) as (r & Hr & Hv).
  exists r. split; [exact Hr|]. rewrite Hv. exact H.
Qed.

Lemma mul_exact a b m j :
  fits p (dval a * dval b) m j ->
  exists r, mul_prec p a b = Ok r /\ (dval r == inject_Z m * 10 ^ j)%Q.
Proof.
  intros (H & Hb). apply fix_fits. split; [|exact Hb]. rewrite dval_mul. exact H.
Qed.

Lemma add_exact a b m j :
  fits p (dval a + dval b) m j ->
  exists r, add_prec p a b = Ok r /\ (dval r == inject_Z m * 10 ^ j)%Q.
Proof.
  intros (H & Hb). apply fix_fits. split; [|exact Hb]. rewrite dval_add. exact H.
Qed.

Lemma sub_exact a b m j :
  fits p (dval a - dval b) m j ->
  exists r, add_prec p a (dec_neg b) = Ok r /\ (dval r == inject_Z m * 10 ^ j)%Q.
Proof.
  intros (H & Hb). apply add_exact. split; [|exact Hb]. rewrite dval_neg. exact H.
Qed.

Lemma strip_zeros_spec fuel : forall coeff exp,
  exists k, 0 <= k /\ coeff = fst (strip_zeros fuel coeff exp) * 10 ^ k
            /\ snd (strip_zeros fuel coeff exp) = exp + k.
Proof.
  induction fuel as [|fuel IH]; intros coeff exp; simpl.
  - exists 0. simpl. lia.
  - destruct (Z.eqb_spec (coeff mod 10) 0) as [Hz|Hnz].
    + destruct (IH (coeff / 10) (exp + 1)) as (k & Hk & E1 & E2).
      exists (k + 1). split; [lia|]. split; [|lia].
      rewrite pow10_succ by lia.
      pose proof (Z.div_mod coeff 10 ltac:(lia)). lia.
    + exists 0. simpl. lia.
Qed.

Lemma ndigits_mul_le a b : ndigits (a * b) <= ndigits a + ndigits b.
Proof.
  destruct (Z.eq_dec a 0) as [->|Ha].
  { change (ndigits (0 * b)) with 1. pose proof (ndigits_pos b).
    change (ndigits 0) with 1. lia. }
  destruct (Z.eq_dec b 0) as [->|Hb].
  { rewrite Z.mul_0_r. change (ndigits 0) with 1. pose proof (ndigits_pos a). lia. }
  destruct (ndigits_spec a Ha) as (Ha1 & _ & Ha2).
  destruct (ndigits_spec b Hb) as (Hb1 & _ & Hb2).
  apply ndigits_le; [lia|].
  rewrite Z.abs_mul, Z.pow_add_r by lia. nia.
Qed.

Lemma div_exact a b m j :
  coef b <> 0 -> fits p (dval a / dval b) m j ->
  exists r, div_prec p a b = Ok r /\ (dval r == inject_Z m * 10 ^ j)%Q.
Proof.
  intros Hcb (H & Hm & Hj1 & Hj2).
  destruct a as [ca ea], b as [cb eb]; simpl in Hcb.
  unfold div_prec; simpl coef; simpl expo.
  destruct (Z.eqb_spec cb 0) as [|_]; [contradiction|].
  assert (Hbnz : ~ (dval (mkDecimal cb eb) == 0)%Q).
  { intros E. apply dval_coef_zero in E. simpl in E. contradiction. }
  destruct (Z.eqb_spec ca 0) as [->|Hca].
  { apply fix_fits. repeat split; try assumption.
    rewrite <- H. rewrite !dval_zero. unfold Qdiv. rewrite Qmult_0_l. reflexivity. }
  (* the value of the dividend *)
  assert (Hnum : (dval (mkDecimal ca ea) == inject_Z (m * cb) * 10 ^ (j + eb))%Q).
  { rewrite inject_Z_mult, Qpow10_add.
    transitivity ((dval (mkDecimal ca ea) / dval (mkDecimal cb eb)) * dval (mkDecimal cb eb))%Q.
    - field. exact Hbnz.
    - rewrite H. unfold dval; simpl. ring. }
  pose proof (adjusted_unique ca ea (m * cb) (j + eb) Hca Hnum) as Hadj.
  pose proof (ndigits_mul_le m cb) as Hmul.
  pose proof (ndigits_le m p ltac:(lia) Hm) as Hmp.
  set (shift := ndigits cb - ndigits ca + p + 1) in *.
  set (t := j + eb - ea + shift).
  assert (Ht : 1 <= t) by (unfold t, shift; lia).
  set (num := if 0 <=? shift then Z.abs ca * 10 ^ shift else Z.abs ca).
  set (den := if 0 <=? shift then Z.abs cb else Z.abs cb * 10 ^ (- shift)).
  assert (Hcore : num = (Z.abs m * 10 ^ t) * den /\ 0 < den
                  /\ Z.sgn ca * Z.sgn cb = Z.sgn m).
  { unfold dval in Hnum; simpl in Hnum. unfold num, den.
    destruct (Z.leb_spec 0 shift) as [Hs|Hs].
    - assert (E : ca * 10 ^ shift = m * cb * 10 ^ t).
      { pose proof (dval_align ca ea (ea - shift) ltac:(lia)) as Hal.
        unfold dval in Hal; simpl in Hal.
        replace (ea - (ea - shift)) with shift in Hal by lia.
        rewrite <- Hal in Hnum.
        apply scaled_eq in Hnum; [|unfold t in Ht; lia].
        rewrite Hnum. f_equal. unfold t. f_equal. lia. }
      pose proof (pow10_gt0 shift Hs). pose proof (pow10_gt0 t ltac:(lia)).
      split; [|split; [lia|]].
      + apply (f_equal Z.abs) in E. rewrite !Z.abs_mul in E.
        rewrite (Z.abs_eq (10 ^ shift)), (Z.abs_eq (10 ^ t)) in E by lia. lia.
      + apply (f_equal Z.sgn) in E. rewrite !Z.sgn_mul in E.
        rewrite (Z.sgn_pos (10 ^ shift)), (Z.sgn_pos (10 ^ t)) in E by lia.
        destruct cb; try contradiction; destruct ca; try contradiction; destruct m; simpl in *; lia.
    - assert (E : ca = m * cb * 10 ^ (t - shift)).
      { apply scaled_eq in Hnum; [|unfold t in Ht; lia].
        rewrite Hnum. f_equal. f_equal. unfold t. lia. }
      pose proof (pow10_gt0 (- shift) ltac:(lia)). pose proof (pow10_gt0 t ltac:(lia)).
      replace (t - shift) with (t + - shift) in E by lia.
      rewrite Z.pow_add_r in E by lia.
      split; [|split; [lia|]].
      + apply (f_equal Z.abs) in E. rewrite !Z.abs_mul in E.
        rewrite (Z.abs_eq (10 ^ (- shift))), (Z.abs_eq (10 ^ t)) in E by lia. lia.
      + apply (f_equal Z.sgn) in E. rewrite !Z.sgn_mul in E.
        rewrite (Z.sgn_pos (10 ^ (- shift))), (Z.sgn_pos (10 ^ t)) in E by lia.
        destruct cb; try contradiction; destruct ca; try contradiction; destruct m; simpl in *; lia. }
  destruct Hcore as (Enum & Hden & Esgn).
  assert (Hrem : num mod den = 0) by (rewrite Enum; apply Z.mod_mul; lia).
  assert (Hquo : num / den = Z.abs m * 10 ^ t) by (rewrite Enum; apply Z.div_mul; lia).
  rewrite Hrem, Hquo. simpl (0 =? 0).
  destruct (strip_zeros_spec (Z.to_nat (ea - eb - (ea - eb - shift)))
              (Z.abs m * 10 ^ t) (ea - eb - shift)) as (k & Hk & E1 & E2).
  destruct (strip_zeros _ _ _) as [coeff' exp']; simpl in E1, E2.
  apply fix_fits. repeat split; try assumption.
  rewrite Esgn. unfold dval; simpl. subst exp'.
  transitivity (inject_Z (Z.sgn m * (coeff' * 10 ^ k)) * 10 ^ (ea - eb - shift))%Q.
  { rewrite !inject_Z_mult, Qpow10_Z, Qpow10_add by lia. ring. }
  rewrite <- E1.
  replace (Z.sgn m * (Z.abs m * 10 ^ t)) with (m * 10 ^ t)
    by (destruct m; simpl; lia).
  rewrite inject_Z_mult, Qpow10_Z by lia.
  rewrite <- Qmult_assoc, <- Qpow10_add.
  replace (t + (ea - eb - shift)) with j by (unfold t; lia). reflexivity.
Qed.

End Exact.

Lemma dec_eqb_value a b : (dval a == dval b)%Q -> dec_eqb a b = true.
Proof.
  intros H. unfold dec_eqb, dec_compare.
  set (e := Z.min (expo a) (expo b)).
  assert (e <= expo a /\ e <= expo b) as [H1 H2] by (unfold e; lia).
  destruct a as [ca ea], b as [cb eb]; simpl in *.
  rewrite <- (dval_align ca ea e H1), <- (dval_align cb eb e H2) in H.
  unfold dval in H; simpl in H.
  apply Qmult_inj_r in H; [|apply Qpow10_nz]. apply inject_Z_eq in H.
  rewrite H, Z.compare_refl. reflexivity.
Qed.

Lemma dval_of_int x : (dval (of_int x) == inject_Z x)%Q.
Proof. unfold dval, of_int; simpl. apply Qmult_1_r. Qed.

Lemma dval_of_pow10 k : 0 <= k -> (dval (of_int (10 ^ k)) == 10 ^ k)%Q.
Proof. intros. rewrite dval_of_int. apply Qpow10_Z. assumption. Qed.

Lemma Qpow10_opp k : (10 ^ (- k) == / 10 ^ k)%Q.
Proof. apply Qpower_opp. Qed.

Lemma prec_pos : 0 < prec.
Proof. reflexivity. Qed.


Lemma dval_mul_fits a b m j n k :
  (dval a == inject_Z m * 10 ^ j)%Q -> (dval b == inject_Z n * 10 ^ k)%Q ->
  (dval a * dval b == inject_Z (m * n) * 10 ^ (j + k))%Q.
Proof.
  intros Ha Hb. rewrite Ha, Hb, inject_Z_mult, Qpow10_add. ring.
Qed.

Lemma mul_lt_bound a b A B : 0 <= a < A -> 0 <= b < B -> 0 <= a * b < A * B.
Proof. intros. nia. Qed.

Lemma short_powers m :
  Z.abs m < 10 ^ 5 ->
  Z.abs m * Z.abs m < 10 ^ 10
  /\ Z.abs m * Z.abs m * (Z.abs m * Z.abs m) < 10 ^ 20
  /\ Z.abs m * Z.abs m * (Z.abs m * Z.abs m) * Z.abs m < 10 ^ 25.
Proof.
  intros Hm. pose proof (Z.abs_nonneg m) as H0.
  pose proof (mul_lt_bound _ _ _ _ (conj H0 Hm) (conj H0 Hm)) as H2.
  pose proof (mul_lt_bound _ _ _ _ H2 H2) as H4.
  pose proof (mul_lt_bound _ _ _ _ H4 (conj H0 Hm)) as H5.
  change (10 ^ 5 * 10 ^ 5) with (10 ^ 10) in *.
  change (10 ^ 10 * 10 ^ 10) with (10 ^ 20) in *.
  change (10 ^ 20 * 10 ^ 5) with (10 ^ 25) in *.
  lia.
Qed.

(** Powers of a short coefficient are exact. *)
Lemma pow5_exact a m j :
  (dval a == inject_Z m * 10 ^ j)%Q -> Z.abs m < 10 ^ 5 -> -1000 <= j <= 1000 ->
  exists r, dec_pow a 5 = Ok r
            /\ (dval r == inject_Z (m * m * (m * m) * m) * 10 ^ (j + j + (j + j) + j))%Q.
Proof.
  intros Ha Hm Hj. unfold dec_pow.
  change (prec + ndigits 5 + 2) with 31. cbn [pow_loop mbind result_bind].
  assert (H31 : 0 < 31) by lia.
  destruct (short_powers m Hm) as (B2 & B4 & B5).
  destruct (mul_exact 31 H31 a a (m * m) (j + j)) as (r2 & E2 & V2).
  { unfold fits, Emin, Emax. split; [apply dval_mul_fits; assumption|].
    split; [rewrite ?Z.abs_mul; lia|lia]. }
  rewrite E2; cbn [mbind result_bind].
  destruct (mul_exact 31 H31 r2 r2 (m * m * (m * m)) (j + j + (j + j))) as (r4 & E4 & V4).
  { unfold fits, Emin, Emax. split; [apply dval_mul_fits; assumption|].
    split; [rewrite ?Z.abs_mul; lia|lia]. }
  rewrite E4; cbn [mbind result_bind].
  destruct (mul_exact 31 H31 r4 a (m * m * (m * m) * m) (j + j + (j + j) + j))
    as (r5 & E5 & V5).
  { unfold fits, Emin, Emax. split; [apply dval_mul_fits; assumption|].
    split; [rewrite ?Z.abs_mul; lia|lia]. }
  rewrite E5; cbn [mbind result_bind].
  apply (fix_fits prec prec_pos). unfold fits, Emin, Emax, prec. split; [exact V5|].
  split; [rewrite ?Z.abs_mul; lia|lia].
Qed.

Lemma pow4_exact a m j :
  (dval a == inject_Z m * 10 ^ j)%Q -> Z.abs m < 10 ^ 5 -> -1000 <= j <= 1000 ->
  exists r, dec_pow a 4 = Ok r
            /\ (dval r == inject_Z (m * m * (m * m)) * 10 ^ (j + j + (j + j)))%Q.
Proof.
  intros Ha Hm Hj. unfold dec_pow.
  change (prec + ndigits 4 + 2) with 31. cbn [pow_loop mbind result_bind].
  assert (H31 : 0 < 31) by lia.
  destruct (short_powers m Hm) as (B2 & B4 & _).
  destruct (mul_exact 31 H31 a a (m * m) (j + j)) as (r2 & E2 & V2).
  { unfold fits, Emin, Emax. split; [apply dval_mul_fits; assumption|].
    split; [rewrite ?Z.abs_mul; lia|lia]. }
  rewrite E2; cbn [mbind result_bind].
  destruct (mul_exact 31 H31 r2 r2 (m * m * (m * m)) (j + j + (j + j))) as (r4 & E4 & V4).
  { unfold fits, Emin, Emax. split; [apply dval_mul_fits; assumption|].
    split; [rewrite ?Z.abs_mul; lia|lia]. }
  rewrite E4; cbn [mbind result_bind].
  apply (fix_fits prec prec_pos). unfold fits, Emin, Emax, prec. split; [exact V4|].
  split; [rewrite ?Z.abs_mul; lia|lia].
Qed.

Lemma dec_compare_refl a : dec_compare a a = Eq.
Proof. unfold dec_compare. apply Z.compare_refl. Qed.

Lemma dval_nonzero_coef d : ~ (dval d == 0)%Q -> coef d <> 0.
Proof.
  intros H E. apply H. destruct d as [c e]; simpl in E; subst. apply dval_zero.
Qed.

(** Evaluate the closed powers of ten of a rational goal and expose the
    integer injections, so that [ring] and [field] apply. *)
Ltac qnorm :=
  unfold Z.sub;
  repeat (rewrite inject_Z_mult || rewrite inject_Z_plus || rewrite inject_Z_opp);
  repeat match goal with
  | |- context [Qpower 10 ?k] =>
      let v := eval vm_compute in (Qpower 10 k) in change (Qpower 10 k) with v
  | |- context [inject_Z (Z.pow 10 ?k)] =>
      let v := eval vm_compute in (Z.pow 10 k) in change (Z.pow 10 k) with v
  end;
  unfold inject_Z.

Ltac fits_tac :=
  unfold fits, Emin, Emax, prec; split; [ | split; [ rewrite ?Z.abs_mul; try lia | lia ] ].


(** *** Operations that cannot fail *)

Lemma fix_zero p e : exists e', _fix p (mkDecimal 0 e) = Ok (mkDecimal 0 e').
Proof. unfold _fix; simpl. eexists; reflexivity. Qed.

Lemma fix_zero_ok p e : exists r, _fix p (mkDecimal 0 e) = Ok r.
Proof. unfold _fix; simpl. eexists; reflexivity. Qed.

Lemma fix_small p c e :
  c <> 0 -> ndigits c <= p -> Etiny p <= e -> ndigits c + e - p <= Etop p ->
  _fix p (mkDecimal c e) = Ok (mkDecimal c e).
Proof.
  intros Hc Hn He Htop. unfold _fix; simpl.
  destruct (Z.eqb_spec c 0) as [|_]; [contradiction|].
  destruct (Z.ltb_spec (Etop p) (ndigits c + e - p)); [lia|].
  destruct (Z.ltb_spec e (Z.max (ndigits c + e - p) (Etiny p))); [lia|]. reflexivity.
Qed.

(** [_fix] succeeds whenever the leading digit is below the top exponent. *)
Lemma fix_ok p c e B :
  0 < p <= 1000 -> 1 <= B -> Z.abs c < 10 ^ B -> B + e - p < Etop p ->
  exists r, _fix p (mkDecimal c e) = Ok r.
Proof.
  intros Hp HB Hc Hb. unfold _fix; simpl.
  destruct (c =? 0); [eexists; reflexivity|].
  pose proof (ndigits_le c B HB Hc) as Hn.
  assert (Ht : Etiny p < Etop p) by (unfold Etiny, Etop, Emin, Emax; lia).
  destruct (Z.ltb_spec (Etop p) (ndigits c + e - p)); [lia|].
  destruct (e <? Z.max (ndigits c + e - p) (Etiny p)); [|eexists; reflexivity].
  destruct (p <? ndigits _).
  - destruct (Z.ltb_spec (Etop p) (Z.max (ndigits c + e - p) (Etiny p) + 1)); [lia|].
    eexists; reflexivity.
  - destruct (Z.ltb_spec (Etop p) (Z.max (ndigits c + e - p) (Etiny p))); [lia|].
    eexists; reflexivity.
Qed.

Lemma div_ints_ok a b :
  Z.abs a < 10 ^ 28 -> b <> 0 -> Z.abs b < 10 ^ 28 ->
  exists r, dec_div (of_int a) (of_int b) = Ok r.
Proof.
  intros Ha Hb Hb'. unfold dec_div, div_prec, of_int; simpl coef; simpl expo.
  destruct (Z.eqb_spec b 0) as [|_]; [contradiction|].
  destruct (Z.eqb_spec a 0) as [|Hnz]; [apply fix_zero_ok|].
  pose proof (ndigits_pos a) as Ha1. pose proof (ndigits_pos b) as Hb1.
  pose proof (ndigits_le a 28 ltac:(lia) Ha) as Ha2.
  pose proof (ndigits_le b 28 ltac:(lia) Hb') as Hb2.
  destruct (ndigits_spec a Hnz) as (_ & _ & Hahi).
  unfold prec. set (shift := ndigits b - ndigits a + 28 + 1).
  assert (Hs : 2 <= shift <= 56) by (unfold shift; lia).
  destruct (Z.leb_spec 0 shift) as [_|]; [|lia].
  set (num := Z.abs a * 10 ^ shift). set (den := Z.abs b).
  assert (Hden : 0 < den) by (unfold den; lia).
  assert (Hnum : 0 <= num < 10 ^ 84).
  { unfold num. pose proof (pow10_gt0 shift ltac:(lia)).
    assert (10 ^ shift <= 10 ^ 56) by (apply pow10_le; lia).
    change (10 ^ 84) with (10 ^ 28 * 10 ^ 56). nia. }
  assert (Hq : 0 <= num / den <= num).
  { split; [apply Z.div_pos; lia|]. apply Z.div_le_upper_bound; nia. }
  assert (Hsign : Z.abs (Z.sgn a * Z.sgn b) = 1) by (destruct a, b; simpl; lia).
  assert (Hfix : forall coeff exp, Z.abs coeff < 10 ^ 85 -> exp <= 100 ->
            exists r, _fix 28 (mkDecimal (Z.sgn a * Z.sgn b * coeff) exp) = Ok r).
  { intros coeff exp Hc He.
    apply (fix_ok 28 _ _ 85);
      [lia | lia | rewrite Z.abs_mul, Hsign; lia | unfold Etop, Emax; lia]. }
  destruct (num mod den =? 0).
  - destruct (strip_zeros_spec (Z.to_nat (0 - 0 - (0 - 0 - shift))) (num / den) (0 - 0 - shift))
      as (k & Hk & E1 & E2).
    destruct (strip_zeros _ _ _) as [coeff' exp']; simpl in E1, E2.
    destruct (Z.eq_dec coeff' 0) as [->|Hc'].
    { rewrite Z.mul_0_r. apply fix_zero_ok. }
    pose proof (pow10_gt0 k Hk) as Hpk.
    assert (Hk' : k < 85).
    { apply pow10_lt_inv; [lia | lia | ].
      assert (0 < coeff') by nia. change (10 ^ 85) with (10 ^ 84 * 10). nia. }
    apply Hfix; [|lia].
    assert (0 < coeff') by nia.
    rewrite Z.abs_eq by lia. change (10 ^ 85) with (10 ^ 84 * 10). nia.
  - apply Hfix; [|lia].
    change (10 ^ 85) with (10 ^ 84 * 10).
    destruct (_ =? 0); rewrite Z.abs_eq; lia.
Qed.

Lemma add_zero_r c :
  Z.abs c < 10 ^ 28 -> dec_add (of_int c) (mkDecimal 0 0) = Ok (of_int c).
Proof.
  intros Hc. unfold dec_add, add_prec, of_int; simpl.
  rewrite Z.mul_1_r, Z.add_0_r.
  destruct (Z.eq_dec c 0) as [->|Hnz]; [reflexivity|].
  pose proof (ndigits_pos c). pose proof (ndigits_le c 28 ltac:(lia) Hc).
  apply fix_small; unfold prec, Etiny, Etop, Emin, Emax; lia.
Qed.

Lemma sub_zero_r c :
  Z.abs c < 10 ^ 28 -> dec_sub (of_int c) (mkDecimal 0 0) = Ok (of_int c).
Proof. intros Hc. apply (add_zero_r c Hc). Qed.

Lemma dec_eqb_refl a : dec_eqb a a = true.
Proof. unfold dec_eqb. rewrite dec_compare_refl. reflexivity. Qed.

(** A change of zero leaves the coverage where it was: the score is zero. *)
Lemma solvency_score_zero_change rt c l add_cash :
  Z.abs c < 10 ^ 28 -> l <> 0 -> Z.abs l < 10 ^ 28 ->
  _solvency_score rt (of_int c) (of_int l) (mkDecimal 0 0) add_cash = Ok ZERO.
Proof.
  intros Hc Hl Hl'. unfold _solvency_score.
  assert (Hz : dec_is_zero (of_int l) = false) by (apply Z.eqb_neq; assumption).
  rewrite Hz. destruct (div_ints_ok c l Hc Hl Hl') as (cov & Hcov).
  rewrite Hcov; cbn [mbind result_bind].
  rewrite add_zero_r, sub_zero_r by assumption.
  destruct add_cash; cbn [mbind result_bind]; rewrite Hcov; cbn [mbind result_bind];
    rewrite dec_eqb_refl; reflexivity.
Qed.

Lemma to_wad_zero d : _to_wad 0 d = Ok (mkDecimal 0 0).
Proof.
  unfold _to_wad. change (decimal_of_str 0) with (Ok (of_int 0)). cbn [mbind result_bind].
  destruct (d <? 18); [reflexivity|].
  destruct (Z.ltb_spec 18 d) as [Hd|]; [|reflexivity].
  unfold dec_div, div_prec, of_int; simpl coef; simpl expo.
  pose proof (pow10_gt0 (d - 18) ltac:(lia)).
  destruct (Z.eqb_spec (10 ^ (d - 18)) 0); [lia|]. reflexivity.
Qed.

Lemma mul_zero_l e b : exists e', dec_mul (mkDecimal 0 e) b = Ok (mkDecimal 0 e').
Proof. unfold dec_mul, mul_prec; simpl. apply fix_zero. Qed.

Lemma div_zero_l e b :
  coef b <> 0 -> exists e', dec_div (mkDecimal 0 e) b = Ok (mkDecimal 0 e').
Proof.
  intros Hb. unfold dec_div, div_prec; simpl.
  destruct (Z.eqb_spec (coef b) 0); [contradiction|]. apply fix_zero.
Qed.

Lemma sub_zero_zero e1 e2 :
  exists e', dec_sub (mkDecimal 0 e1) (mkDecimal 0 e2) = Ok (mkDecimal 0 e').
Proof. unfold dec_sub, add_prec, dec_neg; simpl. apply fix_zero. Qed.

Lemma from_wad_zero e d : exists e', _from_wad (mkDecimal 0 e) d = Ok (mkDecimal 0 e').
Proof.
  unfold _from_wad.
  destruct (Z.ltb_spec d 18) as [Hd|]; [|destruct (Z.ltb_spec 18 d)].
  - apply div_zero_l. simpl. pose proof (pow10_gt0 (18 - d) ltac:(lia)). lia.
  - apply mul_zero_l.
  - eexists; reflexivity.
Qed.

Lemma to_int_zero e : to_int (mkDecimal 0 e) = 0.
Proof.
  unfold to_int; simpl. destruct (Z.leb_spec 0 e); [reflexivity|].
  apply Z.quot_0_l. pose proof (pow10_gt0 (- e) ltac:(lia)). lia.
Qed.


(** ** Read-only methods *)

Lemma read_only_ret {A} (a : A) : read_only (m_ret a).
Proof. intros self. reflexivity. Qed.
Lemma read_only_raise {A} (e : error) : read_only (@m_raise A e).
Proof. intros self. reflexivity. Qed.
Lemma read_only_lift {A} (r : result A) : read_only (m_lift r).
Proof. intros self. reflexivity. Qed.
Lemma read_only_self : read_only m_self.
Proof. intros self. reflexivity. Qed.
Lemma read_only_bind {A B} (m : method A) (k : A -> method B) :
  read_only m -> (forall a, read_only (k a)) -> read_only (m ≫= k).
Proof.
  intros Hm Hk self. unfold mbind, method_bind, m_bind.
  specialize (Hm self). destruct (m self) as [[a|e] s']; simpl in *; subst.
  - apply Hk.
  - reflexivity.
Qed.
Lemma read_only_try {A} (m : method A) (h : error -> method A) :
  read_only m -> (forall e, read_only (h e)) -> read_only (m_try m h).
Proof.
  intros Hm Hh self. unfold m_try.
  specialize (Hm self). destruct (m self) as [[a|e] s']; simpl in *; subst.
  - reflexivity.
  - apply Hh.
Qed.

Create HintDb frame.
#[local] Hint Resolve read_only_ret read_only_raise read_only_lift read_only_self : frame.

Ltac frame :=
  repeat first
    [ apply read_only_bind; [ | intros ? ]
    | apply read_only_try; [ | intros ? ]
    | solve [ auto with frame ]
    | match goal with
      | |- read_only (match ?x with _ => _ end) => destruct x
      | |- read_only (if ?b then _ else _) => destruct b
      | |- read_only (let '(_, _) := ?p in _) => destruct p
      end ].

Lemma quote_swap_read_only f t a : read_only (quote_swap f t a).
Proof. unfold quote_swap. frame. Qed.
Lemma validate_swap_read_only f t a : read_only (validate_swap f t a).
Proof. unfold validate_swap. frame. Qed.
Lemma get_asset_state_read_only t : read_only (get_asset_state t).
Proof. unfold get_asset_state. frame. Qed.
Lemma is_stable_asset_read_only t : read_only (is_stable_asset t).
Proof. unfold is_stable_asset. frame. Qed.

(** ** Failures of the quoting pipeline *)

Lemma quote_swap_found self f t amt fa ta :
  assets self !! f = Some fa -> assets self !! t = Some ta ->
  aggregate_account fa = aggregate_account ta ->
  quote_swap f t amt self = (quote_pipeline self fa ta amt, self).
Proof.
  intros Hf Ht Hagg.
  unfold quote_swap, quote_pipeline, mbind, method_bind, m_bind, m_self; simpl.
  rewrite Hf, Ht, Hagg, String.eqb_refl; simpl.
  unfold m_lift, m_ret.
  destruct (_to_wad amt (underlying_token_decimals fa)) as [w|e]; simpl; [|reflexivity].
  destruct (_quote_swap_internal self fa ta w) as [[a h]|e]; simpl; [|reflexivity].
  destruct (_from_wad a (underlying_token_decimals ta)) as [a'|e]; simpl; [|reflexivity].
  destruct (_from_wad h (underlying_token_decimals ta)) as [h'|e]; simpl; reflexivity.
Qed.

Lemma fix_error p d e : _fix p d = Err e -> arith_error e.
Proof.
  unfold _fix, arith_error. intros H.
  repeat match type of H with
  | context [if ?b then _ else _] => destruct b
  | context [let '(_, _) := ?x in _] => destruct x
  end; inversion H; auto.
Qed.

Lemma add_prec_error p a b e : add_prec p a b = Err e -> arith_error e.
Proof. apply fix_error. Qed.
Lemma mul_prec_error p a b e : mul_prec p a b = Err e -> arith_error e.
Proof. apply fix_error. Qed.
Lemma div_prec_error p a b e : div_prec p a b = Err e -> arith_error e.
Proof.
  unfold div_prec. intros H.
  destruct (coef b =? 0).
  - destruct (coef a =? 0); inversion H; unfold arith_error; auto.
  - destruct (coef a =? 0); [eapply fix_error; eauto|].
    match type of H with context [let '(_, _) := ?x in _] => destruct x end.
    eapply fix_error; eauto.
Qed.
Lemma dec_add_error a b e : dec_add a b = Err e -> arith_error e.
Proof. apply add_prec_error. Qed.
Lemma dec_sub_error a b e : dec_sub a b = Err e -> arith_error e.
Proof. apply add_prec_error. Qed.
Lemma dec_mul_error a b e : dec_mul a b = Err e -> arith_error e.
Proof. apply mul_prec_error. Qed.
Lemma dec_div_error a b e : dec_div a b = Err e -> arith_error e.
Proof. apply div_prec_error. Qed.
Lemma pow_loop_error w a n e : pow_loop w a n = Err e -> arith_error e.
Proof.
  revert e. induction n as [n IH|n IH|]; simpl; intros e H.
  - destruct (pow_loop w a n) as [r|e']; simpl in H; [|inversion H; subst; eauto].
    destruct (mul_prec w r r) as [r2|e'] eqn:E; simpl in H;
      [eapply mul_prec_error; eauto | inversion H; subst; eapply mul_prec_error; eauto].
  - destruct (pow_loop w a n) as [r|e']; simpl in H; [|inversion H; subst; eauto].
    eapply mul_prec_error; eauto.
  - inversion H.
Qed.
Lemma dec_pow_error a n e : dec_pow a n = Err e -> arith_error e.
Proof.
  unfold dec_pow. intros H.
  destruct (pow_loop _ a n) as [r|e'] eqn:E; simpl in H.
  - eapply fix_error; eauto.
  - inversion H; subst. eapply pow_loop_error; eauto.
Qed.

(** Inversion of a failing bind. *)
Lemma bind_error {A B} (m : result A) (k : A -> result B) e :
  (m ≫= k) = Err e -> m = Err e \/ exists a, m = Ok a /\ k a = Err e.
Proof.
  destruct m as [a|e']; simpl; intros H; [right; eauto | left; congruence].
Qed.

Lemma arith_not_cash e : arith_error e -> e <> InsufficientCash.
Proof. intros [->|[->| ->]]; discriminate. Qed.

Ltac bind_cases H :=
  repeat match type of H with
  | (_ ≫= _) = Err _ =>
      let a := fresh "a" in let E := fresh "E" in
      apply bind_error in H; destruct H as [H | (a & E & H)]
  end.

Ltac arith_contra :=
  match goal with
  | H : _ = Err InsufficientCash |- _ =>
      first [ apply dec_add_error in H | apply dec_sub_error in H | apply dec_mul_error in H
            | apply dec_div_error in H | apply dec_pow_error in H | apply fix_error in H ];
      apply arith_not_cash in H; congruence
  end.

Lemma integral_case1_no_cash_error rt r : integral_case1 rt r <> Err InsufficientCash.
Proof. unfold integral_case1. intros H. bind_cases H; arith_contra. Qed.
Lemma integral_case2_no_cash_error rt r : integral_case2 rt r <> Err InsufficientCash.
Proof. unfold integral_case2. intros H. bind_cases H; arith_contra. Qed.
Lemma integral_no_cash_error rt r : _solvency_curve_integral rt r <> Err InsufficientCash.
Proof.
  unfold _solvency_curve_integral. intros H.
  destruct (dec_is_zero rt); [discriminate|].
  destruct (dec_is_zero r); [discriminate|].
  destruct (dec_leb r rt); [eapply integral_case1_no_cash_error; eauto|].
  destruct (dec_ltb r UNIT); [eapply integral_case2_no_cash_error; eauto|discriminate].
Qed.

Lemma solvency_score_no_cash_error rt c l ch add :
  _solvency_score rt c l ch add <> Err InsufficientCash.
Proof.
  unfold _solvency_score. intros H.
  destruct (dec_is_zero l); [discriminate|].
  apply bind_error in H. destruct H as [H | (cb & _ & H)]; [arith_contra|].
  apply bind_error in H. destruct H as [H | (ca & _ & H)].
  { destruct add; bind_cases H; arith_contra. }
  destruct (dec_eqb cb ca); [discriminate|].
  apply bind_error in H. destruct H as [H | (cbw & _ & H)]; [arith_contra|].
  apply bind_error in H. destruct H as [H | (caw & _ & H)]; [arith_contra|].
  apply bind_error in H. destruct H as [H | (ib & _ & H)];
    [eapply integral_no_cash_error; eauto|].
  apply bind_error in H. destruct H as [H | (ia & _ & H)];
    [eapply integral_no_cash_error; eauto|].
  destruct (dec_gtb cb ca); bind_cases H; arith_contra.
Qed.

Lemma to_wad_no_cash_error x d : _to_wad x d <> Err InsufficientCash.
Proof.
  unfold _to_wad. intros H.
  apply bind_error in H. destruct H as [H | (xd & _ & H)];
    [apply decimal_of_str_error in H; discriminate|].
  destruct (d <? 18); [arith_contra|]. destruct (18 <? d); [arith_contra|discriminate].
Qed.
Lemma from_wad_no_cash_error x d : _from_wad x d <> Err InsufficientCash.
Proof.
  unfold _from_wad. intros H.
  destruct (d <? 18); [arith_contra|]. destruct (18 <? d); [arith_contra|discriminate].
Qed.
Lemma ideal_no_cash_error cfg fa ta w : ideal_to_amount cfg fa ta w <> Err InsufficientCash.
Proof.
  unfold ideal_to_amount, _quote_ideal_to_amount, _convert_token_amount. intros H.
  destruct (is_stable_pool cfg); [discriminate|].
  destruct (price_wad ta); [|discriminate]. destruct (price_wad fa); [|discriminate].
  destruct (_ || _); [discriminate|]. bind_cases H; arith_contra.
Qed.


(** The body of [validate_swap] under its [try]. *)
Lemma validate_swap_found self f t amt fa ta :
  assets self !! f = Some fa -> assets self !! t = Some ta ->
  aggregate_account fa = aggregate_account ta -> 0 < amt ->
  fst (validate_swap f t amt self) =
    match (w ← _to_wad amt (underlying_token_decimals fa);
           ideal_to_amount (config self) fa ta w) with
    | Ok ideal => Ok (negb (dec_ltb (cash ta) ideal))
    | Err _ => Ok false
    end.
Proof.
  intros Hf Ht Hagg Hpos.
  unfold validate_swap, m_try, mbind, method_bind, m_bind, m_self; simpl.
  rewrite Hf, Ht, Hagg, String.eqb_refl; simpl.
  destruct (Z.leb_spec amt 0); [lia|].
  unfold m_lift, m_ret.
  destruct (_to_wad amt (underlying_token_decimals fa)) as [w|e]; simpl; [|reflexivity].
  destruct (ideal_to_amount (config self) fa ta w) as [i|e]; simpl; [|reflexivity].
  destruct (dec_ltb (cash ta) i); reflexivity.
Qed.

Lemma validate_swap_total f t amt self : exists b, fst (validate_swap f t amt self) = Ok b.
Proof.
  unfold validate_swap, m_try, mbind, method_bind, m_bind, m_self; simpl.
  destruct (assets self !! f) as [fa|]; [|eexists; reflexivity].
  destruct (assets self !! t) as [ta|]; [|eexists; reflexivity].
  destruct (negb _); [eexists; reflexivity|].
  destruct (amt <=? 0); [eexists; reflexivity|].
  unfold m_lift, m_ret.
  destruct (_to_wad amt (underlying_token_decimals fa)) as [w|e]; simpl; [|eexists; reflexivity].
  destruct (ideal_to_amount (config self) fa ta w) as [i|e]; simpl; [|eexists; reflexivity].
  destruct (dec_ltb (cash ta) i); eexists; reflexivity.
Qed.


(** ** Order of decimals *)

(** Comparison of decimals is comparison of the values they denote. *)
Lemma dec_compare_value a b : dec_compare a b = (dval a ?= dval b)%Q.
Proof.
  unfold dec_compare. set (e := Z.min (expo a) (expo b)).
  assert (e <= expo a /\ e <= expo b) as [H1 H2] by (unfold e; lia).
  destruct a as [ca ea], b as [cb eb]; simpl in *.
  rewrite <- (dval_align ca ea e H1), <- (dval_align cb eb e H2).
  unfold dval; simpl.
  set (X := ca * 10 ^ (ea - e)). set (Y := cb * 10 ^ (eb - e)).
  pose proof (Qpow10_pos e) as Hp.
  destruct (Z.compare_spec X Y) as [Heq|Hlt|Hgt].
  - subst Y. symmetry. apply Qeq_alt. rewrite Heq. reflexivity.
  - symmetry. apply Qlt_alt. apply Qmult_lt_compat_r; [assumption|].
    rewrite <- Zlt_Qlt. assumption.
  - symmetry. apply Qgt_alt. apply Qmult_lt_compat_r; [assumption|].
    rewrite <- Zlt_Qlt. assumption.
Qed.

Lemma dec_ltb_value a b : dec_ltb a b = true <-> (dval a < dval b)%Q.
Proof.
  unfold dec_ltb. rewrite dec_compare_value, Qlt_alt.
  destruct (dval a ?= dval b)%Q; split; congruence.
Qed.

Lemma dec_leb_value a b : dec_leb a b = true <-> (dval a <= dval b)%Q.
Proof.
  unfold dec_leb. rewrite dec_compare_value, Qle_alt.
  destruct (dval a ?= dval b)%Q; split; congruence.
Qed.

Lemma dec_eqb_value_iff a b : dec_eqb a b = true <-> (dval a == dval b)%Q.
Proof.
  unfold dec_eqb. rewrite dec_compare_value, Qeq_alt.
  destruct (dval a ?= dval b)%Q; split; congruence.
Qed.

Lemma dec_is_zero_value a : dec_is_zero a = true <-> (dval a == 0)%Q.
Proof.
  unfold dec_is_zero. split.
  - intros H. apply Z.eqb_eq in H. destruct a as [c e]; simpl in H; subst. apply dval_zero.
  - intros H. apply Z.eqb_eq. apply dval_coef_zero. assumption.
Qed.

Lemma dval_UNIT_pos : (0 < dval UNIT)%Q.
Proof. reflexivity. Qed.

(** ** Rounding *)

Lemma round_half_even_cases c k :
  round_half_even c k = c / 10 ^ k \/ round_half_even c k = c / 10 ^ k + 1.
Proof. unfold round_half_even. destruct (_ || _); auto. Qed.

(** Rounding a coefficient of [p + k] digits to [p] digits. *)
Lemma round_half_even_bounds c k p :
  0 < p -> 0 <= k -> 10 ^ (p + k - 1) <= c < 10 ^ (p + k) ->
  10 ^ (p - 1) <= round_half_even c k <= 10 ^ p.
Proof.
  intros Hp Hk [Hlo Hhi].
  pose proof (pow10_gt0 k Hk) as Hk0.
  assert (Hq : 10 ^ (p - 1) <= c / 10 ^ k < 10 ^ p).
  { split.
    - apply Z.div_le_lower_bound; [lia|].
      rewrite <- Z.pow_add_r by lia. replace (k + (p - 1)) with (p + k - 1) by lia. exact Hlo.
    - apply Z.div_lt_upper_bound; [lia|].
      rewrite <- Z.pow_add_r by lia. replace (k + p) with (p + k) by lia. exact Hhi. }
  destruct (round_half_even_cases c k) as [-> | ->]; lia.
Qed.

(** Trailing zeros do not change the rounded coefficient. *)
Lemma round_half_even_scale c j k :
  0 <= j -> 0 <= k -> round_half_even (c * 10 ^ j) (k + j) = round_half_even c k.
Proof.
  intros Hj Hk. unfold round_half_even.
  pose proof (pow10_gt0 j Hj) as Hj0. pose proof (pow10_gt0 k Hk) as Hk0.
  rewrite Z.pow_add_r by lia.
  rewrite Z.div_mul_cancel_r by lia.
  rewrite Z.mul_mod_distr_r by lia.
  set (q := c / 10 ^ k). set (r := c mod 10 ^ k).
  assert (E1 : (10 ^ k * 10 ^ j <? 2 * (r * 10 ^ j)) = (10 ^ k <? 2 * r)).
  { destruct (Z.ltb_spec (10 ^ k) (2 * r)), (Z.ltb_spec (10 ^ k * 10 ^ j) (2 * (r * 10 ^ j)));
      try reflexivity; nia. }
  assert (E2 : (2 * (r * 10 ^ j) =? 10 ^ k * 10 ^ j) = (2 * r =? 10 ^ k)).
  { destruct (Z.eqb_spec (2 * r) (10 ^ k)), (Z.eqb_spec (2 * (r * 10 ^ j)) (10 ^ k * 10 ^ j));
      try reflexivity; nia. }
  rewrite E1, E2. reflexivity.
Qed.

Lemma fix_normal p c e :
  0 < p -> c <> 0 -> Etiny p <= e -> ndigits c + e - p < Etop p ->
  exists r, _fix p (mkDecimal c e) = Ok r
    /\ (dval r == dval (rounded p c e))%Q
    /\ coef r <> 0 /\ ndigits (coef r) <= p /\ e <= expo r
    /\ ndigits c + e <= ndigits (coef r) + expo r <= ndigits c + e + 1
    /\ Z.sgn (coef r) = Z.sgn c.
Proof.
  intros Hp Hc He Htop. unfold _fix, rounded; simpl.
  destruct (Z.eqb_spec c 0) as [|_]; [contradiction|].
  destruct (ndigits_spec c Hc) as (Hn1 & Hlo & Hhi).
  destruct (Z.ltb_spec (Etop p) (ndigits c + e - p)) as [|_]; [lia|].
  destruct (Z.leb_spec (ndigits c) p) as [Hshort|Hlong].
  - destruct (Z.ltb_spec e (Z.max (ndigits c + e - p) (Etiny p))) as [|_]; [lia|].
    eexists; split; [reflexivity|]. simpl. split; [reflexivity|]. repeat split; try lia.
  - rewrite Z.max_l by lia.
    destruct (Z.ltb_spec e (ndigits c + e - p)) as [_|]; [|lia].
    replace (ndigits c + e - p - e) with (ndigits c - p) by lia.
    set (k := ndigits c - p) in *.
    pose proof (round_half_even_bounds (Z.abs c) k p Hp ltac:(lia)) as Hq.
    replace (p + k - 1) with (ndigits c - 1) in Hq by (unfold k; lia).
    replace (p + k) with (ndigits c) in Hq by (unfold k; lia).
    specialize (Hq (conj Hlo Hhi)).
    set (q := round_half_even (Z.abs c) k) in *.
    pose proof (pow10_gt0 (p - 1) ltac:(lia)) as Hp1.
    assert (Ep : 10 ^ p = 10 * 10 ^ (p - 1)).
    { rewrite <- pow10_succ by lia. f_equal. lia. }
    assert (Hsg : forall m, 0 < m -> Z.sgn (Z.sgn c * m) = Z.sgn c /\ Z.sgn c * m <> 0
                                     /\ Z.abs (Z.sgn c * m) = m).
    { intros m Hm. destruct c; try contradiction; simpl; repeat split; try lia;
        destruct m; simpl; try lia; reflexivity. }
    destruct (Z.eq_dec q (10 ^ p)) as [Eq|Hne].
    + (* the carry: q = 10^p *)
      assert (Hnq : ndigits q = p + 1).
      { apply ndigits_unique; [lia|]. replace (p + 1 - 1) with p by lia.
        rewrite Z.abs_eq by lia. rewrite pow10_succ by lia. lia. }
      rewrite Hnq. destruct (Z.ltb_spec p (p + 1)) as [_|]; [|lia].
      destruct (Z.ltb_spec (Etop p) (ndigits c + e - p + 1)) as [|_]; [lia|].
      eexists; split; [reflexivity|]. simpl.
      assert (Eq10 : q / 10 = 10 ^ (p - 1)).
      { rewrite Eq, Ep. rewrite Z.mul_comm. apply Z.div_mul. lia. }
      rewrite Eq10.
      destruct (Hsg (10 ^ (p - 1)) Hp1) as (S1 & S2 & S3).
      assert (Hnd : ndigits (Z.sgn c * 10 ^ (p - 1)) = p).
      { apply ndigits_unique; [lia|]. rewrite S3. rewrite Ep. lia. }
      split; [|repeat split; try assumption; try lia].
      * unfold dval; simpl. rewrite Eq, Ep.
        replace (e + k) with (ndigits c + e - p) by (unfold k; lia).
        replace (ndigits c + e - p + 1) with (1 + (ndigits c + e - p)) by lia.
        rewrite Qpow10_add. rewrite !inject_Z_mult. simpl (10 ^ 1)%Q.
        change (inject_Z 10) with 10%Q. ring.
    + assert (Hnq : ndigits q = p).
      { apply ndigits_unique; [lia|]. rewrite Z.abs_eq by lia. lia. }
      rewrite Hnq. destruct (Z.ltb_spec p p) as [|_]; [lia|].
      destruct (Z.ltb_spec (Etop p) (ndigits c + e - p)) as [|_]; [lia|].
      eexists; split; [reflexivity|]. simpl.
      destruct (Hsg q ltac:(lia)) as (S1 & S2 & S3).
      assert (Hnd : ndigits (Z.sgn c * q) = p).
      { apply ndigits_unique; [lia|]. rewrite S3. lia. }
      split; [|repeat split; try assumption; try lia].
      replace (e + k) with (ndigits c + e - p) by (unfold k; lia). reflexivity.
Qed.

Lemma sgn_abs c : Z.sgn c * Z.abs c = c.
Proof. destruct c; simpl; lia. Qed.

Lemma rounded_scale p c e j :
  0 < p -> c <> 0 -> 0 <= j ->
  (dval (rounded p (c * 10 ^ j) e) == dval (rounded p c (e + j)))%Q.
Proof.
  intros Hp Hc Hj. unfold rounded.
  pose proof (pow10_gt0 j Hj) as Hj0.
  rewrite ndigits_mul_pow10 by assumption.
  destruct (ndigits_spec c Hc) as (Hn1 & Hlo & Hhi).
  assert (Hsg : Z.sgn (c * 10 ^ j) = Z.sgn c).
  { rewrite Z.sgn_mul, (Z.sgn_pos (10 ^ j)) by lia. lia. }
  assert (Habs : Z.abs (c * 10 ^ j) = Z.abs c * 10 ^ j).
  { rewrite Z.abs_mul, (Z.abs_eq (10 ^ j)) by lia. reflexivity. }
  destruct (Z.leb_spec (ndigits c + j) p) as [H1|H1];
    destruct (Z.leb_spec (ndigits c) p) as [H2|H2]; try lia.
  - apply dval_scale. assumption.
  - (* only the zeros are dropped *)
    rewrite Hsg, Habs.
    replace (Z.abs c * 10 ^ j)
      with (Z.abs c * 10 ^ (p - ndigits c) * 10 ^ (ndigits c + j - p)).
    2:{ rewrite <- Z.mul_assoc, <- Z.pow_add_r by lia. do 2 f_equal. lia. }
    rewrite round_half_even_exact by lia.
    rewrite Z.mul_assoc, sgn_abs.
    rewrite dval_scale by lia. unfold dval; simpl.
    replace (e + (ndigits c + j - p) + (p - ndigits c)) with (e + j) by lia. reflexivity.
  - rewrite Hsg, Habs.
    replace (ndigits c + j - p) with ((ndigits c - p) + j) by lia.
    rewrite round_half_even_scale by lia.
    replace (e + (ndigits c - p + j)) with (e + j + (ndigits c - p)) by lia. reflexivity.
Qed.

(** [_fix] depends on the value of its argument only. *)
Lemma rounded_ext p c1 e1 c2 e2 :
  0 < p -> c1 <> 0 ->
  (dval (mkDecimal c1 e1) == dval (mkDecimal c2 e2))%Q ->
  (dval (rounded p c1 e1) == dval (rounded p c2 e2))%Q.
Proof.
  intros Hp Hc1 H.
  assert (Hc2 : c2 <> 0).
  { intros ->. rewrite dval_zero in H. apply dval_coef_zero in H. simpl in H. contradiction. }
  unfold dval in H; simpl in H.
  destruct (Z_le_gt_dec e1 e2) as [Hle|Hgt].
  - apply scaled_eq in H; [|assumption]. subst c1.
    rewrite rounded_scale by (try assumption; lia).
    replace (e1 + (e2 - e1)) with e2 by lia. reflexivity.
  - symmetry in H. apply scaled_eq in H; [|lia]. subst c2.
    rewrite rounded_scale by (try assumption; lia).
    replace (e2 + (e1 - e2)) with e1 by lia. reflexivity.
Qed.

Lemma sticky_round X j :
  0 <= X -> 0 < j -> X mod 10 ^ j <> 0 ->
  round_half_even (if X / 10 ^ j mod 5 =? 0 then X / 10 ^ j + 1 else X / 10 ^ j) 2
  = round_half_even X (j + 2).
Proof.
  intros HX Hj Hr.
  pose proof (pow10_gt0 j ltac:(lia)) as HP.
  set (P := 10 ^ j) in *.
  pose proof (Z.div_mod X P ltac:(lia)) as HXeq.
  pose proof (Z.mod_pos_bound X P HP) as Hrb.
  set (q := X / P) in *. set (r := X mod P) in *.
  assert (Hq0 : 0 <= q) by (unfold q; apply Z.div_pos; lia).
  pose proof (Z.div_mod q 100 ltac:(lia)) as Hqeq.
  pose proof (Z.mod_pos_bound q 100 ltac:(lia)) as Htb.
  set (Q := q / 100) in *. set (t := q mod 100) in *.
  assert (E5 : q mod 5 = t mod 5).
  { rewrite Hqeq. replace (100 * Q + t) with (t + (20 * Q) * 5) by lia.
    apply Z.mod_add. lia. }
  pose proof (Z.div_mod t 5 ltac:(lia)) as Ht5.
  pose proof (Z.mod_pos_bound t 5 ltac:(lia)) as Ht5b.
  set (delta := if q mod 5 =? 0 then 1 else 0).
  assert (Hco : (if q mod 5 =? 0 then q + 1 else q) = q + delta).
  { unfold delta. destruct (q mod 5 =? 0); lia. }
  rewrite Hco.
  assert (Hd : (delta = 1 /\ t mod 5 = 0) \/ (delta = 0 /\ t mod 5 <> 0)).
  { unfold delta. rewrite E5. destruct (Z.eqb_spec (t mod 5) 0); lia. }
  assert (Htd : 0 <= t + delta < 100) by lia.
  unfold round_half_even.
  change (10 ^ 2) with 100.
  assert (EP2 : 10 ^ (j + 2) = P * 100).
  { rewrite Z.pow_add_r by lia. reflexivity. }
  rewrite EP2.
  assert (HtP : 0 <= t * P + r < P * 100) by nia.
  assert (D1 : (q + delta) / 100 = Q).
  { symmetry. apply (Z.div_unique _ _ _ (t + delta)); lia. }
  assert (M1 : (q + delta) mod 100 = t + delta).
  { symmetry. apply (Z.mod_unique _ _ Q); lia. }
  assert (D2 : X / (P * 100) = Q).
  { symmetry. apply (Z.div_unique _ _ _ (t * P + r)); [lia|]. nia. }
  assert (M2 : X mod (P * 100) = t * P + r).
  { symmetry. apply (Z.mod_unique _ _ Q); [lia|]. nia. }
  rewrite D1, M1, D2, M2.
  destruct (Z_le_gt_dec 50 t) as [Hbig|Hsmall].
  - assert (B1 : (100 <? 2 * (t + delta)) = true) by (apply Z.ltb_lt; lia).
    assert (B2 : (P * 100 <? 2 * (t * P + r)) = true) by (apply Z.ltb_lt; nia).
    rewrite B1, B2. reflexivity.
  - assert (B1 : (100 <? 2 * (t + delta)) = false) by (apply Z.ltb_ge; lia).
    assert (B2 : (P * 100 <? 2 * (t * P + r)) = false) by (apply Z.ltb_ge; nia).
    assert (B3 : (2 * (t + delta) =? 100) = false) by (apply Z.eqb_neq; lia).
    assert (B4 : (2 * (t * P + r) =? P * 100) = false) by (apply Z.eqb_neq; nia).
    rewrite B1, B2, B3, B4. reflexivity.
Qed.

(** An exact quotient, stripped of trailing zeros and rounded. *)
Lemma fix_stripped p ca ea Y E fuel :
  0 < p -> ca <> 0 -> 0 < Y ->
  (dval (mkDecimal (Z.sgn ca * Y) E) == dval (mkDecimal ca ea))%Q ->
  Etiny p <= E -> ndigits ca + ea - p < Etop p ->
  exists r,
    (let '(coeff, exp) := strip_zeros fuel Y E in
     _fix p (mkDecimal (Z.sgn ca * coeff) exp)) = Ok r
    /\ (dval r == dval (rounded p ca ea))%Q.
Proof.
  intros Hp Hca HY Hv HE Htop.
  destruct (strip_zeros_spec fuel Y E) as (m & Hm & E1 & E2).
  destruct (strip_zeros fuel Y E) as [coeff' exp']; simpl in E1, E2.
  pose proof (pow10_gt0 m Hm) as Hm0.
  assert (Hc' : 0 < coeff') by nia.
  assert (Hnz : Z.sgn ca * coeff' <> 0) by (destruct ca; try contradiction; simpl; lia).
  assert (Hv' : (dval (mkDecimal (Z.sgn ca * coeff') exp') == dval (mkDecimal ca ea))%Q).
  { rewrite <- Hv. subst exp'. rewrite <- dval_scale by assumption.
    rewrite <- Z.mul_assoc, <- E1. reflexivity. }
  pose proof (adjusted_unique _ _ ca ea Hnz Hv') as Hadj.
  destruct (fix_normal p (Z.sgn ca * coeff') exp' Hp Hnz ltac:(lia) ltac:(lia))
    as (r & Hr & Vr & _).
  exists r. split; [exact Hr|]. rewrite Vr.
  apply rounded_ext; assumption.
Qed.

Lemma div_pow10 p a k :
  0 < p -> coef a <> 0 -> 0 <= k ->
  Etiny p <= expo a - k - p - 1 -> ndigits (coef a) + expo a - k - p < Etop p ->
  exists r, div_prec p a (of_int (10 ^ k)) = Ok r
    /\ (dval r == dval (rounded p (coef a) (expo a - k)))%Q.
Proof.
  intros Hp Hca Hk Hlo Hhi. destruct a as [ca ea]; cbn [coef expo] in *.
  pose proof (pow10_gt0 k Hk) as Hk0.
  unfold div_prec, of_int; cbn [coef expo].
  destruct (Z.eqb_spec (10 ^ k) 0) as [|_]; [lia|].
  destruct (Z.eqb_spec ca 0) as [|_]; [contradiction|].
  rewrite ndigits_pow10 by lia.
  rewrite (Z.sgn_pos (10 ^ k)), Z.mul_1_r, (Z.abs_eq (10 ^ k)) by lia.
  destruct (ndigits_spec ca Hca) as (Hn1 & Hnlo & Hnhi).
  set (na := ndigits ca) in *. set (X := Z.abs ca) in *.
  assert (HX : 0 < X) by (unfold X; lia).
  set (shift := k + 1 - na + p + 1).
  replace (ea - 0 - shift) with (ea - shift) by lia.
  replace (ea - 0 - (ea - shift)) with shift by lia.
  destruct (Z_le_gt_dec (na - p - 2) 0) as [Hj|Hj].
  - (* the dividend has at most p + 2 digits: the quotient is exact *)
    destruct (Z.leb_spec 0 shift) as [_|]; [|unfold shift in *; lia].
    assert (En : X * 10 ^ shift = X * 10 ^ (shift - k) * 10 ^ k).
    { rewrite <- Z.mul_assoc, <- Z.pow_add_r by (unfold shift; lia).
      do 2 f_equal. lia. }
    rewrite En, Z.mod_mul, Z.div_mul by lia. simpl (0 =? 0).
    assert (0 < X * 10 ^ (shift - k)).
    { pose proof (pow10_gt0 (shift - k) ltac:(unfold shift; lia)). nia. }
    apply fix_stripped; try assumption; try (unfold shift; lia).
    rewrite Z.mul_assoc. unfold X. rewrite sgn_abs.
    rewrite dval_scale by (unfold shift; lia).
    replace (ea - shift + (shift - k)) with (ea - k) by lia. reflexivity.
  - (* a longer dividend: the last digit of the quotient is sticky *)
    set (j := na - p - 2) in *.
    pose proof (pow10_gt0 j ltac:(lia)) as Hj0.
    set (num := if 0 <=? shift then X * 10 ^ shift else X).
    set (den := if 0 <=? shift then 10 ^ k else 10 ^ k * 10 ^ (- shift)).
    assert (Hnd : num / den = X / 10 ^ j /\ (num mod den =? 0) = (X mod 10 ^ j =? 0)).
    { unfold num, den. destruct (Z.leb_spec 0 shift) as [Hs|Hs].
      - pose proof (pow10_gt0 shift Hs) as Hs0.
        replace k with (j + shift) by (unfold j, shift; lia).
        rewrite Z.pow_add_r by lia.
        rewrite Z.div_mul_cancel_r, Z.mul_mod_distr_r by lia.
        split; [reflexivity|].
        destruct (Z.eqb_spec (X mod 10 ^ j) 0) as [->|Hne]; [reflexivity|].
        apply Z.eqb_neq. nia.
      - rewrite <- Z.pow_add_r by lia.
        replace (k + - shift) with j by (unfold j, shift; lia). split; reflexivity. }
    destruct Hnd as (Eq & Er). fold num den. rewrite Eq, Er.
    pose proof (Z.div_mod X (10 ^ j) ltac:(lia)) as HXeq.
    pose proof (Z.mod_pos_bound X (10 ^ j) Hj0) as Hrb.
    set (q := X / 10 ^ j) in *. set (r := X mod 10 ^ j) in *.
    assert (Hqb : 10 ^ (p + 1) <= q < 10 ^ (p + 2)).
    { unfold q. split.
      - apply Z.div_le_lower_bound; [lia|].
        rewrite <- Z.pow_add_r by lia. replace (j + (p + 1)) with (na - 1) by (unfold j; lia).
        exact Hnlo.
      - apply Z.div_lt_upper_bound; [lia|].
        rewrite <- Z.pow_add_r by lia. replace (j + (p + 2)) with na by (unfold j; lia).
        exact Hnhi. }
    pose proof (pow10_gt0 (p + 1) ltac:(lia)) as Hp1.
    assert (Es : ea - shift = ea - k + j) by (unfold shift, j; lia).
    destruct (Z.eqb_spec r 0) as [Hr0|Hr0].
    + apply fix_stripped; try assumption; try lia.
      rewrite Es. rewrite <- (dval_scale (Z.sgn ca * q) (ea - k) j) by lia.
      replace (Z.sgn ca * q * 10 ^ j) with ca; [reflexivity|].
      rewrite <- (sgn_abs ca) at 1. fold X. rewrite HXeq, Hr0. lia.
    + set (coeff := if q mod 5 =? 0 then q + 1 else q).
      assert (Hcb : 10 ^ (p + 1) <= coeff < 10 ^ (p + 2)).
      { unfold coeff. destruct (Z.eqb_spec (q mod 5) 0) as [H5|H5]; [|lia].
        split; [lia|].
        assert (E10 : 10 ^ (p + 2) = 5 * (2 * 10 ^ (p + 1))).
        { replace (p + 2) with ((p + 1) + 1) by lia. rewrite pow10_succ by lia. lia. }
        pose proof (Z.div_mod q 5 ltac:(lia)) as Hq5. rewrite H5 in Hq5. lia. }
      assert (Hnz : Z.sgn ca * coeff <> 0) by (destruct ca; try contradiction; simpl; lia).
      assert (Habs : Z.abs (Z.sgn ca * coeff) = coeff)
        by (destruct ca; try contradiction; simpl; lia).
      assert (Hsg : Z.sgn (Z.sgn ca * coeff) = Z.sgn ca)
        by (destruct ca; try contradiction; simpl; lia).
      assert (Hnc : ndigits (Z.sgn ca * coeff) = p + 2).
      { apply ndigits_unique; [lia|]. rewrite Habs.
        replace (p + 2 - 1) with (p + 1) by lia. exact Hcb. }
      destruct (fix_normal p (Z.sgn ca * coeff) (ea - shift) Hp Hnz ltac:(lia)
                  ltac:(rewrite Hnc; unfold na in *; lia))
        as (res & Hres & Vres & _).
      exists res. split; [exact Hres|]. rewrite Vres.
      unfold rounded. rewrite Hnc. fold na.
      destruct (Z.leb_spec (p + 2) p) as [|_]; [lia|].
      destruct (Z.leb_spec na p) as [|_]; [unfold j in *; lia|].
      rewrite Hsg, Habs. fold X.
      replace (p + 2 - p) with 2 by lia.
      replace (na - p) with (j + 2) by (unfold j; lia).
      unfold coeff, q. rewrite sticky_round by (try lia; exact Hr0).
      replace (ea - shift + 2) with (ea - k + (j + 2)) by lia. reflexivity.
Qed.

Lemma mul_pow10 p a k :
  0 < p -> coef a <> 0 -> 0 <= k ->
  Etiny p <= expo a -> ndigits (coef a) + k + expo a - p < Etop p ->
  exists r, mul_prec p a (of_int (10 ^ k)) = Ok r
    /\ (dval r == dval (rounded p (coef a) (expo a + k)))%Q.
Proof.
  intros Hp Hca Hk Hlo Hhi. destruct a as [ca ea]; cbn [coef expo] in *.
  pose proof (pow10_gt0 k Hk) as Hk0.
  unfold mul_prec, of_int; cbn [coef expo]. rewrite Z.add_0_r.
  assert (Hnz : ca * 10 ^ k <> 0) by nia.
  destruct (fix_normal p (ca * 10 ^ k) ea Hp Hnz Hlo
              ltac:(rewrite ndigits_mul_pow10 by assumption; lia))
    as (r & Hr & Vr & _).
  exists r. split; [exact Hr|]. rewrite Vr. apply rounded_scale; assumption.
Qed.

Lemma rounded_short p c e : ndigits c <= p -> rounded p c e = mkDecimal c e.
Proof.
  intros H. unfold rounded. destruct (Z.leb_spec (ndigits c) p); [reflexivity|lia].
Qed.

Lemma rounded_shift p c e :
  (dval (rounded p c e) == dval (rounded p c 0) * 10 ^ e)%Q.
Proof.
  unfold rounded. destruct (ndigits c <=? p); unfold dval; cbn [coef expo].
  - change (10 ^ 0)%Q with 1%Q. ring.
  - rewrite !Qpow10_add. change (10 ^ 0)%Q with 1%Q. ring.
Qed.

(** The rounded coefficient has at most [p] digits. *)
Lemma rounded_fits p c e :
  0 < p -> c <> 0 ->
  exists m j, (dval (rounded p c e) == inject_Z m * 10 ^ j)%Q
              /\ Z.abs m < 10 ^ p /\ e <= j <= e + ndigits c.
Proof.
  intros Hp Hc. unfold rounded.
  destruct (ndigits_spec c Hc) as (Hn1 & Hlo & Hhi).
  destruct (Z.leb_spec (ndigits c) p) as [Hs|Hl].
  - exists c, e. split; [reflexivity|]. split; [|lia].
    eapply Z.lt_le_trans; [exact Hhi|]. apply pow10_le; lia.
  - set (k := ndigits c - p) in *.
    pose proof (round_half_even_bounds (Z.abs c) k p Hp ltac:(lia)) as Hq.
    replace (p + k - 1) with (ndigits c - 1) in Hq by (unfold k; lia).
    replace (p + k) with (ndigits c) in Hq by (unfold k; lia).
    specialize (Hq (conj Hlo Hhi)).
    set (q := round_half_even (Z.abs c) k) in *.
    pose proof (pow10_gt0 (p - 1) ltac:(lia)) as Hp1.
    assert (Ep : 10 ^ p = 10 * 10 ^ (p - 1)).
    { rewrite <- pow10_succ by lia. f_equal. lia. }
    destruct (Z.eq_dec q (10 ^ p)) as [Eq|Hne].
    + exists (Z.sgn c * 10 ^ (p - 1)), (e + k + 1). split; [|split; [|lia]].
      * unfold dval; simpl. rewrite Eq, Ep. rewrite (Qpow10_add (e + k) 1).
        rewrite !inject_Z_mult. simpl (10 ^ 1)%Q. change (inject_Z 10) with 10%Q. ring.
      * rewrite Z.abs_mul. destruct c; try contradiction; simpl; lia.
    + exists (Z.sgn c * q), (e + k). split; [reflexivity|]. split; [|lia].
      rewrite Z.abs_mul. destruct c; try contradiction; simpl; lia.
Qed.

(** ** Decimals of ordinary size *)

Lemma ordinary_mono R R' d : ordinary R d -> R <= R' -> ordinary R' d.
Proof. unfold ordinary. lia. Qed.

Lemma ndigits_sgn_mul s c : Z.abs s = 1 -> ndigits (s * c) = ndigits c.
Proof.
  intros Hs. rewrite <- (ndigits_abs (s * c)), Z.abs_mul, Hs, Z.mul_1_l. apply ndigits_abs.
Qed.

Lemma ndigits_lt_pow c k : 0 <= c < 10 ^ k -> 1 <= k -> ndigits c <= k.
Proof. intros H Hk. apply ndigits_le; [assumption|]. rewrite Z.abs_eq; lia. Qed.

Section Ordinary.

Variable p : Z.
Hypothesis p_pos : 0 < p.

(** Away from the ends of the exponent range [_fix] cannot fail, and its
    result is of the size of its argument. *)
Lemma fix_ordinary c e R :
  - R <= e -> ndigits c + e <= R -> R + p <= 900000 ->
  exists r, _fix p (mkDecimal c e) = Ok r /\ ordinary (R + 1) r /\ (coef r = 0 <-> c = 0).
Proof.
  intros Hlo Hhi HR. destruct (Z.eq_dec c 0) as [->|Hc].
  - exists (mkDecimal 0 e). change (ndigits 0) with 1 in Hhi. split.
    + unfold _fix; cbn [coef expo]. change (0 =? 0) with true. cbv iota.
      unfold Etiny, Emin, Emax. rewrite Z.max_l by lia. rewrite Z.min_l by lia. reflexivity.
    + split; [unfold ordinary; cbn [coef expo]; change (ndigits 0) with 1; lia
             | cbn [coef]; tauto].
  - destruct (fix_normal p c e p_pos Hc) as (r & Hr & _ & Hnz & Hn & He & Hadj & _).
    + unfold Etiny, Emin. lia.
    + unfold Etop, Emax. lia.
    + exists r. split; [exact Hr|]. split; [unfold ordinary; lia | tauto].
Qed.

Lemma mul_ordinary a b Ra Rb :
  ordinary Ra a -> ordinary Rb b -> Ra + Rb + p <= 900000 ->
  exists r, mul_prec p a b = Ok r /\ ordinary (Ra + Rb + 1) r
            /\ (coef r = 0 <-> coef a = 0 \/ coef b = 0).
Proof.
  intros [Ha1 Ha2] [Hb1 Hb2] HR. unfold mul_prec.
  pose proof (ndigits_mul_le (coef a) (coef b)) as Hn.
  destruct (fix_ordinary (coef a * coef b) (expo a + expo b) (Ra + Rb))
    as (r & Hr & Ho & Hz); try lia.
  exists r. split; [exact Hr|]. split; [exact Ho|]. rewrite Hz. lia.
Qed.

Lemma add_ordinary a b R :
  ordinary R a -> ordinary R b -> R + 1 + p <= 900000 ->
  exists r, add_prec p a b = Ok r /\ ordinary (R + 2) r
            /\ (coef r = 0 <->
                coef a * 10 ^ (expo a - Z.min (expo a) (expo b))
                + coef b * 10 ^ (expo b - Z.min (expo a) (expo b)) = 0).
Proof.
  intros [Ha1 Ha2] [Hb1 Hb2] HR. unfold add_prec.
  set (e := Z.min (expo a) (expo b)).
  assert (He : e <= expo a /\ e <= expo b /\ - R <= e) by (unfold e; lia).
  set (s := coef a * 10 ^ (expo a - e) + coef b * 10 ^ (expo b - e)).
  assert (Hterm : forall c x, e <= x -> ndigits c + x <= R ->
                    Z.abs (c * 10 ^ (x - e)) < 10 ^ (R - e)).
  { intros c x Hx Hc. pose proof (pow10_gt0 (x - e) ltac:(lia)) as Hp0.
    destruct (Z.eq_dec c 0) as [->|Hnz].
    - simpl. apply pow10_gt0. pose proof (ndigits_pos 0). lia.
    - destruct (ndigits_spec c Hnz) as (Hn1 & _ & Hn).
      rewrite Z.abs_mul, (Z.abs_eq (10 ^ (x - e))) by lia.
      assert (10 ^ (ndigits c) * 10 ^ (x - e) <= 10 ^ (R - e)).
      { rewrite <- Z.pow_add_r by lia. apply pow10_le; lia. }
      nia. }
  pose proof (Hterm (coef a) (expo a) ltac:(lia) Ha2) as HA.
  pose proof (Hterm (coef b) (expo b) ltac:(lia) Hb2) as HB.
  pose proof (ndigits_pos (coef a)).
  assert (Hs : ndigits s + e <= R + 1).
  { assert (ndigits s <= R - e + 1); [|lia].
    apply ndigits_le; [lia|]. rewrite pow10_succ by lia. unfold s. lia. }
  destruct (fix_ordinary s e (R + 1)) as (r & Hr & Ho & Hz); try lia.
  exists r. split; [exact Hr|]. split; [eapply ordinary_mono; [exact Ho|lia]|exact Hz].
Qed.

Lemma strip_zeros_pos fuel : forall coeff exp,
  0 < coeff ->
  0 < fst (strip_zeros fuel coeff exp)
  /\ exp <= snd (strip_zeros fuel coeff exp)
  /\ ndigits (fst (strip_zeros fuel coeff exp)) + snd (strip_zeros fuel coeff exp)
     = ndigits coeff + exp.
Proof.
  intros coeff exp Hc.
  destruct (strip_zeros_spec fuel coeff exp) as (m & Hm & E1 & E2).
  destruct (strip_zeros fuel coeff exp) as [c' e']; simpl in *.
  pose proof (pow10_gt0 m Hm).
  assert (0 < c') by nia.
  split; [assumption|]. split; [lia|].
  rewrite E1, ndigits_mul_pow10 by lia. lia.
Qed.

Lemma div_ordinary a b Ra Rb :
  ordinary Ra a -> ordinary Rb b -> coef b <> 0 -> Ra + Rb + 2 * p <= 900000 ->
  exists r, div_prec p a b = Ok r /\ ordinary (Ra + Rb + p + 1) r
            /\ (coef r = 0 <-> coef a = 0).
Proof.
  intros [Ha1 Ha2] [Hb1 Hb2] Hb HR. unfold div_prec.
  destruct (Z.eqb_spec (coef b) 0) as [|_]; [contradiction|].
  pose proof (ndigits_pos (coef a)) as Hna1. pose proof (ndigits_pos (coef b)) as Hnb1.
  destruct (Z.eqb_spec (coef a) 0) as [Hz|Ha].
  { destruct (fix_ordinary 0 (expo a - expo b) (Ra + Rb)) as (r & Hr & Ho & Hrz);
      try (change (ndigits 0) with 1; lia).
    exists r. split; [exact Hr|]. split; [eapply ordinary_mono; [exact Ho|lia]|].
    rewrite Hrz. tauto. }
  destruct (ndigits_spec _ Ha) as (_ & Halo & Hahi).
  destruct (ndigits_spec _ Hb) as (_ & Hblo & Hbhi).
  set (na := ndigits (coef a)) in *. set (nb := ndigits (coef b)) in *.
  set (X := Z.abs (coef a)) in *. set (Y := Z.abs (coef b)) in *.
  set (sign := Z.sgn (coef a) * Z.sgn (coef b)).
  assert (Hsign : Z.abs sign = 1).
  { unfold sign. destruct (coef a), (coef b); try contradiction; reflexivity. }
  set (shift := nb - na + p + 1).
  set (exp := expo a - expo b - shift).
  set (num := if 0 <=? shift then X * 10 ^ shift else X).
  set (den := if 0 <=? shift then Y else Y * 10 ^ (- shift)).
  assert (Hnd : 0 < den /\ 10 ^ p * den <= num /\ num < 10 ^ (p + 2) * den).
  { unfold num, den. destruct (Z.leb_spec 0 shift) as [Hs|Hs].
    - pose proof (pow10_gt0 shift Hs).
      assert (E1 : 10 ^ p * 10 ^ nb = 10 ^ (na - 1) * 10 ^ shift).
      { rewrite <- !Z.pow_add_r by lia. f_equal. unfold shift. lia. }
      assert (E2 : 10 ^ (p + 2) * 10 ^ (nb - 1) = 10 ^ na * 10 ^ shift).
      { rewrite <- !Z.pow_add_r by lia. f_equal. unfold shift. lia. }
      pose proof (pow10_gt0 p ltac:(lia)). pose proof (pow10_gt0 (p + 2) ltac:(lia)).
      split; [lia|]. split; nia.
    - pose proof (pow10_gt0 (- shift) ltac:(lia)).
      assert (E1 : 10 ^ p * (10 ^ nb * 10 ^ (- shift)) = 10 ^ (na - 1)).
      { rewrite <- !Z.pow_add_r by lia. f_equal. unfold shift. lia. }
      assert (E2 : 10 ^ (p + 2) * (10 ^ (nb - 1) * 10 ^ (- shift)) = 10 ^ na).
      { rewrite <- !Z.pow_add_r by lia. f_equal. unfold shift. lia. }
      pose proof (pow10_gt0 p ltac:(lia)). pose proof (pow10_gt0 (p + 2) ltac:(lia)).
      split; [nia|]. split; nia. }
  destruct Hnd as (Hden & Hlo & Hhi).
  assert (Hq : 10 ^ p <= num / den < 10 ^ (p + 2)).
  { split.
    - apply Z.div_le_lower_bound; lia.
    - apply Z.div_lt_upper_bound; lia. }
  pose proof (pow10_gt0 p ltac:(lia)) as Hp0.
  assert (Hfin : forall coeff e', 0 < coeff -> ndigits coeff + e' <= p + 3 + exp ->
                   exp <= e' ->
                   exists r, _fix p (mkDecimal (sign * coeff) e') = Ok r
                             /\ ordinary (Ra + Rb + p + 1) r /\ (coef r = 0 <-> coef a = 0)).
  { intros coeff e' Hc Hn He.
    destruct (fix_ordinary (sign * coeff) e' (Ra + Rb + p)) as (r & Hr & Ho & Hrz).
    - unfold exp, shift in *. lia.
    - rewrite ndigits_sgn_mul by assumption. unfold exp, shift in *. lia.
    - lia.
    - exists r. split; [exact Hr|]. split; [exact Ho|]. rewrite Hrz.
      split; [|contradiction]. intros E. exfalso.
      assert (Z.abs (sign * coeff) = coeff) by (rewrite Z.abs_mul, Hsign; lia). lia. }
  assert (Hnq : ndigits (num / den) <= p + 2) by (apply ndigits_lt_pow; lia).
  destruct (num mod den =? 0).
  - destruct (strip_zeros_pos (Z.to_nat (expo a - expo b - exp)) (num / den) exp ltac:(lia))
      as (H1 & H2 & H3).
    destruct (strip_zeros _ _ _) as [coeff' exp']; simpl in H1, H2, H3.
    apply Hfin; lia.
  - apply Hfin; [destruct (_ =? 0); lia | | lia].
    assert (ndigits (if num / den mod 5 =? 0 then num / den + 1 else num / den) <= p + 3);
      [|lia].
    apply ndigits_le; [lia|].
    replace (p + 3) with ((p + 2) + 1) by lia. rewrite pow10_succ by lia.
    destruct (_ =? 0); rewrite Z.abs_eq; lia.
Qed.

End Ordinary.

Lemma ordinary_neg R a : ordinary R a -> ordinary R (dec_neg a).
Proof.
  unfold ordinary, dec_neg; cbn [coef expo].
  rewrite <- (ndigits_abs (- coef a)), Z.abs_opp, ndigits_abs. tauto.
Qed.

Lemma sub_ordinary a b R :
  ordinary R a -> ordinary R b -> R + 1 + prec <= 900000 ->
  exists r, dec_sub a b = Ok r /\ ordinary (R + 2) r
            /\ (coef r = 0 <-> dec_eqb a b = true).
Proof.
  intros Ha Hb HR.
  destruct (add_ordinary prec prec_pos a (dec_neg b) R Ha (ordinary_neg R b Hb) HR)
    as (r & Hr & Ho & Hz).
  exists r. split; [exact Hr|]. split; [exact Ho|]. rewrite Hz.
  unfold dec_eqb, dec_compare, dec_neg; cbn [coef expo].
  set (x := coef a * 10 ^ (expo a - Z.min (expo a) (expo b))).
  set (y := coef b * 10 ^ (expo b - Z.min (expo a) (expo b))).
  replace (- coef b * 10 ^ (expo b - Z.min (expo a) (expo b))) with (- y) by (unfold y; lia).
  destruct (Z.compare_spec x y); split; intros; try lia; try discriminate.
Qed.

Lemma ordinary_UNIT : ordinary 19 UNIT.
Proof. unfold ordinary; simpl. change (ndigits 1000000000000000000) with 19. lia. Qed.

Lemma ordinary_FIVE_WAD : ordinary 19 FIVE_WAD.
Proof. unfold ordinary; simpl. change (ndigits 5000000000000000000) with 19. lia. Qed.

Lemma ordinary_zero R : 1 <= R -> ordinary R (mkDecimal 0 0).
Proof. intros. unfold ordinary; simpl. change (ndigits 0) with 1. lia. Qed.

Lemma pow5_ordinary a R :
  ordinary R a -> 5 * R + 40 <= 900000 ->
  exists r, dec_pow a 5 = Ok r /\ ordinary (5 * R + 5) r.
Proof.
  intros Ha HR. unfold dec_pow.
  change (prec + ndigits 5 + 2) with 31. cbn [pow_loop mbind result_bind].
  assert (H31 : 0 < 31) by lia.
  assert (HR0 : 1 <= R) by (destruct Ha; pose proof (ndigits_pos (coef a)); lia).
  destruct (mul_ordinary 31 H31 a a R R Ha Ha ltac:(lia)) as (r2 & E2 & O2 & _).
  rewrite E2; cbn [mbind result_bind].
  destruct (mul_ordinary 31 H31 r2 r2 _ _ O2 O2 ltac:(lia)) as (r4 & E4 & O4 & _).
  rewrite E4; cbn [mbind result_bind].
  destruct (mul_ordinary 31 H31 r4 a _ _ O4 Ha ltac:(lia)) as (r5 & E5 & O5 & _).
  rewrite E5; cbn [mbind result_bind].
  destruct r5 as [c5 e5]. destruct O5 as [O51 O52]; cbn [coef expo] in *.
  destruct (fix_ordinary prec prec_pos c5 e5 (5 * R + 4)) as (r & Hr & Ho & _);
    try (unfold prec; lia).
  exists r. split; [exact Hr|]. eapply ordinary_mono; [exact Ho|lia].
Qed.

Lemma pow4_ordinary a R :
  ordinary R a -> 4 * R + 40 <= 900000 ->
  exists r, dec_pow a 4 = Ok r /\ ordinary (4 * R + 4) r /\ (coef r = 0 <-> coef a = 0).
Proof.
  intros Ha HR. unfold dec_pow.
  change (prec + ndigits 4 + 2) with 31. cbn [pow_loop mbind result_bind].
  assert (H31 : 0 < 31) by lia.
  assert (HR0 : 1 <= R) by (destruct Ha; pose proof (ndigits_pos (coef a)); lia).
  destruct (mul_ordinary 31 H31 a a R R Ha Ha ltac:(lia)) as (r2 & E2 & O2 & Z2).
  rewrite E2; cbn [mbind result_bind].
  destruct (mul_ordinary 31 H31 r2 r2 _ _ O2 O2 ltac:(lia)) as (r4 & E4 & O4 & Z4).
  rewrite E4; cbn [mbind result_bind].
  destruct r4 as [c4 e4]. destruct O4 as [O41 O42]; cbn [coef expo] in *.
  destruct (fix_ordinary prec prec_pos c4 e4 (4 * R + 3)) as (r & Hr & Ho & Hz);
    try (unfold prec; lia).
  exists r. split; [exact Hr|]. split; [eapply ordinary_mono; [exact Ho|lia]|].
  rewrite Hz, Z4, Z2. tauto.
Qed.

(** The integral of a non-zero ratio at a non-zero threshold, both of
    ordinary size, cannot fail. *)
Lemma integral_ordinary rt r R :
  dec_is_zero rt = false -> dec_is_zero r = false ->
  ordinary R rt -> ordinary R r -> 19 <= R -> 9 * R + 200 <= 900000 ->
  exists v, _solvency_curve_integral rt r = Ok v /\ ordinary (9 * R + 76) v.
Proof.
  intros Hrt Hr Ort Or HR19 HR. unfold _solvency_curve_integral. rewrite Hrt, Hr.
  assert (OU : ordinary R UNIT) by (eapply ordinary_mono; [apply ordinary_UNIT|lia]).
  destruct (dec_leb r rt) eqn:Hle.
  - unfold integral_case1.
    destruct (sub_ordinary UNIT rt R OU Ort ltac:(unfold prec; lia)) as (a & Ea & Oa & _).
    rewrite Ea; cbn [mbind result_bind].
    destruct (div_ordinary prec prec_pos a FIVE_WAD _ _ Oa ordinary_FIVE_WAD
                ltac:(discriminate) ltac:(unfold prec; lia)) as (b & Eb & Ob & _).
    unfold dec_div. rewrite Eb; cbn [mbind result_bind].
    destruct (add_ordinary prec prec_pos b rt (R + 50)) as (c & Ec & Oc & _);
      [eapply ordinary_mono; [exact Ob|unfold prec; lia]
      |eapply ordinary_mono; [exact Ort|lia] | unfold prec; lia |].
    unfold dec_add. rewrite Ec; cbn [mbind result_bind].
    destruct (sub_ordinary c r (R + 52)) as (v & Ev & Ov & _);
      [eapply ordinary_mono; [exact Oc|lia] | eapply ordinary_mono; [exact Or|lia]
      | unfold prec; lia |].
    exists v. split; [exact Ev|]. eapply ordinary_mono; [exact Ov|lia].
  - destruct (dec_ltb r UNIT) eqn:Hlt.
    + unfold integral_case2.
      destruct (sub_ordinary UNIT r R OU Or ltac:(unfold prec; lia)) as (a & Ea & Oa & _).
      rewrite Ea; cbn [mbind result_bind].
      destruct (pow5_ordinary a _ Oa ltac:(lia)) as (num & En & On).
      rewrite En; cbn [mbind result_bind].
      destruct (sub_ordinary UNIT rt R OU Ort ltac:(unfold prec; lia)) as (b & Eb & Ob & Zb).
      rewrite Eb; cbn [mbind result_bind].
      assert (Hb : coef b <> 0).
      { intros E. apply Zb in E. apply dec_eqb_value_iff in E.
        apply dec_ltb_value in Hlt.
        assert (Hgt : ~ (dval r <= dval rt)%Q).
        { intros Hc. apply dec_leb_value in Hc. congruence. }
        apply Hgt. rewrite <- E. apply Qlt_le_weak. exact Hlt. }
      destruct (pow4_ordinary b _ Ob ltac:(lia)) as (p4 & Ep & Op & Zp).
      rewrite Ep; cbn [mbind result_bind].
      destruct (mul_ordinary prec prec_pos FIVE_WAD p4 _ _ ordinary_FIVE_WAD Op
                  ltac:(unfold prec; lia)) as (den & Ed & Od & Zd).
      unfold dec_mul. rewrite Ed; cbn [mbind result_bind].
      assert (Hden : coef den <> 0).
      { intros E. apply Zd in E. destruct E as [E|E]; [discriminate E|].
        apply Zp in E. contradiction. }
      destruct (div_ordinary prec prec_pos num den _ _ On Od Hden ltac:(unfold prec; lia))
        as (v & Ev & Ov & _).
      exists v. split; [exact Ev|]. eapply ordinary_mono; [exact Ov|unfold prec; lia].
    + exists ZERO. split; [reflexivity|]. apply ordinary_zero. lia.
Qed.

Lemma dec_eqb_zeros a b : coef a = 0 -> coef b = 0 -> dec_eqb a b = true.
Proof.
  intros Ha Hb. apply dec_eqb_value.
  destruct a as [ca ea], b as [cb eb]; simpl in *; subst. rewrite !dval_zero. reflexivity.
Qed.

(** A cash change of zero never makes the score fail, whatever the length
    of the amounts. *)
Lemma solvency_score_zero_change_ok rt c l add_cash R :
  dec_is_zero rt = false -> dec_is_zero l = false ->
  ordinary R rt -> ordinary R c -> ordinary R l -> 19 <= R -> 20 * R + 700 <= 900000 ->
  exists s, _solvency_score rt c l (mkDecimal 0 0) add_cash = Ok s
            /\ ordinary (20 * R + 599) s.
Proof.
  intros Hrt Hl Ort Oc Ol HR19 HR. unfold _solvency_score. rewrite Hl.
  assert (Hlnz : coef l <> 0) by (apply Z.eqb_neq; exact Hl).
  destruct (div_ordinary prec prec_pos c l R R Oc Ol Hlnz ltac:(unfold prec; lia))
    as (cb & Ecb & Ocb & Zcb).
  change (div_prec prec c l) with (dec_div c l) in Ecb.
  rewrite Ecb; cbn [mbind result_bind].
  (* the cash after the change *)
  assert (Hs : exists s, (if add_cash then dec_add c (mkDecimal 0 0)
                          else dec_sub c (mkDecimal 0 0)) = Ok s
                         /\ ordinary (R + 2) s /\ (coef s = 0 <-> coef c = 0)).
  { destruct (add_ordinary prec prec_pos c (mkDecimal 0 0) R Oc
                (ordinary_zero R ltac:(lia)) ltac:(unfold prec; lia)) as (s & Es & Os & Zs).
    exists s. split; [destruct add_cash; exact Es|]. split; [exact Os|].
    rewrite Zs. cbn [coef expo]. rewrite Z.mul_0_l, Z.add_0_r.
    pose proof (pow10_gt0 (expo c - Z.min (expo c) 0) ltac:(lia)). nia. }
  destruct Hs as (s & Es & Os & Zs).
  destruct (div_ordinary prec prec_pos s l _ _ Os Ol Hlnz ltac:(unfold prec; lia))
    as (ca & Eca & Oca & Zca).
  assert (Eafter : (if add_cash
                    then s0 ← dec_add c (mkDecimal 0 0); dec_div s0 l
                    else s0 ← dec_sub c (mkDecimal 0 0); dec_div s0 l) = Ok ca).
  { destruct add_cash; rewrite Es; cbn [mbind result_bind]; exact Eca. }
  rewrite Eafter; cbn [mbind result_bind].
  destruct (dec_eqb cb ca) eqn:Heq.
  { exists ZERO. split; [reflexivity|]. apply ordinary_zero. lia. }
  (* the coverage moved: the cash is not zero *)
  assert (Hc : coef c <> 0).
  { intros E. rewrite dec_eqb_zeros in Heq; [discriminate| |].
    - apply Zcb. exact E.
    - apply Zca, Zs. exact E. }
  assert (Ocb' : ordinary (2 * R + 31) cb) by (eapply ordinary_mono; [exact Ocb|unfold prec; lia]).
  assert (Oca' : ordinary (2 * R + 31) ca) by (eapply ordinary_mono; [exact Oca|unfold prec; lia]).
  destruct (mul_ordinary prec prec_pos cb UNIT _ _ Ocb' ordinary_UNIT ltac:(unfold prec; lia))
    as (cbw & Ecbw & Ocbw & Zcbw).
  change (mul_prec prec cb UNIT) with (dec_mul cb UNIT) in Ecbw.
  rewrite Ecbw; cbn [mbind result_bind].
  destruct (mul_ordinary prec prec_pos ca UNIT _ _ Oca' ordinary_UNIT ltac:(unfold prec; lia))
    as (caw & Ecaw & Ocaw & Zcaw).
  change (mul_prec prec ca UNIT) with (dec_mul ca UNIT) in Ecaw.
  rewrite Ecaw; cbn [mbind result_bind].
  assert (Hcbw : dec_is_zero cbw = false).
  { apply Z.eqb_neq. intros E. apply Zcbw in E. destruct E as [E|E]; [|discriminate E].
    apply Zcb in E. contradiction. }
  assert (Hcaw : dec_is_zero caw = false).
  { apply Z.eqb_neq. intros E. apply Zcaw in E. destruct E as [E|E]; [|discriminate E].
    apply Zca, Zs in E. contradiction. }
  assert (Ort' : ordinary (2 * R + 51) rt) by (eapply ordinary_mono; [exact Ort|lia]).
  assert (Ocbw' : ordinary (2 * R + 51) cbw) by (eapply ordinary_mono; [exact Ocbw|lia]).
  assert (Ocaw' : ordinary (2 * R + 51) caw) by (eapply ordinary_mono; [exact Ocaw|lia]).
  assert (HR1 : 19 <= 2 * R + 51) by (clear - HR19 HR; lia).
  assert (HR2 : 9 * (2 * R + 51) + 200 <= 900000) by (clear - HR19 HR; lia).
  destruct (integral_ordinary rt cbw (2 * R + 51) Hrt Hcbw Ort' Ocbw' HR1 HR2)
    as (ib & Eib & Oib).
  rewrite Eib; cbn [mbind result_bind].
  destruct (integral_ordinary rt caw (2 * R + 51) Hrt Hcaw Ort' Ocaw' HR1 HR2)
    as (ia & Eia & Oia).
  rewrite Eia; cbn [mbind result_bind].
  assert (Hfin : forall x y u v, ordinary (9 * (2 * R + 51) + 76) x ->
                   ordinary (9 * (2 * R + 51) + 76) y ->
                   ordinary (2 * R + 31) u -> ordinary (2 * R + 31) v ->
                   dec_eqb u v = false ->
                   exists s, (n ← dec_sub x y; d ← dec_sub u v; dec_div n d) = Ok s
                             /\ ordinary (20 * R + 599) s).
  { clear - HR19 HR. intros x y u v Ox Oy Ou Ov Huv.
    assert (HB1 : 9 * (2 * R + 51) + 76 + 1 + prec <= 900000) by (unfold prec; lia).
    assert (HB2 : 2 * R + 31 + 1 + prec <= 900000) by (unfold prec; lia).
    assert (HB3 : 9 * (2 * R + 51) + 76 + 2 + (2 * R + 31 + 2) + 2 * prec <= 900000)
      by (unfold prec; lia).
    destruct (sub_ordinary x y (9 * (2 * R + 51) + 76) Ox Oy HB1) as (n & En & On & _).
    rewrite En; cbn [mbind result_bind].
    destruct (sub_ordinary u v (2 * R + 31) Ou Ov HB2) as (d & Ed & Od & Zd).
    rewrite Ed; cbn [mbind result_bind].
    assert (Hd : coef d <> 0) by (intros E; apply Zd in E; congruence).
    destruct (div_ordinary prec prec_pos n d _ _ On Od Hd HB3)
      as (sc & Esc & Osc & _).
    exists sc. split; [exact Esc|]. eapply ordinary_mono; [exact Osc|unfold prec; lia]. }
  destruct (dec_gtb cb ca).
  - apply Hfin; assumption.
  - apply Hfin; try assumption.
    unfold dec_eqb in *. unfold dec_compare in *.
    rewrite (Z.min_comm (expo ca) (expo cb)).
    rewrite Z.compare_antisym.
    destruct (_ ?= _); simpl; congruence.
Qed.

Lemma dec_ltb_zero_nonneg a e : 0 <= coef a -> dec_ltb a (mkDecimal 0 e) = false.
Proof.
  intros Ha. unfold dec_ltb, dec_compare; cbn [coef expo]. rewrite Z.mul_0_l.
  pose proof (Z.pow_nonneg 10 (expo a - Z.min (expo a) e) ltac:(lia)).
  destruct (Z.compare_spec (coef a * 10 ^ (expo a - Z.min (expo a) e)) 0);
    try reflexivity. nia.
Qed.

Lemma decimal_of_str_ordinary x r :
  decimal_of_str x = Ok r -> ordinary 4300 r /\ r = of_int x.
Proof.
  unfold decimal_of_str, int_max_str_digits.
  destruct (Z.ltb_spec 4300 (ndigits x)); [discriminate|].
  intros E. inversion E; subst. split; [|reflexivity].
  unfold ordinary, of_int; cbn [coef expo]. lia.
Qed.

Lemma ordinary_pow10 k : 0 <= k -> ordinary (k + 1) (of_int (10 ^ k)).
Proof.
  intros Hk. unfold ordinary, of_int; cbn [coef expo]. rewrite ndigits_pow10 by lia. lia.
Qed.

(** The canonical amount of an integer, when the conversion succeeds, is of
    ordinary size. *)
Lemma to_wad_ordinary x d w :
  0 <= d <= 255 -> _to_wad x d = Ok w -> ordinary 5000 w.
Proof.
  intros Hd. unfold _to_wad.
  destruct (decimal_of_str x) as [xd|e] eqn:Ex; [|discriminate].
  cbn [mbind result_bind].
  destruct (decimal_of_str_ordinary x xd Ex) as (Ox & _).
  destruct (Z.ltb_spec d 18) as [Hlt|Hge]; [|destruct (Z.ltb_spec 18 d) as [Hgt|Heq]].
  - destruct (mul_ordinary prec prec_pos xd (of_int (10 ^ (18 - d))) _ _ Ox
                (ordinary_pow10 (18 - d) ltac:(lia)) ltac:(unfold prec; lia))
      as (r & Er & Or & _).
    unfold dec_mul. rewrite Er. intros E. inversion E; subst.
    eapply ordinary_mono; [exact Or|lia].
  - destruct (div_ordinary prec prec_pos xd (of_int (10 ^ (d - 18))) _ _ Ox
                (ordinary_pow10 (d - 18) ltac:(lia)))
      as (r & Er & Or & _).
    + simpl. pose proof (pow10_gt0 (d - 18)). lia.
    + unfold prec. lia.
    + unfold dec_div. rewrite Er. intros E. inversion E; subst.
      eapply ordinary_mono; [exact Or|unfold prec; lia].
  - intros E. inversion E; subst. eapply ordinary_mono; [exact Ox|lia].
Qed.

(** ** Properties of the quoting functions *)

(** *** C1: the first case of the integral *)

(** C1 (defect of the code).  With both arguments in the canonical scale and
    [0 < r <= rThreshold] the integral should be
    [(1 - rThreshold)/5 + (rThreshold - r)] in one scale.  At
    [rThreshold = 0.23] and [r = 0.13] the code returns
    [100000000000000000.154]: the constant [(1 - rThreshold)/5 = 0.154] in
    units of one and the difference [rThreshold - r] in units of [10^-18].
    The value is neither [0.254] nor its canonical form
    [254000000000000000]. *)
Theorem integral_case1_mixes_scales :
  _solvency_curve_integral (of_int 230000000000000000) (of_int 130000000000000000)
    = Ok (mkDecimal 100000000000000000154 (-3))
  /\ dec_eqb (mkDecimal 100000000000000000154 (-3)) (of_int 254000000000000000) = false
  /\ dec_eqb (mkDecimal 100000000000000000154 (-3)) (mkDecimal 254 (-3)) = false.
Proof. repeat split; vm_compute; reflexivity. Qed.

(** *** C2: continuity at the threshold *)

(** C2 (as stated, refuted).  At [rThreshold = 0.297643165] the first case
    gives [0.140471367] and the expression of the second case, evaluated at
    the threshold, gives [0.1404713669999999999999999999]: the fifth and
    fourth powers are rounded to the working precision. *)
Lemma integral_cases_differ_at_threshold :
  integral_case1 (of_int 297643165000000000) (of_int 297643165000000000)
    = Ok (mkDecimal 140471367 (-9))
  /\ integral_case2 (of_int 297643165000000000) (of_int 297643165000000000)
    = Ok (mkDecimal 1404713669999999999999999999 (-28))
  /\ dec_eqb (mkDecimal 140471367 (-9)) (mkDecimal 1404713669999999999999999999 (-28))
    = false.
Proof. repeat split; vm_compute; reflexivity. Qed.

(** C2 (amended).  For every threshold strictly between 0 and 1 that is a
    whole multiple of [10^13] canonical units (at most five decimal places),
    the integral at [r = rThreshold] is computed by its first case, and that
    value equals the expression of the second case evaluated at the
    threshold. *)
Theorem integral_continuous_at_coarse_threshold n :
  0 < n < 10 ^ 18 -> n mod 10 ^ 13 = 0 ->
  exists v1 v2,
    _solvency_curve_integral (of_int n) (of_int n) = Ok v1
    /\ integral_case1 (of_int n) (of_int n) = Ok v1
    /\ integral_case2 (of_int n) (of_int n) = Ok v2
    /\ dec_eqb v1 v2 = true.
Proof.
  intros Hn Hmod.
  set (m := 10 ^ 5 - n / 10 ^ 13).
  assert (En : n = 10 ^ 18 - m * 10 ^ 13).
  { pose proof (Z.div_mod n (10 ^ 13) ltac:(lia)). unfold m. lia. }
  assert (Hm : 0 < m < 10 ^ 5).
  { unfold m. assert (0 < n / 10 ^ 13 < 10 ^ 5); [|lia].
    pose proof (Z.div_mod n (10 ^ 13) ltac:(lia)). lia. }
  assert (Hmabs : Z.abs m < 10 ^ 5) by lia.
  destruct (short_powers m Hmabs) as (B2 & B4 & B5).
  rewrite !Z.abs_eq in B2, B4, B5 by lia.
  clearbody m. subst n.
  set (rT := of_int (10 ^ 18 - m * 10 ^ 13)).
  assert (VrT : (dval rT == inject_Z (10 ^ 18 - m * 10 ^ 13))%Q) by apply dval_of_int.
  assert (VU : (dval UNIT == inject_Z (10 ^ 18))%Q) by apply dval_of_int.
  assert (V5 : (dval FIVE_WAD == inject_Z (5 * 10 ^ 18))%Q) by apply dval_of_int.
  assert (Hmq : ~ (m # 1 == 0)%Q) by (unfold Qeq; simpl; lia).
  (* UNIT - rT *)
  destruct (sub_exact prec prec_pos UNIT rT m 13) as (a & Ea & Va).
  { fits_tac. rewrite VU, VrT. unfold Z.sub. qnorm. ring. }
  (* case 1 *)
  destruct (div_exact prec prec_pos a FIVE_WAD (2 * m) (-6)) as (b & Eb & Vb).
  { discriminate. }
  { fits_tac. rewrite Va, V5. qnorm. field. }
  destruct (add_exact prec prec_pos b rT (2 * m + (10 ^ 18 - m * 10 ^ 13) * 10 ^ 6) (-6))
    as (c & Ec & Vc).
  { fits_tac. rewrite Vb, VrT. unfold Z.sub. qnorm. ring. }
  destruct (sub_exact prec prec_pos c rT (2 * m) (-6)) as (v1 & Ev1 & Vv1).
  { fits_tac. rewrite Vc, VrT. unfold Z.sub. qnorm. ring. }
  (* case 2 *)
  destruct (pow5_exact a m 13 Va Hmabs ltac:(lia)) as (num & Enum & Vnum).
  destruct (pow4_exact a m 13 Va Hmabs ltac:(lia)) as (p4 & Ep4 & Vp4).
  simpl Z.add in Vnum, Vp4.
  destruct (mul_exact prec prec_pos FIVE_WAD p4 (5 * (m * m * (m * m))) 70)
    as (den & Eden & Vden).
  { fits_tac. rewrite V5, Vp4. qnorm. ring. }
  destruct (div_exact prec prec_pos num den (2 * m) (-6)) as (v2 & Ev2 & Vv2).
  { apply dval_nonzero_coef. rewrite Vden. qnorm.
    intros E. apply Hmq.
    repeat (apply Qmult_integral in E; destruct E as [E|E]; try discriminate E; try assumption). }
  { fits_tac. rewrite Vnum, Vden. qnorm. field. exact Hmq. }
  exists v1, v2.
  assert (H1 : integral_case1 rT rT = Ok v1).
  { unfold integral_case1, dec_sub, dec_div, dec_add.
    rewrite Ea; cbn [mbind result_bind]. rewrite Eb; cbn [mbind result_bind].
    rewrite Ec; cbn [mbind result_bind]. exact Ev1. }
  split; [|split; [exact H1|split]].
  - unfold _solvency_curve_integral.
    assert (Hz : dec_is_zero rT = false).
    { unfold dec_is_zero, rT; simpl. apply Z.eqb_neq. lia. }
    rewrite Hz. unfold dec_leb. rewrite dec_compare_refl. exact H1.
  - unfold integral_case2, dec_sub, dec_mul, dec_div.
    rewrite Ea; cbn [mbind result_bind]. rewrite Enum; cbn [mbind result_bind].
    rewrite Ep4; cbn [mbind result_bind].
    rewrite Eden; cbn [mbind result_bind]. exact Ev2.
  - apply dec_eqb_value. rewrite Vv1, Vv2. reflexivity.
Qed.

(** The threshold of the stable pool, 0.23. *)
Lemma integral_continuous_at_coarse_threshold_witness :
  exists v1 v2,
    _solvency_curve_integral (of_int 230000000000000000) (of_int 230000000000000000) = Ok v1
    /\ integral_case1 (of_int 230000000000000000) (of_int 230000000000000000) = Ok v1
    /\ integral_case2 (of_int 230000000000000000) (of_int 230000000000000000) = Ok v2
    /\ dec_eqb v1 v2 = true.
Proof.
  apply (integral_continuous_at_coarse_threshold 230000000000000000).
  - vm_compute. split; reflexivity.
  - vm_compute. reflexivity.
Defined.

(** *** C3: conversion to and from the canonical scale *)

(** C3 (as stated, refuted).  Scaling the 29-digit amount
    [10000000000000000000000000015] down by one digit yields
    [1000000000000000000000000002], above the truncated quotient
    [1000000000000000000000000001]: the result is rounded half to even, not
    truncated, and the way back does not return the amount.  A quotient that
    fits the precision keeps its fraction: 15 scaled down by one digit is
    1.5. *)
Lemma to_wad_rounds_instead_of_truncating :
  _to_wad 10000000000000000000000000015 19 = Ok (of_int 1000000000000000000000000002)
  /\ Z.quot 10000000000000000000000000015 (10 ^ (19 - 18)) = 1000000000000000000000000001
  /\ _from_wad (of_int 1000000000000000000000000002) 19
     = Ok (mkDecimal 1000000000000000000000000002 1)
  /\ dec_eqb (mkDecimal 1000000000000000000000000002 1)
       (of_int 10000000000000000000000000015) = false
  /\ _to_wad 15 19 = Ok (mkDecimal 15 (-1)).
Proof. repeat split; vm_compute; reflexivity. Qed.

(** C3 (amended).  For every decimal count between 0 and 255 and every
    integer amount of at most 4300 digits both conversions succeed.  At
    eighteen decimals they return the amount as it is.  Otherwise [_to_wad]
    returns the amount times [10^(18 - d)] rounded half to even to 28
    significant digits, and [_from_wad] of that returns the amount rounded
    half to even to 28 significant digits: nothing is truncated.  So for an
    amount below [10^28] in magnitude [_to_wad] returns the amount times
    [10^(18 - d)] exactly, fractional digits included, and the way back
    returns the amount. *)
Theorem wad_round_trip x d :
  ndigits x <= int_max_str_digits -> 0 <= d <= 255 ->
  exists w b,
    _to_wad x d = Ok w /\ _from_wad w d = Ok b
    /\ (if d =? 18 then w = of_int x /\ b = of_int x
        else dec_eqb w (rounded prec x (18 - d)) = true
             /\ dec_eqb b (rounded prec x 0) = true)
    /\ (Z.abs x < 10 ^ 28 ->
        dec_eqb w (mkDecimal x (18 - d)) = true /\ dec_eqb b (of_int x) = true).
Proof.
  intros Hx Hd.
  assert (Hexact : Z.abs x < 10 ^ 28 -> forall e, rounded prec x e = mkDecimal x e).
  { intros H e. apply rounded_short. apply ndigits_le; [unfold prec; lia|exact H]. }
  destruct (Z.eq_dec x 0) as [->|Hnz].
  { rewrite to_wad_zero.
    destruct (from_wad_zero 0 d) as (e' & He').
    assert (Hz : forall e1 e2, dec_eqb (mkDecimal 0 e1) (mkDecimal 0 e2) = true).
    { intros. apply dec_eqb_value. rewrite !dval_zero. reflexivity. }
    exists (mkDecimal 0 0), (mkDecimal 0 e').
    split; [reflexivity|]. split; [exact He'|]. split.
    - destruct (Z.eqb_spec d 18) as [->|Hne].
      + split; [reflexivity|]. change (_from_wad (mkDecimal 0 0) 18) with (Ok (of_int 0)) in He'.
        congruence.
      + rewrite !Hexact by (simpl; lia). split; apply Hz.
    - intros _. split; apply Hz. }
  unfold _to_wad, _from_wad. rewrite (decimal_of_str_ok x Hx). cbn [mbind result_bind].
  destruct (Z.eqb_spec d 18) as [->|Hne].
  { simpl. exists (of_int x), (of_int x).
    split; [reflexivity|]. split; [reflexivity|]. split; [split; reflexivity|].
    intros _. split; apply dec_eqb_refl. }
  (* the canonical amount *)
  assert (Hw : exists w, (if d <? 18 then dec_mul (of_int x) (of_int (10 ^ (18 - d)))
                          else if 18 <? d then dec_div (of_int x) (of_int (10 ^ (d - 18)))
                          else Ok (of_int x)) = Ok w
                         /\ (dval w == dval (rounded prec x (18 - d)))%Q).
  { unfold int_max_str_digits in Hx.
    destruct (Z.ltb_spec d 18) as [Hlt|Hge]; [|destruct (Z.ltb_spec 18 d) as [Hgt|]; [|lia]].
    - destruct (mul_pow10 prec (of_int x) (18 - d) prec_pos Hnz ltac:(lia)) as (w & Ew & Vw);
        [cbn [coef expo of_int]; unfold Etiny, Emin, prec; lia
        |cbn [coef expo of_int]; unfold Etop, Emax, prec; lia|].
      exists w. split; [exact Ew|]. exact Vw.
    - destruct (div_pow10 prec (of_int x) (d - 18) prec_pos Hnz ltac:(lia)) as (w & Ew & Vw);
        [cbn [coef expo of_int]; unfold Etiny, Emin, prec; lia
        |cbn [coef expo of_int]; unfold Etop, Emax, prec; lia|].
      exists w. split; [exact Ew|].
      cbn [coef expo of_int] in Vw. replace (0 - (d - 18)) with (18 - d) in Vw by lia.
      exact Vw. }
  destruct Hw as (w & Ew & Vw). rewrite Ew.
  destruct (rounded_fits prec x (18 - d) prec_pos Hnz) as (m & j & Vr & Hm & Hj).
  unfold int_max_str_digits in Hx.
  (* the way back is exact *)
  assert (Hb : exists b, (if d <? 18 then dec_div w (of_int (10 ^ (18 - d)))
                          else if 18 <? d then dec_mul w (of_int (10 ^ (d - 18)))
                          else Ok w) = Ok b
                         /\ (dval b == inject_Z m * 10 ^ (j + (d - 18)))%Q).
  { destruct (Z.ltb_spec d 18) as [Hlt|Hge]; [|destruct (Z.ltb_spec 18 d) as [Hgt|]; [|lia]].
    - apply (div_exact prec prec_pos).
      + simpl. pose proof (pow10_gt0 (18 - d)). lia.
      + unfold fits, Emin, Emax, prec. split; [|split; [exact Hm|lia]].
        rewrite Vw, Vr, dval_of_pow10 by lia. rewrite Qpow10_add.
        replace (d - 18) with (- (18 - d)) by lia. rewrite Qpow10_opp.
        field. apply Qpow10_nz.
    - apply (mul_exact prec prec_pos).
      unfold fits, Emin, Emax, prec. split; [|split; [exact Hm|lia]].
      rewrite Vw, Vr, dval_of_pow10 by lia. rewrite Qpow10_add. ring. }
  destruct Hb as (b & Eb & Vb).
  assert (Vb' : (dval b == dval (rounded prec x 0))%Q).
  { rewrite Vb, Qpow10_add, Qmult_assoc, <- Vr.
    rewrite (rounded_shift prec x (18 - d)).
    replace (d - 18) with (- (18 - d)) by lia. rewrite Qpow10_opp.
    field. apply Qpow10_nz. }
  exists w, b. split; [reflexivity|]. split; [exact Eb|]. split.
  - split; apply dec_eqb_value; assumption.
  - intros Hsmall. split; apply dec_eqb_value.
    + rewrite Vw, (Hexact Hsmall). reflexivity.
    + rewrite Vb', (Hexact Hsmall). reflexivity.
Qed.

(** The 29-digit amount above at nineteen decimals. *)
Lemma wad_round_trip_witness :
  exists w b,
    _to_wad 10000000000000000000000000015 19 = Ok w /\ _from_wad w 19 = Ok b
    /\ (dec_eqb w (rounded prec 10000000000000000000000000015 (18 - 19)) = true
        /\ dec_eqb b (rounded prec 10000000000000000000000000015 0) = true)
    /\ (Z.abs 10000000000000000000000000015 < 10 ^ 28 ->
        dec_eqb w (mkDecimal 10000000000000000000000000015 (18 - 19)) = true
        /\ dec_eqb b (of_int 10000000000000000000000000015) = true).
Proof.
  apply (wad_round_trip 10000000000000000000000000015 19).
  - vm_compute. discriminate.
  - lia.
Defined.

(** *** C4: the ideal amount of a variant pool *)





(** *** C5: negative net amounts *)

(** C5 (as stated, refuted).  In a stable pool whose destination asset is
    covered at ten per cent, swapping one token gives a destination score of
    [10^18] against a source score of zero; the multiplier is negative and
    [quote_swap] returns a negative amount and a negative haircut without
    any failure. *)
Lemma quote_swap_returns_negative_amount :
  _solvency_score (of_int 230000000000000000) (of_int 10000000000000000000)
      (of_int 100000000000000000000) (of_int 1000000000000000000) false
    = Ok (mkDecimal 10000000000000000000 (-1))
  /\ fst (quote_swap Examples.USDe Examples.USDC 1000000000000000000 Examples.drained_pool)
     = Ok (-999949999999999999000050000000000000, -49999999999999999950000000000000).
Proof. split; vm_compute; reflexivity. Qed.

(** C5 (amended).  [quote_swap] has no guard on the sign of the result: with
    both assets registered in one aggregate account, whenever the internal
    computation yields a net amount and a haircut and both convert back,
    [quote_swap] returns their truncations, negative or not; and it fails
    with [InsufficientCash] only when the destination's cash is below the
    ideal amount. *)
Theorem quote_swap_has_no_sign_guard self f t amt fa ta :
  assets self !! f = Some fa -> assets self !! t = Some ta ->
  aggregate_account fa = aggregate_account ta ->
  (forall w net hc net' hc',
      _to_wad amt (underlying_token_decimals fa) = Ok w ->
      _quote_swap_internal self fa ta w = Ok (net, hc) ->
      _from_wad net (underlying_token_decimals ta) = Ok net' ->
      _from_wad hc (underlying_token_decimals ta) = Ok hc' ->
      fst (quote_swap f t amt self) = Ok (to_int net', to_int hc'))
  /\ (fst (quote_swap f t amt self) = Err InsufficientCash ->
      exists w ideal,
        _to_wad amt (underlying_token_decimals fa) = Ok w
        /\ ideal_to_amount (config self) fa ta w = Ok ideal
        /\ dec_ltb (cash ta) ideal = true).
Proof.
  intros Hf Ht Hagg. rewrite (quote_swap_found _ _ _ _ _ _ Hf Ht Hagg); simpl.
  unfold quote_pipeline. split.
  - intros w net hc net' hc' -> ; simpl. intros ->; simpl. intros ->; simpl. intros ->; reflexivity.
  - intros H.
    apply bind_error in H. destruct H as [H | (w & Hw & H)];
      [exfalso; eapply to_wad_no_cash_error; eauto|].
    exists w. apply bind_error in H. destruct H as [H | ([net hc] & _ & H)].
    + unfold _quote_swap_internal in H.
      apply bind_error in H. destruct H as [H | (ideal & Hi & H)];
        [exfalso; eapply ideal_no_cash_error; eauto|].
      exists ideal. split; [exact Hw|]. split; [exact Hi|].
      destruct (dec_ltb (cash ta) ideal); [reflexivity|]. exfalso.
      apply bind_error in H. destruct H as [H | (sf & _ & H)];
        [eapply solvency_score_no_cash_error; eauto|].
      apply bind_error in H. destruct H as [H | (st & _ & H)];
        [eapply solvency_score_no_cash_error; eauto|].
      unfold _compute_to_amount, _haircut in H.
      bind_cases H; try arith_contra; discriminate.
    + exfalso.
      apply bind_error in H. destruct H as [H | (n' & _ & H)];
        [eapply from_wad_no_cash_error; eauto|].
      apply bind_error in H. destruct H as [H | (h' & _ & H)];
        [eapply from_wad_no_cash_error; eauto|]. discriminate.
Qed.

(** The drained pool above: the hypotheses hold and the amounts are negative. *)
Lemma quote_swap_has_no_sign_guard_witness :
  (forall w net hc net' hc',
      _to_wad 1000000000000000000 18 = Ok w ->
      _quote_swap_internal Examples.drained_pool
        (mkAssetState Examples.USDe (of_int 100000000000000000000)
           (of_int 100000000000000000000) 18 Examples.stable_account None)
        (mkAssetState Examples.USDC (of_int 10000000000000000000)
           (of_int 100000000000000000000) 18 Examples.stable_account None) w
        = Ok (net, hc) ->
      _from_wad net 18 = Ok net' ->
      _from_wad hc 18 = Ok hc' ->
      fst (quote_swap Examples.USDe Examples.USDC 1000000000000000000 Examples.drained_pool)
        = Ok (to_int net', to_int hc'))
  /\ (fst (quote_swap Examples.USDe Examples.USDC 1000000000000000000 Examples.drained_pool)
        = Err InsufficientCash ->
      exists w ideal,
        _to_wad 1000000000000000000 18 = Ok w
        /\ ideal_to_amount (config Examples.drained_pool)
             (mkAssetState Examples.USDe (of_int 100000000000000000000)
                (of_int 100000000000000000000) 18 Examples.stable_account None)
             (mkAssetState Examples.USDC (of_int 10000000000000000000)
                (of_int 100000000000000000000) 18 Examples.stable_account None) w
           = Ok ideal
        /\ dec_ltb (of_int 10000000000000000000) ideal = true).
Proof.
  refine (quote_swap_has_no_sign_guard Examples.drained_pool Examples.USDe Examples.USDC
            1000000000000000000
            (mkAssetState Examples.USDe (of_int 100000000000000000000)
               (of_int 100000000000000000000) 18 Examples.stable_account None)
            (mkAssetState Examples.USDC (of_int 10000000000000000000)
               (of_int 100000000000000000000) 18 Examples.stable_account None)
            _ _ _).
  - vm_compute. reflexivity.
  - vm_compute. reflexivity.
  - reflexivity.
Defined.

(** *** C6: errors under validate_swap *)

(** C6 (as stated, refuted).  In a variant pool where WETH has no price the
    quote fails with [PriceNotSet], and [validate_swap] on the same request
    returns [False] instead of failing. *)
Lemma validate_swap_hides_price_not_set :
  fst (quote_swap Examples.WETH Examples.cmETH 10000000000000000000 Examples.unpriced_pool)
    = Err PriceNotSet
  /\ fst (validate_swap Examples.WETH Examples.cmETH 10000000000000000000
            Examples.unpriced_pool)
     = Ok false.
Proof. split; vm_compute; reflexivity. Qed.

(** C6 (amended).  [validate_swap] never fails: it always returns a boolean,
    and whenever the conversion of the amount or the computation of the
    ideal amount raises any error ([PriceNotSet], [ZeroPrice] or a signal of
    the decimal module) for a positive amount between two assets of one
    aggregate account, it returns [False]. *)
Theorem validate_swap_swallows_errors self f t amt :
  (exists b, fst (validate_swap f t amt self) = Ok b)
  /\ (forall fa ta e,
        assets self !! f = Some fa -> assets self !! t = Some ta ->
        aggregate_account fa = aggregate_account ta -> 0 < amt ->
        (w ← _to_wad amt (underlying_token_decimals fa);
         ideal_to_amount (config self) fa ta w) = Err e ->
        fst (validate_swap f t amt self) = Ok false).
Proof.
  split; [apply validate_swap_total|].
  intros fa ta e Hf Ht Hagg Hpos He.
  rewrite (validate_swap_found _ _ _ _ _ _ Hf Ht Hagg Hpos), He. reflexivity.
Qed.

(** The unpriced pool: the ideal amount fails with [PriceNotSet]. *)
Lemma validate_swap_swallows_errors_witness :
  fst (validate_swap Examples.WETH Examples.cmETH 10000000000000000000
         Examples.unpriced_pool) = Ok false.
Proof.
  refine (proj2 (validate_swap_swallows_errors Examples.unpriced_pool
                   Examples.WETH Examples.cmETH 10000000000000000000)
            (mkAssetState Examples.WETH (of_int 100000000000000000000)
               (of_int 100000000000000000000) 18 Examples.variant_account None)
            (mkAssetState Examples.cmETH (of_int 100000000000000000000)
               (of_int 100000000000000000000) 18 Examples.variant_account
               (Some (of_int 1072690000000000000)))
            PriceNotSet _ _ _ _ _).
  - vm_compute. reflexivity.
  - vm_compute. reflexivity.
  - reflexivity.
  - lia.
  - vm_compute. reflexivity.
Defined.

(** *** C7: requests that validate_swap turns down *)

(** C7.  [validate_swap] returns [False], without failing, for an amount
    that is zero or negative, for a token with no registered asset, and for
    a request whose ideal destination amount exceeds the destination's
    cash. *)
Theorem validate_swap_rejects self f t amt :
  rejected self f t amt -> fst (validate_swap f t amt self) = Ok false.
Proof.
  intros H.
  unfold validate_swap, m_try, mbind, method_bind, m_bind, m_self; simpl.
  destruct (assets self !! f) as [fa|] eqn:Hf; [|reflexivity].
  destruct (assets self !! t) as [ta|] eqn:Ht; [|reflexivity].
  destruct (negb _); [reflexivity|].
  destruct (Z.leb_spec amt 0) as [Hle|Hgt]; [reflexivity|].
  unfold m_lift, m_ret.
  destruct H as [H|H|H|fa' ta' w ideal Hf' Ht' Hw Hi Hlt]; [lia|congruence|congruence|].
  assert (fa' = fa) by congruence. assert (ta' = ta) by congruence. subst fa' ta'.
  rewrite Hw; simpl. rewrite Hi; simpl. rewrite Hlt. reflexivity.
Qed.

(** Thirty thousand USDe into USDT exceed the cash held in USDT. *)
Lemma validate_swap_rejects_witness :
  fst (validate_swap Examples.USDe Examples.USDT 30000000000000000000000
         Examples.stable_pool) = Ok false.
Proof.
  apply validate_swap_rejects.
  apply (rejected_cash _ _ _ _
           (mkAssetState Examples.USDe (of_int 21564039972018040980967)
              (of_int 24336765812301186559140) 18 Examples.stable_account None)
           (mkAssetState Examples.USDT (of_int 17494532897516387104081)
              (of_int 17494496221405803482740) 6 Examples.stable_account None)
           (of_int 30000000000000000000000) (of_int 30000000000000000000000));
    vm_compute; reflexivity.
Defined.

(** *** C8: quoting does not change the pool *)

(** C8.  [quote_swap] and [validate_swap] leave the state of the pool (the
    configuration, the assets and their records) exactly as it was, whether
    they succeed or fail; so do the read accessors.  Only
    [update_asset_state] and [update_asset_price] store a new state. *)
Theorem quoting_leaves_pool_unchanged (self : MobiusPool) (f t : string) (amt : Z) :
  snd (quote_swap f t amt self) = self
  /\ snd (validate_swap f t amt self) = self
  /\ snd (get_asset_state f self) = self
  /\ snd (is_stable_asset f self) = self.
Proof.
  split; [|split; [|split]].
  - apply quote_swap_read_only.
  - apply validate_swap_read_only.
  - apply get_asset_state_read_only.
  - apply is_stable_asset_read_only.
Qed.

(** *** C9: a zero amount *)

(** C9.  In every stable pool whose threshold is not zero, for two
    registered assets of one aggregate account whose liabilities are not
    zero and whose destination holds a cash that is not negative, the
    amounts and the threshold being of ordinary size, [quote_swap] with a
    zero amount does not fail and returns exactly [(0, 0)].  The amounts
    may have any number of digits: where adding zero to a cash of more than
    28 digits rounds it and moves the coverage ratio, the scores go through
    the integral, and the zero ideal amount makes every later amount
    zero. *)
Theorem zero_amount_quotes_zero self f t fa ta :
  is_stable_pool (config self) = true ->
  assets self !! f = Some fa -> assets self !! t = Some ta ->
  aggregate_account fa = aggregate_account ta ->
  dec_is_zero (r_threshold (config self)) = false ->
  ordinary size_limit (r_threshold (config self)) ->
  ordinary_asset fa -> ordinary_asset ta ->
  dec_is_zero (liability fa) = false -> dec_is_zero (liability ta) = false ->
  0 <= coef (cash ta) ->
  fst (quote_swap f t 0 self) = Ok (0, 0).
Proof.
  intros Hst Hf Ht Hagg Hrt Ort [Ocf Olf] [Oct Olt] Hlf Hlt Hcash.
  unfold size_limit in *.
  rewrite (quote_swap_found _ _ _ _ _ _ Hf Ht Hagg); simpl.
  unfold quote_pipeline. rewrite to_wad_zero; cbn [mbind result_bind].
  unfold _quote_swap_internal, ideal_to_amount. rewrite Hst; cbn [mbind result_bind].
  rewrite (dec_ltb_zero_nonneg (cash ta) 0 Hcash).
  destruct (solvency_score_zero_change_ok (r_threshold (config self)) (cash fa) (liability fa)
              true 10000 Hrt Hlf Ort Ocf Olf ltac:(lia) ltac:(lia)) as (sf & Esf & Osf).
  rewrite Esf; cbn [mbind result_bind].
  destruct (solvency_score_zero_change_ok (r_threshold (config self)) (cash ta) (liability ta)
              false 10000 Hrt Hlt Ort Oct Olt ltac:(lia) ltac:(lia)) as (st & Est & Ost).
  rewrite Est; cbn [mbind result_bind].
  destruct (mul_ordinary prec prec_pos sf UNIT _ _ Osf ordinary_UNIT ltac:(unfold prec; lia))
    as (si & Esi & Osi & _).
  change (mul_prec prec sf UNIT) with (dec_mul sf UNIT) in Esi.
  rewrite Esi; cbn [mbind result_bind].
  destruct (mul_ordinary prec prec_pos st UNIT _ _ Ost ordinary_UNIT ltac:(unfold prec; lia))
    as (sj & Esj & Osj & _).
  change (mul_prec prec st UNIT) with (dec_mul st UNIT) in Esj.
  rewrite Esj; cbn [mbind result_bind].
  unfold _compute_to_amount.
  destruct (add_ordinary prec prec_pos UNIT si (20 * 10000 + 599 + 19 + 1)) as (a & Ea & Oa & _);
    [eapply ordinary_mono; [apply ordinary_UNIT|lia] | exact Osi | unfold prec; lia |].
  change (add_prec prec UNIT si) with (dec_add UNIT si) in Ea.
  rewrite Ea; cbn [mbind result_bind].
  destruct (sub_ordinary a sj (20 * 10000 + 599 + 19 + 1 + 2)) as (b & Eb & Ob & _);
    [exact Oa | eapply ordinary_mono; [exact Osj|lia] | unfold prec; lia |].
  rewrite Eb; cbn [mbind result_bind].
  destruct (mul_zero_l 0 b) as (e0 & ->). cbn [mbind result_bind].
  destruct (div_zero_l e0 UNIT ltac:(discriminate)) as (e1 & ->). cbn [mbind result_bind].
  unfold _haircut.
  destruct (mul_zero_l e1 (haircut_rate (config self))) as (e2 & ->). cbn [mbind result_bind].
  destruct (div_zero_l e2 UNIT ltac:(discriminate)) as (e3 & ->). cbn [mbind result_bind].
  destruct (sub_zero_zero e1 e3) as (e4 & ->). cbn [mbind result_bind].
  destruct (from_wad_zero e4 (underlying_token_decimals ta)) as (e5 & ->).
  cbn [mbind result_bind].
  destruct (from_wad_zero e3 (underlying_token_decimals ta)) as (e6 & ->).
  cbn [mbind result_bind]. rewrite !to_int_zero. reflexivity.
Qed.

(** The pool whose cash has 29 digits, at the threshold 0.23 of the stable
    pool, USDe into USDC. *)
Lemma zero_amount_quotes_zero_witness :
  fst (quote_swap Examples.USDe Examples.USDC 0 Examples.long_cash_pool) = Ok (0, 0).
Proof.
  apply (zero_amount_quotes_zero Examples.long_cash_pool Examples.USDe Examples.USDC
           (mkAssetState Examples.USDe (of_int 10000000000000000000000000001) (of_int 3)
              18 Examples.stable_account None)
           (mkAssetState Examples.USDC (of_int 10000000000000000000000000001) (of_int 3)
              6 Examples.stable_account None));
    try reflexivity; try (vm_compute; reflexivity);
    try (split; split; vm_compute; discriminate);
    try (split; vm_compute; discriminate).
  vm_compute. discriminate.
Defined.

(** The threshold must not be zero, as the data model of the pool requires:
    in the same pool configured with a zero threshold the coverage ratio
    moves, the integral is evaluated and the quote of a zero amount fails. *)
Example zero_amount_at_zero_threshold :
  fst (quote_swap Examples.USDe Examples.USDC 0 Examples.zero_threshold_pool)
  = Err ZeroThreshold.
Proof. vm_compute. reflexivity. Qed.

(** *** C10: sign of the integral *)

(** C10 (defect of the code).  For [0 < rThreshold < 1] and [r < 1] the
    integral should be strictly positive.  At
    [rThreshold = r = 0.999999999999999999] the code returns zero: the
    constant [(1 - rThreshold)/5 = 2E-19] is lost when the first case adds
    the threshold in units of [10^-18] to it. *)
Theorem integral_vanishes_below_one :
  dec_ltb (of_int 0) (of_int 999999999999999999) = true
  /\ dec_ltb (of_int 999999999999999999) UNIT = true
  /\ _solvency_curve_integral (of_int 999999999999999999) (of_int 999999999999999999)
     = Ok (mkDecimal 0 (-10))
  /\ dec_is_zero (mkDecimal 0 (-10)) = true.
Proof. repeat split; vm_compute; reflexivity. Qed.

(** ** Sanity checks against the interpreter

    The quotes printed by [example_stable_pool_quotes] and
    [example_variant_pool_quotes]. *)

Example quote_100_USDe_USDC :
  fst (quote_swap Examples.USDe Examples.USDC 100000000000000000000 Examples.stable_pool)
  = Ok (100039593, 5002).
Proof. vm_compute. reflexivity. Qed.

Example quote_100_USDC_USDe :
  fst (quote_swap Examples.USDC Examples.USDe 100000000 Examples.stable_pool)
  = Ok (99943487671385079991, 4997424254781993).
Proof. vm_compute. reflexivity. Qed.

Example quote_20_WETH_cmETH :
  fst (quote_swap Examples.WETH Examples.cmETH 20000000000000000000 Examples.variant_pool)
  = Ok (18632782512698833994, 931685709920437).
Proof. vm_compute. reflexivity. Qed.

(** After [update_asset_price] the next quote uses the new price. *)
Example quote_after_price_update :
  fst (quote_swap Examples.WETH Examples.cmETH 10000000000000000000
         (Examples.state_after
            (_ ← update_asset_price Examples.cmETH 1100000000000000000;
             update_asset_price Examples.mETH 1100000000000000000)
            Examples.variant_pool))
  = Ok (9090151376373982465, 454530295333465).
Proof. vm_compute. reflexivity. Qed.

(** The ideal amount of ten WETH in cmETH. *)
Example ideal_10_WETH_cmETH :
  (a ← dec_mul (of_int 10000000000000000000) (of_int 1000000000000000000);
   dec_div a (of_int 1072690000000000000))
  = Ok (mkDecimal 9322357810737491726407442970 (-9)).
Proof. vm_compute. reflexivity. Qed.

(** ** Further properties of the code *)

(** *** Where failures come from *)

Lemma integral_failure rt r e :
  _solvency_curve_integral rt r = Err e ->
  (e = ZeroThreshold /\ dec_is_zero rt = true) \/ e = ZeroRatio \/ arith_error e.
Proof.
  unfold _solvency_curve_integral. intros H.
  destruct (dec_is_zero rt); [inversion H; auto|].
  destruct (dec_is_zero r); [inversion H; auto|].
  right; right.
  destruct (dec_leb r rt).
  { unfold integral_case1 in H. bind_cases H;
      first [ apply dec_add_error in H | apply dec_sub_error in H
            | apply dec_div_error in H ]; exact H. }
  destruct (dec_ltb r UNIT); [|discriminate].
  unfold integral_case2 in H. bind_cases H;
    first [ apply dec_pow_error in H | apply dec_sub_error in H
          | apply dec_mul_error in H | apply dec_div_error in H ]; exact H.
Qed.

Ltac arith_origin H :=
  first [ apply dec_add_error in H | apply dec_sub_error in H | apply dec_mul_error in H
        | apply dec_div_error in H | apply dec_pow_error in H | apply fix_error in H ].

Lemma score_failure rt c l ch add e :
  _solvency_score rt c l ch add = Err e ->
  (e = ZeroLiability /\ dec_is_zero l = true)
  \/ (e = ZeroThreshold /\ dec_is_zero rt = true) \/ e = ZeroRatio \/ arith_error e.
Proof.
  unfold _solvency_score. intros H.
  destruct (dec_is_zero l); [inversion H; auto|].
  right.
  apply bind_error in H. destruct H as [H | (cb & _ & H)]; [arith_origin H; auto|].
  apply bind_error in H. destruct H as [H | (ca & _ & H)].
  { destruct add; bind_cases H; arith_origin H; auto. }
  destruct (dec_eqb cb ca); [discriminate|].
  apply bind_error in H. destruct H as [H | (cbw & _ & H)]; [arith_origin H; auto|].
  apply bind_error in H. destruct H as [H | (caw & _ & H)]; [arith_origin H; auto|].
  apply bind_error in H. destruct H as [H | (ib & _ & H)];
    [apply integral_failure in H; tauto|].
  apply bind_error in H. destruct H as [H | (ia & _ & H)];
    [apply integral_failure in H; tauto|].
  destruct (dec_gtb cb ca); bind_cases H; arith_origin H; auto.
Qed.

Lemma to_wad_failure x d e : _to_wad x d = Err e -> arith_error e \/ e = IntStrDigits.
Proof.
  unfold _to_wad. intros H.
  apply bind_error in H. destruct H as [H | (xd & _ & H)];
    [right; eapply decimal_of_str_error; eauto|].
  left. destruct (d <? 18); [arith_origin H; exact H|].
  destruct (18 <? d); [arith_origin H; exact H|discriminate].
Qed.

Lemma from_wad_failure x d e : _from_wad x d = Err e -> arith_error e.
Proof.
  unfold _from_wad. intros H.
  destruct (d <? 18); [arith_origin H; exact H|].
  destruct (18 <? d); [arith_origin H; exact H|discriminate].
Qed.

Lemma ideal_failure cfg fa ta w e :
  ideal_to_amount cfg fa ta w = Err e ->
  is_stable_pool cfg = false /\ (e = PriceNotSet \/ e = ZeroPrice \/ arith_error e).
Proof.
  unfold ideal_to_amount, _quote_ideal_to_amount, _convert_token_amount. intros H.
  destruct (is_stable_pool cfg); [discriminate|]. split; [reflexivity|].
  destruct (price_wad ta); [|inversion H; auto].
  destruct (price_wad fa); [|inversion H; auto].
  destruct (_ || _); [inversion H; auto|].
  right; right. bind_cases H; arith_origin H; exact H.
Qed.

Lemma internal_failure self fa ta w e :
  _quote_swap_internal self fa ta w = Err e -> quote_failure self fa ta e.
Proof.
  unfold _quote_swap_internal, quote_failure. intros H.
  apply bind_error in H. destruct H as [H | (ideal & _ & H)].
  { apply ideal_failure in H. tauto. }
  destruct (dec_ltb (cash ta) ideal); [inversion H; auto|].
  apply bind_error in H. destruct H as [H | (sf & _ & H)].
  { apply score_failure in H. tauto. }
  apply bind_error in H. destruct H as [H | (st & _ & H)].
  { apply score_failure in H. tauto. }
  assert (arith_error e); [|tauto].
  unfold _compute_to_amount, _haircut in H.
  bind_cases H; try (arith_origin H; exact H); discriminate.
Qed.

Lemma pipeline_failure self fa ta amt e :
  quote_pipeline self fa ta amt = Err e -> quote_failure self fa ta e.
Proof.
  unfold quote_pipeline. intros H.
  apply bind_error in H. destruct H as [H | (w & _ & H)].
  { apply to_wad_failure in H. unfold quote_failure. tauto. }
  apply bind_error in H. destruct H as [H | ([net hc] & _ & H)].
  { eapply internal_failure; eauto. }
  assert (arith_error e); [|unfold quote_failure; tauto].
  apply bind_error in H. destruct H as [H | (n' & _ & H)];
    [eapply from_wad_failure; eauto|].
  apply bind_error in H. destruct H as [H | (h' & _ & H)];
    [eapply from_wad_failure; eauto|]. discriminate.
Qed.

Lemma quote_failure_not_lookup self fa ta e :
  quote_failure self fa ta e -> e <> AssetNotFound /\ e <> AggregateAccountMismatch.
Proof.
  unfold quote_failure, arith_error. intros H. split; intros ->;
    repeat match goal with
    | H : _ \/ _ |- _ => destruct H as [H|H]
    | H : _ /\ _ |- _ => destruct H as [? H]
    end; discriminate.
Qed.

(** The three outcomes of the lookups at the head of [quote_swap]. *)
Lemma quote_swap_cases self f t amt :
  (fst (quote_swap f t amt self) = Err AssetNotFound
   /\ (assets self !! f = None \/ assets self !! t = None))
  \/ (exists fa ta, assets self !! f = Some fa /\ assets self !! t = Some ta
        /\ aggregate_account fa <> aggregate_account ta
        /\ fst (quote_swap f t amt self) = Err AggregateAccountMismatch)
  \/ (exists fa ta, assets self !! f = Some fa /\ assets self !! t = Some ta
        /\ aggregate_account fa = aggregate_account ta
        /\ fst (quote_swap f t amt self) = quote_pipeline self fa ta amt).
Proof.
  destruct (assets self !! f) as [fa|] eqn:Hf; [destruct (assets self !! t) as [ta|] eqn:Ht|].
  - destruct (String.eqb_spec (aggregate_account fa) (aggregate_account ta)) as [Heq|Hne].
    + right; right. exists fa, ta. repeat split; try assumption.
      rewrite (quote_swap_found _ _ _ _ _ _ Hf Ht Heq). reflexivity.
    + right; left. exists fa, ta. repeat split; try assumption.
      unfold quote_swap, mbind, method_bind, m_bind, m_self; simpl.
      rewrite Hf, Ht. apply String.eqb_neq in Hne. rewrite Hne. reflexivity.
  - left. split; [|right; reflexivity].
    unfold quote_swap, mbind, method_bind, m_bind, m_self; simpl. rewrite Hf, Ht. reflexivity.
  - left. split; [|left; reflexivity].
    unfold quote_swap, mbind, method_bind, m_bind, m_self; simpl. rewrite Hf. reflexivity.
Qed.

(** X1.  [quote_swap] fails with "Asset not found in pool" exactly when one
    of the two tokens has no registered asset, whatever the amount. *)
Theorem quote_swap_asset_not_found_iff self f t amt :
  fst (quote_swap f t amt self) = Err AssetNotFound
  <-> (assets self !! f = None \/ assets self !! t = None).
Proof.
  destruct (quote_swap_cases self f t amt)
    as [[H Hn] | [(fa & ta & Hf & Ht & Hne & H) | (fa & ta & Hf & Ht & Heq & H)]].
  - split; intros _; assumption.
  - split; [rewrite H; discriminate | intros [Hn|Hn]; congruence].
  - split; [|intros [Hn|Hn]; congruence].
    rewrite H. intros He. apply pipeline_failure, quote_failure_not_lookup in He.
    destruct He as [He _]. contradiction.
Qed.

Lemma quote_swap_asset_not_found_iff_witness :
  fst (quote_swap Examples.USDe Examples.WETH 1 Examples.stable_pool) = Err AssetNotFound.
Proof.
  apply (proj2 (quote_swap_asset_not_found_iff Examples.stable_pool
                  Examples.USDe Examples.WETH 1)).
  right. vm_compute. reflexivity.
Defined.

(** X2.  [quote_swap] fails with "Assets must be in the same aggregate
    account" exactly when both tokens are registered and their aggregate
    accounts differ, whatever the amount. *)
Theorem quote_swap_account_mismatch_iff self f t amt :
  fst (quote_swap f t amt self) = Err AggregateAccountMismatch
  <-> (exists fa ta, assets self !! f = Some fa /\ assets self !! t = Some ta
         /\ aggregate_account fa <> aggregate_account ta).
Proof.
  destruct (quote_swap_cases self f t amt)
    as [[H Hn] | [(fa & ta & Hf & Ht & Hne & H) | (fa & ta & Hf & Ht & Heq & H)]].
  - split; [rewrite H; discriminate|].
    intros (fa & ta & Hf & Ht & _). destruct Hn; congruence.
  - split; [intros _; exists fa, ta; auto | intros _; assumption].
  - split.
    + rewrite H. intros He. apply pipeline_failure, quote_failure_not_lookup in He.
      destruct He as [_ He]. contradiction.
    + intros (fa' & ta' & Hf' & Ht' & Hne). congruence.
Qed.

Lemma quote_swap_account_mismatch_iff_witness :
  fst (quote_swap Examples.USDe Examples.WETH 1 mixed_pool) = Err AggregateAccountMismatch.
Proof.
  apply (proj2 (quote_swap_account_mismatch_iff mixed_pool Examples.USDe Examples.WETH 1)).
  exists (mkAssetState Examples.USDe (of_int 21564039972018040980967)
            (of_int 24336765812301186559140) 18 Examples.stable_account None),
         (mkAssetState Examples.WETH (of_int 100000000000000000000)
            (of_int 100000000000000000000) 18 Examples.variant_account
            (Some (of_int 1000000000000000000))).
  split; [vm_compute; reflexivity|]. split; [vm_compute; reflexivity|].
  vm_compute. discriminate.
Defined.

(** X3.  A stable pool never consults prices: its quotes cannot fail with
    "price not set" or "Price cannot be zero", whatever the price fields of
    the assets hold. *)
Theorem stable_quote_never_fails_on_price self f t amt :
  is_stable_pool (config self) = true ->
  fst (quote_swap f t amt self) <> Err PriceNotSet
  /\ fst (quote_swap f t amt self) <> Err ZeroPrice.
Proof.
  intros Hst.
  assert (Hq : forall fa ta e, quote_failure self fa ta e ->
                 e <> PriceNotSet /\ e <> ZeroPrice).
  { unfold quote_failure, arith_error. intros fa ta e H. split; intros ->;
      repeat match goal with
      | H : _ \/ _ |- _ => destruct H as [H|H]
      | H : _ /\ _ |- _ => destruct H as [? H]
      end; congruence. }
  destruct (quote_swap_cases self f t amt)
    as [[H Hn] | [(fa & ta & Hf & Ht & Hne & H) | (fa & ta & Hf & Ht & Heq & H)]];
    rewrite H; try (split; discriminate).
  split; intros He; apply pipeline_failure, Hq in He; tauto.
Qed.

Lemma stable_quote_never_fails_on_price_witness :
  fst (quote_swap Examples.USDe Examples.WETH 1 mixed_pool) <> Err PriceNotSet
  /\ fst (quote_swap Examples.USDe Examples.WETH 1 mixed_pool) <> Err ZeroPrice.
Proof.
  apply (stable_quote_never_fails_on_price mixed_pool Examples.USDe Examples.WETH 1).
  vm_compute. reflexivity.
Defined.

(** X4.  The zero guards of a quote name their cause: a quote fails with
    "R threshold cannot be zero" only if the configured threshold is zero,
    and with "Liability cannot be zero" only if both tokens are registered
    and the liability of one of them is zero. *)
Theorem quote_swap_zero_guards self f t amt :
  (fst (quote_swap f t amt self) = Err ZeroThreshold ->
   dec_is_zero (r_threshold (config self)) = true)
  /\ (fst (quote_swap f t amt self) = Err ZeroLiability ->
      exists fa ta, assets self !! f = Some fa /\ assets self !! t = Some ta
        /\ (dec_is_zero (liability fa) = true \/ dec_is_zero (liability ta) = true)).
Proof.
  assert (Hq : forall fa ta e, quote_failure self fa ta e ->
                 (e = ZeroThreshold -> dec_is_zero (r_threshold (config self)) = true)
                 /\ (e = ZeroLiability ->
                     dec_is_zero (liability fa) = true \/ dec_is_zero (liability ta) = true)).
  { unfold quote_failure, arith_error. intros fa ta e H. split; intros ->;
      repeat match goal with
      | H : _ \/ _ |- _ => destruct H as [H|H]
      | H : _ /\ _ |- _ => destruct H as [? H]
      end; try discriminate; auto. }
  destruct (quote_swap_cases self f t amt)
    as [[H Hn] | [(fa & ta & Hf & Ht & Hne & H) | (fa & ta & Hf & Ht & Heq & H)]];
    rewrite H; try (split; discriminate).
  split; intros He; apply pipeline_failure, Hq in He.
  - apply He. reflexivity.
  - exists fa, ta. split; [assumption|]. split; [assumption|]. apply He. reflexivity.
Qed.

Lemma quote_swap_zero_guards_witness :
  dec_is_zero (r_threshold (config Examples.zero_threshold_pool)) = true.
Proof.
  apply (proj1 (quote_swap_zero_guards Examples.zero_threshold_pool
                  Examples.USDe Examples.USDC 0)).
  vm_compute. reflexivity.
Defined.

(** X5.  The zero-liability guard: once both assets are found in one
    aggregate account, the amount is converted and the destination holds
    enough cash for the ideal amount, a source asset whose liability is zero
    makes the quote fail with "Liability cannot be zero". *)
Theorem quote_swap_zero_liability self f t amt fa ta w ideal :
  assets self !! f = Some fa -> assets self !! t = Some ta ->
  aggregate_account fa = aggregate_account ta ->
  _to_wad amt (underlying_token_decimals fa) = Ok w ->
  ideal_to_amount (config self) fa ta w = Ok ideal ->
  dec_ltb (cash ta) ideal = false ->
  dec_is_zero (liability fa) = true ->
  fst (quote_swap f t amt self) = Err ZeroLiability.
Proof.
  intros Hf Ht Hagg Hw Hi Hc Hz.
  rewrite (quote_swap_found _ _ _ _ _ _ Hf Ht Hagg); simpl.
  unfold quote_pipeline. rewrite Hw; cbn [mbind result_bind].
  unfold _quote_swap_internal. rewrite Hi; cbn [mbind result_bind]. rewrite Hc.
  unfold _solvency_score. rewrite Hz. reflexivity.
Qed.

Lemma quote_swap_zero_liability_witness :
  fst (quote_swap Examples.USDe Examples.USDC 1000000000000000000 unfunded_pool)
  = Err ZeroLiability.
Proof.
  refine (quote_swap_zero_liability unfunded_pool Examples.USDe Examples.USDC
            1000000000000000000
            (mkAssetState Examples.USDe (of_int 0) (of_int 0) 18
               Examples.stable_account None)
            (mkAssetState Examples.USDC (of_int 21491644533317066991913)
               (of_int 18717507771725148273016) 6 Examples.stable_account None)
            (of_int 1000000000000000000) (of_int 1000000000000000000) _ _ _ _ _ _ _);
    vm_compute; reflexivity.
Defined.

(** X6.  The cash gate: with both assets found in one aggregate account, a
    quote fails with "Insufficient cash in destination asset" exactly when
    the amount converts, the ideal amount is computed, and the cash of the
    destination is below it; no later step reports this failure. *)
Theorem quote_swap_insufficient_cash_iff self f t amt fa ta :
  assets self !! f = Some fa -> assets self !! t = Some ta ->
  aggregate_account fa = aggregate_account ta ->
  fst (quote_swap f t amt self) = Err InsufficientCash
  <-> (exists w ideal,
         _to_wad amt (underlying_token_decimals fa) = Ok w
         /\ ideal_to_amount (config self) fa ta w = Ok ideal
         /\ dec_ltb (cash ta) ideal = true).
Proof.
  intros Hf Ht Hagg. rewrite (quote_swap_found _ _ _ _ _ _ Hf Ht Hagg); simpl.
  unfold quote_pipeline. split.
  - intros H.
    apply bind_error in H. destruct H as [H | (w & Hw & H)];
      [exfalso; eapply to_wad_no_cash_error; eauto|].
    exists w. apply bind_error in H. destruct H as [H | ([net hc] & _ & H)].
    + unfold _quote_swap_internal in H.
      apply bind_error in H. destruct H as [H | (ideal & Hi & H)];
        [exfalso; eapply ideal_no_cash_error; eauto|].
      exists ideal. split; [exact Hw|]. split; [exact Hi|].
      destruct (dec_ltb (cash ta) ideal); [reflexivity|]. exfalso.
      apply bind_error in H. destruct H as [H | (sf & _ & H)];
        [eapply solvency_score_no_cash_error; eauto|].
      apply bind_error in H. destruct H as [H | (st & _ & H)];
        [eapply solvency_score_no_cash_error; eauto|].
      unfold _compute_to_amount, _haircut in H.
      bind_cases H; try arith_contra; discriminate.
    + exfalso.
      apply bind_error in H. destruct H as [H | (n' & _ & H)];
        [eapply from_wad_no_cash_error; eauto|].
      apply bind_error in H. destruct H as [H | (h' & _ & H)];
        [eapply from_wad_no_cash_error; eauto|]. discriminate.
  - intros (w & ideal & Hw & Hi & Hlt).
    rewrite Hw; cbn [mbind result_bind].
    unfold _quote_swap_internal. rewrite Hi; cbn [mbind result_bind]. rewrite Hlt.
    reflexivity.
Qed.

Lemma quote_swap_insufficient_cash_iff_witness :
  fst (quote_swap Examples.USDe Examples.USDT 30000000000000000000000 Examples.stable_pool)
  = Err InsufficientCash.
Proof.
  refine (proj2 (quote_swap_insufficient_cash_iff Examples.stable_pool
                   Examples.USDe Examples.USDT 30000000000000000000000
                   (mkAssetState Examples.USDe (of_int 21564039972018040980967)
                      (of_int 24336765812301186559140) 18 Examples.stable_account None)
                   (mkAssetState Examples.USDT (of_int 17494532897516387104081)
                      (of_int 17494496221405803482740) 6 Examples.stable_account None)
                   _ _ _) _).
  - vm_compute. reflexivity.
  - vm_compute. reflexivity.
  - reflexivity.
  - exists (of_int 30000000000000000000000), (of_int 30000000000000000000000).
    repeat split; vm_compute; reflexivity.
Defined.

(** *** The state-sync operations *)

(** What a call of [update_asset_state] does, by the outcome of the
    conversions. *)
Lemma update_asset_state_run tok aa c l d agg viw price self :
  update_asset_state tok aa c l d agg viw price self =
    match converted_inputs c l d viw price with
    | Ok (cw, lw, pd) =>
        (Ok tt,
         {| pool_address := pool_address self;
            config := config self;
            assets := <[tok := mkAssetState tok cw lw d agg pd]> (assets self);
            asset_addresses := <[tok := aa]> (asset_addresses self) |})
    | Err e => (Err e, self)
    end.
Proof.
  unfold update_asset_state, converted_inputs, mbind, method_bind, m_bind, m_lift, m_self,
    m_store.
  destruct (if viw then decimal_of_str c else _to_wad c d) as [cw|e]; [|reflexivity].
  destruct (if viw then decimal_of_str l else _to_wad l d) as [lw|e]; [|reflexivity].
  destruct price as [pw|]; [|reflexivity].
  destruct (decimal_of_str pw) as [p|e]; reflexivity.
Qed.

(** [update_asset_state] touches the two entries of its token and nothing
    else. *)
Lemma update_asset_state_others tok aa c l d agg viw price self :
  config (snd (update_asset_state tok aa c l d agg viw price self)) = config self
  /\ forall other, other <> tok ->
       assets (snd (update_asset_state tok aa c l d agg viw price self)) !! other
       = assets self !! other.
Proof.
  rewrite update_asset_state_run.
  destruct (converted_inputs c l d viw price) as [[[cw lw] pd]|e]; simpl;
    split; auto; intros other Hne; rewrite lookup_insert_ne by congruence; reflexivity.
Qed.

(** What a call of [update_asset_price] does. *)
Lemma update_asset_price_run tok price self :
  update_asset_price tok price self =
    match assets self !! tok with
    | None => (Err AssetNotFound, self)
    | Some asset =>
        match decimal_of_str price with
        | Ok _ =>
            (Ok tt,
             {| pool_address := pool_address self;
                config := config self;
                assets := <[tok := with_price asset price]> (assets self);
                asset_addresses := asset_addresses self |})
        | Err e => (Err e, self)
        end
    end.
Proof.
  unfold update_asset_price, with_price, mbind, method_bind, m_bind, m_lift, m_self, m_store,
    m_raise.
  destruct (assets self !! tok) as [asset|]; [|reflexivity].
  destruct (decimal_of_str price) as [p|e]; reflexivity.
Qed.

Lemma update_asset_price_others tok price self :
  config (snd (update_asset_price tok price self)) = config self
  /\ (forall other, other <> tok ->
        assets (snd (update_asset_price tok price self)) !! other = assets self !! other)
  /\ (forall asset, assets self !! tok = Some asset ->
        assets (snd (update_asset_price tok price self)) !! tok
        = Some (with_price asset price)).
Proof.
  rewrite update_asset_price_run.
  destruct (assets self !! tok) as [asset|] eqn:Hl.
  - destruct (decimal_of_str price) as [p|e] eqn:Hp; simpl.
    + split; [reflexivity|]. split.
      * intros other Hne. rewrite lookup_insert_ne by congruence. reflexivity.
      * intros a Ha. rewrite lookup_insert_eq. congruence.
    + split; [reflexivity|]. split; [reflexivity|].
      intros a Ha. unfold with_price. rewrite Hp. congruence.
  - simpl. split; [reflexivity|]. split; [reflexivity|]. intros a Ha. discriminate.
Qed.

Lemma converted_inputs_in_wad c l d price :
  ndigits c <= int_max_str_digits -> ndigits l <= int_max_str_digits ->
  (forall p, price = Some p -> ndigits p <= int_max_str_digits) ->
  converted_inputs c l d true price = Ok (of_int c, of_int l, of_int <$> price).
Proof.
  intros Hc Hl Hp. unfold converted_inputs.
  rewrite (decimal_of_str_ok c Hc), (decimal_of_str_ok l Hl). cbn [mbind result_bind].
  destruct price as [p|]; [|reflexivity].
  rewrite (decimal_of_str_ok p (Hp p eq_refl)). reflexivity.
Qed.

Lemma decimal_of_str_long x :
  ~ ndigits x <= int_max_str_digits -> decimal_of_str x = Err IntStrDigits.
Proof.
  intros H. unfold decimal_of_str.
  destruct (Z.ltb_spec int_max_str_digits (ndigits x)); [reflexivity|lia].
Qed.

(** X7.  Reading back a registration.  [update_asset_state] with values
    already in the canonical scale succeeds exactly when cash, liability
    and price, if one is given, have at most 4300 digits each, the longest
    integer [str] converts.  Then [get_asset_state] returns exactly the
    record that was written, the asset address is recorded, and
    [is_stable_asset] tells whether it was written without a price.  With a
    longer integer the call raises the [ValueError] of [str] and leaves the
    pool as it was. *)
Theorem update_asset_state_read_back tok aa c l d agg (price : option Z) self :
  let call := update_asset_state tok aa c l d agg true price self in
  let short :=
    ndigits c <= int_max_str_digits /\ ndigits l <= int_max_str_digits
    /\ (forall p, price = Some p -> ndigits p <= int_max_str_digits) in
  (fst call = Ok tt <-> short)
  /\ (short ->
      fst (get_asset_state tok (snd call))
      = Ok (Some (mkAssetState tok (of_int c) (of_int l) d agg (of_int <$> price)))
      /\ asset_addresses (snd call) !! tok = Some aa
      /\ fst (is_stable_asset tok (snd call))
         = Ok (match price with None => true | Some _ => false end))
  /\ (~ short -> call = (Err IntStrDigits, self)).
Proof.
  intros call short. subst call.
  assert (Hgood : short ->
            converted_inputs c l d true price = Ok (of_int c, of_int l, of_int <$> price)).
  { intros (Hc & Hl & Hp). apply converted_inputs_in_wad; assumption. }
  assert (Hbad : ~ short -> converted_inputs c l d true price = Err IntStrDigits).
  { intros Hn. unfold converted_inputs.
    destruct (Z_le_gt_dec (ndigits c) int_max_str_digits) as [Hc|Hc];
      [|rewrite (decimal_of_str_long c) by lia; reflexivity].
    rewrite (decimal_of_str_ok c Hc). cbn [mbind result_bind].
    destruct (Z_le_gt_dec (ndigits l) int_max_str_digits) as [Hl|Hl];
      [|rewrite (decimal_of_str_long l) by lia; reflexivity].
    rewrite (decimal_of_str_ok l Hl). cbn [mbind result_bind].
    destruct price as [p|].
    - destruct (Z_le_gt_dec (ndigits p) int_max_str_digits) as [Hp|Hp];
        [|rewrite (decimal_of_str_long p) by lia; reflexivity].
      exfalso. apply Hn. split; [assumption|]. split; [assumption|].
      intros p' E. inversion E; subst. assumption.
    - exfalso. apply Hn. split; [assumption|]. split; [assumption|]. discriminate. }
  rewrite update_asset_state_run.
  split; [|split].
  - split.
    + intros H.
      destruct (Z_le_gt_dec (ndigits c) int_max_str_digits) as [Hc|Hc];
        [destruct (Z_le_gt_dec (ndigits l) int_max_str_digits) as [Hl|Hl]|].
      * assert (Hp : (forall p, price = Some p -> ndigits p <= int_max_str_digits)
                     \/ ~ short).
        { destruct price as [p|].
          - destruct (Z_le_gt_dec (ndigits p) int_max_str_digits) as [Hp|Hp].
            + left. intros p' E. inversion E; subst. assumption.
            + right. intros (_ & _ & Hs). specialize (Hs p eq_refl). lia.
          - left. discriminate. }
        destruct Hp as [Hp|Hn]; [split; [assumption|split; assumption]|].
        rewrite (Hbad Hn) in H. discriminate.
      * assert (Hn : ~ short) by (intros (_ & Hs & _); lia).
        rewrite (Hbad Hn) in H. discriminate.
      * assert (Hn : ~ short) by (intros (Hs & _); lia).
        rewrite (Hbad Hn) in H. discriminate.
    + intros Hs. rewrite (Hgood Hs). reflexivity.
  - intros Hs. rewrite (Hgood Hs). simpl.
    unfold is_stable_asset, get_asset_state, mbind, method_bind, m_bind, m_self, m_ret; simpl.
    rewrite !lookup_insert_eq. simpl.
    split; [reflexivity|]. split; [reflexivity|]. destruct price; reflexivity.
  - intros Hn. rewrite (Hbad Hn). reflexivity.
Qed.

(** The registration of WETH in the variant pool. *)
Lemma update_asset_state_read_back_witness :
  fst (get_asset_state Examples.WETH
         (snd (update_asset_state Examples.WETH "0x6d01Ad49e74aa488EB293c1869D4aCDC39359B4b"
                 100000000000000000000 100000000000000000000 18 Examples.variant_account
                 true (Some 1000000000000000000)
                 Examples.create_mantle_mainnet_variant_pool)))
  = Ok (Some (mkAssetState Examples.WETH (of_int 100000000000000000000)
                (of_int 100000000000000000000) 18 Examples.variant_account
                (of_int <$> Some 1000000000000000000))).
Proof.
  refine (proj1 (proj1 (proj2 (update_asset_state_read_back Examples.WETH
            "0x6d01Ad49e74aa488EB293c1869D4aCDC39359B4b"
            100000000000000000000 100000000000000000000 18 Examples.variant_account
            (Some 1000000000000000000) Examples.create_mantle_mainnet_variant_pool)) _)).
  split; [vm_compute; discriminate|]. split; [vm_compute; discriminate|].
  intros p E. inversion E; subst. vm_compute. discriminate.
Defined.

(** X8.  Frame and atomicity of [update_asset_state]: whatever its
    arguments, it keeps the configuration and the address of the pool and
    every asset and asset address registered under another token, and it
    either succeeds or leaves the whole pool as it was. *)
Theorem update_asset_state_frame tok aa c l d agg viw price self :
  let self' := snd (update_asset_state tok aa c l d agg viw price self) in
  config self' = config self
  /\ pool_address self' = pool_address self
  /\ (forall other, other <> tok ->
        assets self' !! other = assets self !! other
        /\ asset_addresses self' !! other = asset_addresses self !! other)
  /\ (fst (update_asset_state tok aa c l d agg viw price self) = Ok tt \/ self' = self).
Proof.
  intros self'. subst self'. rewrite update_asset_state_run.
  destruct (converted_inputs c l d viw price) as [[[cw lw] pd]|e]; simpl;
    repeat split; auto; rewrite lookup_insert_ne by congruence; reflexivity.
Qed.

Lemma update_asset_state_frame_witness :
  assets (snd (update_asset_state Examples.USDe "0x362F4D6F539201dB13A7305369a48FaC58960be5"
                 1 1 18 Examples.stable_account false None Examples.stable_pool))
    !! Examples.USDC
  = assets Examples.stable_pool !! Examples.USDC.
Proof.
  refine (proj1 (proj1 (proj2 (proj2 (update_asset_state_frame Examples.USDe
            "0x362F4D6F539201dB13A7305369a48FaC58960be5" 1 1 18 Examples.stable_account
            false None Examples.stable_pool))) Examples.USDC _)).
  vm_compute. discriminate.
Defined.

(** X9.  The last registration wins: a successful [update_asset_state] of a
    token replaces whatever an earlier call for the same token had stored,
    so the pool ends in the state the second call alone would have
    produced. *)
Theorem update_asset_state_last_write_wins
    tok aa1 c1 l1 d1 agg1 viw1 price1 aa2 c2 l2 d2 agg2 viw2 price2 self :
  fst (update_asset_state tok aa2 c2 l2 d2 agg2 viw2 price2 self) = Ok tt ->
  snd (update_asset_state tok aa2 c2 l2 d2 agg2 viw2 price2
         (snd (update_asset_state tok aa1 c1 l1 d1 agg1 viw1 price1 self)))
  = snd (update_asset_state tok aa2 c2 l2 d2 agg2 viw2 price2 self).
Proof.
  rewrite !update_asset_state_run.
  destruct (converted_inputs c2 l2 d2 viw2 price2) as [[[cw2 lw2] pd2]|e]; [|discriminate].
  intros _.
  destruct (converted_inputs c1 l1 d1 viw1 price1) as [[[cw1 lw1] pd1]|e]; [|reflexivity].
  simpl. rewrite !insert_insert_eq. reflexivity.
Qed.

Lemma update_asset_state_last_write_wins_witness :
  snd (update_asset_state Examples.USDe "b" 3 4 18 Examples.stable_account true None
         (snd (update_asset_state Examples.USDe "a" 1 2 6 Examples.variant_account true
                 (Some 5) Examples.stable_pool)))
  = snd (update_asset_state Examples.USDe "b" 3 4 18 Examples.stable_account true None
           Examples.stable_pool).
Proof.
  apply (update_asset_state_last_write_wins Examples.USDe "a" 1 2 6
           Examples.variant_account true (Some 5) "b" 3 4 18 Examples.stable_account
           true None Examples.stable_pool).
  reflexivity.
Defined.

(** X10.  [update_asset_price] on a token that is not registered fails with
    "Asset not found in pool" and changes nothing.  On a registered token
    and with a price of at most 4300 digits it succeeds and replaces the
    price alone: cash, liability, decimals and aggregate account of the
    asset, every other asset, the asset addresses and the configuration
    stay as they were, and the asset is no longer a stable asset.  With a
    longer price it raises the [ValueError] of [str] and changes nothing. *)
Theorem update_asset_price_outcome tok price self :
  let self' := snd (update_asset_price tok price self) in
  match assets self !! tok with
  | None => update_asset_price tok price self = (Err AssetNotFound, self)
  | Some asset =>
      if ndigits price <=? int_max_str_digits then
        fst (update_asset_price tok price self) = Ok tt
        /\ assets self' !! tok
           = Some (mkAssetState (token_address asset) (cash asset) (liability asset)
                     (underlying_token_decimals asset) (aggregate_account asset)
                     (Some (of_int price)))
        /\ (forall other, other <> tok -> assets self' !! other = assets self !! other)
        /\ asset_addresses self' = asset_addresses self
        /\ config self' = config self
        /\ fst (is_stable_asset tok self') = Ok false
      else update_asset_price tok price self = (Err IntStrDigits, self)
  end.
Proof.
  intros self'. subst self'. rewrite update_asset_price_run.
  destruct (assets self !! tok) as [asset|] eqn:Hl; [|reflexivity].
  destruct (Z.leb_spec (ndigits price) int_max_str_digits) as [Hp|Hp].
  - unfold with_price. rewrite (decimal_of_str_ok price Hp). simpl.
    unfold is_stable_asset, mbind, method_bind, m_bind, m_self, m_ret; simpl.
    rewrite !lookup_insert_eq.
    repeat split; try reflexivity.
    intros other Hne. rewrite lookup_insert_ne by congruence. reflexivity.
  - rewrite decimal_of_str_long by lia. reflexivity.
Qed.

Lemma update_asset_price_outcome_witness :
  fst (is_stable_asset Examples.USDe
         (snd (update_asset_price Examples.USDe 1000000000000000000 Examples.stable_pool)))
  = Ok false.
Proof.
  pose proof (update_asset_price_outcome Examples.USDe 1000000000000000000
                Examples.stable_pool) as H.
  cbv zeta in H.
  replace (assets Examples.stable_pool !! Examples.USDe)
    with (Some (mkAssetState Examples.USDe (of_int 21564039972018040980967)
                  (of_int 24336765812301186559140) 18 Examples.stable_account None))
    in H by (vm_compute; reflexivity).
  change (ndigits 1000000000000000000 <=? int_max_str_digits) with true in H.
  exact (proj2 (proj2 (proj2 (proj2 (proj2 H))))).
Defined.

(** *** Quotes and the state *)

(** A quote reads the configuration and the records of its two tokens, and
    nothing else of the pool. *)
Lemma quote_pipeline_config self self' fa ta amt :
  config self' = config self ->
  quote_pipeline self' fa ta amt = quote_pipeline self fa ta amt.
Proof.
  intros Hc. unfold quote_pipeline, _quote_swap_internal. rewrite Hc. reflexivity.
Qed.

Lemma quote_swap_ext self self' f t amt :
  config self' = config self ->
  assets self' !! f = assets self !! f -> assets self' !! t = assets self !! t ->
  fst (quote_swap f t amt self') = fst (quote_swap f t amt self).
Proof.
  intros Hc Hf Ht.
  destruct (assets self !! f) as [fa|] eqn:Ef; [destruct (assets self !! t) as [ta|] eqn:Et|].
  - destruct (String.eqb_spec (aggregate_account fa) (aggregate_account ta)) as [Heq|Hne].
    + rewrite (quote_swap_found self' _ _ _ _ _ Hf Ht Heq).
      rewrite (quote_swap_found self _ _ _ _ _ Ef Et Heq). simpl.
      apply quote_pipeline_config. assumption.
    + apply String.eqb_neq in Hne.
      unfold quote_swap, mbind, method_bind, m_bind, m_self; simpl.
      rewrite Hf, Ht, Ef, Et, Hne. reflexivity.
  - unfold quote_swap, mbind, method_bind, m_bind, m_self; simpl.
    rewrite Hf, Ht, Ef, Et. reflexivity.
  - unfold quote_swap, mbind, method_bind, m_bind, m_self; simpl.
    rewrite Hf, Ef. reflexivity.
Qed.

Lemma validate_swap_ext self self' f t amt :
  config self' = config self ->
  assets self' !! f = assets self !! f -> assets self' !! t = assets self !! t ->
  fst (validate_swap f t amt self') = fst (validate_swap f t amt self).
Proof.
  intros Hc Hf Ht.
  unfold validate_swap, m_try, mbind, method_bind, m_bind, m_self; simpl.
  rewrite Hf, Ht.
  destruct (assets self !! f) as [fa|]; [|reflexivity].
  destruct (assets self !! t) as [ta|]; [|reflexivity].
  destruct (negb _); [reflexivity|].
  destruct (amt <=? 0); [reflexivity|].
  unfold m_lift, m_ret. rewrite Hc.
  destruct (_to_wad amt (underlying_token_decimals fa)) as [w|e]; simpl; [|reflexivity].
  destruct (ideal_to_amount (config self) fa ta w) as [i|e]; simpl; [|reflexivity].
  destruct (dec_ltb (cash ta) i); reflexivity.
Qed.

(** X11.  Registering or re-registering a third token, or changing its
    price, does not change the quote or the validation of a swap between two
    other tokens. *)
Theorem quotes_ignore_other_assets u aa c l d agg viw price p f t amt self :
  u <> f -> u <> t ->
  let self1 := snd (update_asset_state u aa c l d agg viw price self) in
  let self2 := snd (update_asset_price u p self) in
  fst (quote_swap f t amt self1) = fst (quote_swap f t amt self)
  /\ fst (validate_swap f t amt self1) = fst (validate_swap f t amt self)
  /\ fst (quote_swap f t amt self2) = fst (quote_swap f t amt self)
  /\ fst (validate_swap f t amt self2) = fst (validate_swap f t amt self).
Proof.
  intros Hf Ht self1 self2.
  destruct (update_asset_state_others u aa c l d agg viw price self) as (Hc1 & Ho1).
  fold self1 in Hc1, Ho1.
  destruct (update_asset_price_others u p self) as (Hc2 & Ho2 & _).
  fold self2 in Hc2, Ho2.
  repeat split.
  - apply quote_swap_ext; [assumption | apply Ho1; congruence | apply Ho1; congruence].
  - apply validate_swap_ext; [assumption | apply Ho1; congruence | apply Ho1; congruence].
  - apply quote_swap_ext; [assumption | apply Ho2; congruence | apply Ho2; congruence].
  - apply validate_swap_ext; [assumption | apply Ho2; congruence | apply Ho2; congruence].
Qed.

Lemma quotes_ignore_other_assets_witness :
  fst (quote_swap Examples.USDe Examples.USDC 100000000000000000000
         (snd (update_asset_state Examples.USDT "0x6A7D252b807887AfEE870d14C5D7eb25f00A7044"
                 1 1 6 Examples.stable_account true None Examples.stable_pool)))
  = fst (quote_swap Examples.USDe Examples.USDC 100000000000000000000 Examples.stable_pool).
Proof.
  refine (proj1 (quotes_ignore_other_assets Examples.USDT
            "0x6A7D252b807887AfEE870d14C5D7eb25f00A7044" 1 1 6 Examples.stable_account
            true None 1 Examples.USDe Examples.USDC 100000000000000000000
            Examples.stable_pool _ _)); vm_compute; discriminate.
Defined.

(** X12.  A price update is seen by the very next quote: after
    [update_asset_price] on the destination (or the source) of a swap
    between two distinct registered tokens of one aggregate account, the
    quote is the quoting computation run on the old records with the new
    price in place of the old one. *)
Theorem quote_after_update_asset_price self f t amt price fa ta :
  f <> t ->
  assets self !! f = Some fa -> assets self !! t = Some ta ->
  aggregate_account fa = aggregate_account ta ->
  fst (quote_swap f t amt (snd (update_asset_price t price self)))
    = quote_pipeline self fa (with_price ta price) amt
  /\ fst (quote_swap f t amt (snd (update_asset_price f price self)))
    = quote_pipeline self (with_price fa price) ta amt.
Proof.
  intros Hne Hf Ht Hagg.
  assert (Hacc : forall a, aggregate_account (with_price a price) = aggregate_account a).
  { intros a. unfold with_price. destruct (decimal_of_str price); reflexivity. }
  split.
  - destruct (update_asset_price_others t price self) as (Hc & Ho & Hs).
    rewrite (quote_swap_found _ f t amt fa (with_price ta price)); simpl.
    + apply quote_pipeline_config. assumption.
    + rewrite Ho by assumption. assumption.
    + apply Hs. assumption.
    + rewrite Hacc. assumption.
  - destruct (update_asset_price_others f price self) as (Hc & Ho & Hs).
    rewrite (quote_swap_found _ f t amt (with_price fa price) ta); simpl.
    + apply quote_pipeline_config. assumption.
    + apply Hs. assumption.
    + rewrite Ho by congruence. assumption.
    + rewrite Hacc. assumption.
Qed.

Lemma quote_after_update_asset_price_witness :
  fst (quote_swap Examples.WETH Examples.cmETH 10000000000000000000
         (snd (update_asset_price Examples.cmETH 1100000000000000000
                 Examples.variant_pool)))
  = quote_pipeline Examples.variant_pool
      (mkAssetState Examples.WETH (of_int 100000000000000000000)
         (of_int 100000000000000000000) 18 Examples.variant_account
         (Some (of_int 1000000000000000000)))
      (with_price
         (mkAssetState Examples.cmETH (of_int 100000000000000000000)
            (of_int 100000000000000000000) 18 Examples.variant_account
            (Some (of_int 1072690000000000000)))
         1100000000000000000)
      10000000000000000000.
Proof.
  refine (proj1 (quote_after_update_asset_price Examples.variant_pool
            Examples.WETH Examples.cmETH 10000000000000000000 1100000000000000000
            _ _ _ _ _ _)).
  - vm_compute. discriminate.
  - vm_compute. reflexivity.
  - vm_compute. reflexivity.
  - reflexivity.
Defined.

(** *** Validation *)

(** X13.  [validate_swap] returns [True] exactly when both tokens are
    registered in one aggregate account, the amount is positive, the amount
    converts, the ideal amount is computed, and the cash of the destination
    is not below it. *)
Theorem validate_swap_true_iff self f t amt :
  fst (validate_swap f t amt self) = Ok true
  <-> (exists fa ta w ideal,
         assets self !! f = Some fa /\ assets self !! t = Some ta
         /\ aggregate_account fa = aggregate_account ta /\ 0 < amt
         /\ _to_wad amt (underlying_token_decimals fa) = Ok w
         /\ ideal_to_amount (config self) fa ta w = Ok ideal
         /\ dec_ltb (cash ta) ideal = false).
Proof.
  split.
  - unfold validate_swap, m_try, mbind, method_bind, m_bind, m_self; simpl.
    destruct (assets self !! f) as [fa|]; [|discriminate].
    destruct (assets self !! t) as [ta|]; [|discriminate].
    destruct (String.eqb_spec (aggregate_account fa) (aggregate_account ta)) as [Heq|];
      [|discriminate]. simpl.
    destruct (Z.leb_spec amt 0) as [|Hpos]; [discriminate|].
    unfold m_lift, m_ret.
    destruct (_to_wad amt (underlying_token_decimals fa)) as [w|e] eqn:Hw; simpl;
      [|discriminate].
    destruct (ideal_to_amount (config self) fa ta w) as [i|e] eqn:Hi; simpl; [|discriminate].
    destruct (dec_ltb (cash ta) i) eqn:Hlt; [discriminate|]. intros _.
    exists fa, ta, w, i. auto 10.
  - intros (fa & ta & w & i & Hf & Ht & Hagg & Hpos & Hw & Hi & Hlt).
    rewrite (validate_swap_found _ _ _ _ _ _ Hf Ht Hagg Hpos).
    rewrite Hw; cbn [mbind result_bind]. rewrite Hi, Hlt. reflexivity.
Qed.

Lemma validate_swap_true_iff_witness :
  fst (validate_swap Examples.USDe Examples.USDC 100000000000000000000 Examples.stable_pool)
  = Ok true.
Proof.
  apply (proj2 (validate_swap_true_iff Examples.stable_pool Examples.USDe Examples.USDC
                  100000000000000000000)).
  exists (mkAssetState Examples.USDe (of_int 21564039972018040980967)
            (of_int 24336765812301186559140) 18 Examples.stable_account None),
         (mkAssetState Examples.USDC (of_int 21491644533317066991913)
            (of_int 18717507771725148273016) 6 Examples.stable_account None),
         (of_int 100000000000000000000), (of_int 100000000000000000000).
  repeat split; try (vm_compute; reflexivity).
Defined.

(** X14.  Every swap of a positive amount that [quote_swap] can price is
    accepted by [validate_swap]. *)
Theorem quoted_swaps_are_valid self f t amt out :
  0 < amt -> fst (quote_swap f t amt self) = Ok out ->
  fst (validate_swap f t amt self) = Ok true.
Proof.
  intros Hpos Hq.
  destruct (quote_swap_cases self f t amt)
    as [[H Hn] | [(fa & ta & Hf & Ht & Hne & H) | (fa & ta & Hf & Ht & Heq & H)]];
    try congruence.
  rewrite (validate_swap_found _ _ _ _ _ _ Hf Ht Heq Hpos).
  rewrite H in Hq. unfold quote_pipeline in Hq.
  destruct (_to_wad amt (underlying_token_decimals fa)) as [w|e]; [|discriminate].
  cbn [mbind result_bind] in *.
  unfold _quote_swap_internal in Hq.
  destruct (ideal_to_amount (config self) fa ta w) as [i|e]; [|discriminate].
  cbn [mbind result_bind] in Hq.
  destruct (dec_ltb (cash ta) i); [discriminate|]. reflexivity.
Qed.

Lemma quoted_swaps_are_valid_witness :
  fst (validate_swap Examples.USDe Examples.USDC 100000000000000000000 Examples.stable_pool)
  = Ok true.
Proof.
  apply (quoted_swaps_are_valid Examples.stable_pool Examples.USDe Examples.USDC
           100000000000000000000 (100039593, 5002)).
  - lia.
  - vm_compute. reflexivity.
Defined.

(** *** The integral away from its first case *)

(** X15.  Terminal value: for every non-zero threshold below one and every
    ratio of at least one (both in the canonical scale, compared by value),
    the integral is exactly zero. *)
Theorem integral_terminal_value rt r :
  dec_is_zero rt = false -> dec_ltb rt UNIT = true -> dec_leb UNIT r = true ->
  _solvency_curve_integral rt r = Ok ZERO.
Proof.
  intros Hz Hrt Hr. apply dec_ltb_value in Hrt. apply dec_leb_value in Hr.
  unfold _solvency_curve_integral. rewrite Hz.
  assert (Hrz : dec_is_zero r = false).
  { destruct (dec_is_zero r) eqn:E; [|reflexivity].
    apply dec_is_zero_value in E. rewrite E in Hr.
    exfalso. eapply Qle_not_lt; [exact Hr | exact dval_UNIT_pos]. }
  rewrite Hrz.
  assert (Hle : dec_leb r rt = false).
  { destruct (dec_leb r rt) eqn:E; [|reflexivity].
    apply dec_leb_value in E. exfalso.
    eapply Qle_not_lt; [exact E|]. eapply Qlt_le_trans; eassumption. }
  rewrite Hle.
  assert (Hlt : dec_ltb r UNIT = false).
  { destruct (dec_ltb r UNIT) eqn:E; [|reflexivity].
    apply dec_ltb_value in E. exfalso. eapply Qle_not_lt; eassumption. }
  rewrite Hlt. reflexivity.
Qed.

Lemma integral_terminal_value_witness :
  _solvency_curve_integral (of_int 230000000000000000) (of_int 1010000000000000000)
  = Ok ZERO.
Proof.
  apply integral_terminal_value; vm_compute; reflexivity.
Defined.

(** *** Signs *)

Lemma round_half_even_nonneg c k : 0 <= c -> 0 <= round_half_even c k.
Proof.
  intros Hc. unfold round_half_even.
  assert (0 <= c / 10 ^ k).
  { destruct (Z.eq_dec (10 ^ k) 0) as [->|Hnz].
    - rewrite Z.div_0_r. lia.
    - apply Z.div_pos; [assumption|]. pose proof (Z.pow_nonneg 10 k ltac:(lia)). lia. }
  destruct (_ || _); lia.
Qed.

(** Rounding never changes the sign of a coefficient. *)
Lemma fix_nonneg p d r : 0 <= coef d -> _fix p d = Ok r -> 0 <= coef r.
Proof.
  destruct d as [c e]. unfold _fix; simpl. intros Hc H.
  destruct (c =? 0); [inversion H; simpl; lia|].
  destruct (_ <? _); [discriminate|].
  destruct (e <? _); [|inversion H; simpl; assumption].
  pose proof (round_half_even_nonneg (Z.abs c) (Z.max (ndigits c + e - p) (Etiny p) - e)
                (Z.abs_nonneg c)) as Hq.
  destruct (p <? ndigits _).
  - destruct (_ <? _); [discriminate|]. inversion H; simpl.
    apply Z.mul_nonneg_nonneg; [lia|]. apply Z.div_pos; lia.
  - destruct (_ <? _); [discriminate|]. inversion H; simpl.
    apply Z.mul_nonneg_nonneg; lia.
Qed.

Lemma mul_prec_nonneg p a b r :
  0 <= coef a -> 0 <= coef b -> mul_prec p a b = Ok r -> 0 <= coef r.
Proof.
  intros Ha Hb. apply fix_nonneg. simpl. apply Z.mul_nonneg_nonneg; assumption.
Qed.

Lemma mul_prec_square_nonneg p a r : mul_prec p a a = Ok r -> 0 <= coef r.
Proof. apply fix_nonneg. simpl. apply Z.square_nonneg. Qed.

Lemma strip_zeros_nonneg fuel : forall coeff exp,
  0 <= coeff -> 0 <= fst (strip_zeros fuel coeff exp).
Proof.
  induction fuel as [|fuel IH]; intros coeff exp Hc; simpl; [assumption|].
  destruct (_ =? 0); [|assumption]. apply IH. apply Z.div_pos; lia.
Qed.

Lemma div_prec_nonneg p a b r :
  0 <= coef a -> 0 <= coef b -> div_prec p a b = Ok r -> 0 <= coef r.
Proof.
  intros Ha Hb. unfold div_prec.
  destruct (coef b =? 0); [destruct (coef a =? 0); discriminate|].
  destruct (coef a =? 0); [apply fix_nonneg; simpl; lia|].
  set (shift := ndigits (coef b) - ndigits (coef a) + p + 1).
  set (num := if 0 <=? shift then Z.abs (coef a) * 10 ^ shift else Z.abs (coef a)).
  set (den := if 0 <=? shift then Z.abs (coef b) else Z.abs (coef b) * 10 ^ (- shift)).
  assert (Hnum : 0 <= num).
  { unfold num. pose proof (Z.pow_nonneg 10 shift ltac:(lia)).
    destruct (0 <=? shift); [apply Z.mul_nonneg_nonneg|]; lia. }
  assert (Hq : 0 <= num / den).
  { destruct (Z.eq_dec den 0) as [->|Hnz]; [rewrite Z.div_0_r; lia|].
    apply Z.div_pos; [assumption|].
    assert (0 <= den); [|lia]. unfold den.
    pose proof (Z.pow_nonneg 10 (- shift) ltac:(lia)).
    destruct (0 <=? shift); [|apply Z.mul_nonneg_nonneg]; lia. }
  assert (Hs : 0 <= Z.sgn (coef a) * Z.sgn (coef b))
    by (apply Z.mul_nonneg_nonneg; lia).
  destruct (num mod den =? 0).
  - pose proof (strip_zeros_nonneg
                  (Z.to_nat (expo a - expo b - (expo a - expo b - shift)))
                  (num / den) (expo a - expo b - shift) Hq) as Hst.
    destruct (strip_zeros _ _ _) as [coeff' exp']; simpl in Hst.
    apply fix_nonneg. simpl. apply Z.mul_nonneg_nonneg; assumption.
  - apply fix_nonneg. simpl. apply Z.mul_nonneg_nonneg; [assumption|].
    destruct (_ =? 0); lia.
Qed.

(** X16.  Fees and ideal amounts keep the sign of their inputs: the haircut
    of a non-negative amount at a non-negative rate is never negative, and
    neither is the price conversion of a non-negative amount at non-negative
    prices. *)
Theorem haircut_and_conversion_nonneg amount rate from_price to_price :
  0 <= coef amount ->
  (0 <= coef rate -> forall h, _haircut amount rate = Ok h -> 0 <= coef h)
  /\ (0 <= coef from_price -> 0 <= coef to_price ->
      forall out, _convert_token_amount amount from_price to_price = Ok out ->
                  0 <= coef out).
Proof.
  intros Ha. split.
  - intros Hr h H. unfold _haircut in H.
    destruct (dec_mul amount rate) as [x|] eqn:E; [|discriminate].
    cbn [mbind result_bind] in H.
    apply (div_prec_nonneg prec x UNIT); [|simpl; lia|exact H].
    apply (mul_prec_nonneg prec amount rate); assumption.
  - intros Hf Ht out H. unfold _convert_token_amount in H.
    destruct (_ || _); [discriminate|].
    destruct (dec_mul amount from_price) as [x|] eqn:E; [|discriminate].
    cbn [mbind result_bind] in H.
    apply (div_prec_nonneg prec x to_price); [|assumption|exact H].
    apply (mul_prec_nonneg prec amount from_price); assumption.
Qed.

Lemma haircut_and_conversion_nonneg_witness :
  0 <= coef (mkDecimal 500195 (-2)).
Proof.
  refine (proj1 (haircut_and_conversion_nonneg (of_int 100039000)
            (of_int 50000000000000) (of_int 1) (of_int 1) _) _ _ _).
  - simpl. lia.
  - simpl. lia.
  - vm_compute. reflexivity.
Defined.

Lemma dec_sub_nonneg a b r :
  dec_ltb b a = true -> dec_sub a b = Ok r -> 0 <= coef r.
Proof.
  unfold dec_ltb, dec_compare, dec_sub, add_prec, dec_neg; simpl. intros Hlt.
  apply fix_nonneg; simpl.
  rewrite (Z.min_comm (expo a) (expo b)).
  destruct (Z.compare_spec (coef b * 10 ^ (expo b - Z.min (expo b) (expo a)))
              (coef a * 10 ^ (expo a - Z.min (expo b) (expo a)))); try discriminate.
  lia.
Qed.

Lemma dec_pow5_nonneg a r : 0 <= coef a -> dec_pow a 5 = Ok r -> 0 <= coef r.
Proof.
  intros Ha. unfold dec_pow. cbn [pow_loop mbind result_bind].
  destruct (mul_prec _ a a) as [r2|] eqn:E2; [|discriminate]. cbn [mbind result_bind].
  destruct (mul_prec _ r2 r2) as [r4|] eqn:E4; [|discriminate]. cbn [mbind result_bind].
  destruct (mul_prec _ r4 a) as [r5|] eqn:E5; [|discriminate]. cbn [mbind result_bind].
  apply fix_nonneg. apply (mul_prec_nonneg _ _ _ _ (mul_prec_square_nonneg _ _ _ E4) Ha E5).
Qed.

Lemma dec_pow4_nonneg a r : dec_pow a 4 = Ok r -> 0 <= coef r.
Proof.
  unfold dec_pow. cbn [pow_loop mbind result_bind].
  destruct (mul_prec _ a a) as [r2|] eqn:E2; [|discriminate]. cbn [mbind result_bind].
  destruct (mul_prec _ r2 r2) as [r4|] eqn:E4; [|discriminate]. cbn [mbind result_bind].
  apply fix_nonneg. apply (mul_prec_square_nonneg _ _ _ E4).
Qed.

(** X17.  Beyond the threshold the integral is never negative: whenever the
    ratio is above the threshold (the second and third cases), a value the
    integral returns has a non-negative coefficient. *)
Theorem integral_nonneg_beyond_threshold rt r v :
  dec_leb r rt = false -> _solvency_curve_integral rt r = Ok v -> 0 <= coef v.
Proof.
  intros Hle. unfold _solvency_curve_integral.
  destruct (dec_is_zero rt); [discriminate|].
  destruct (dec_is_zero r); [discriminate|].
  rewrite Hle.
  destruct (dec_ltb r UNIT) eqn:Hlt; [|intros H; inversion H; simpl; lia].
  unfold integral_case2.
  destruct (dec_sub UNIT r) as [a|] eqn:Ea; [|discriminate]. cbn [mbind result_bind].
  pose proof (dec_sub_nonneg _ _ _ Hlt Ea) as Ha.
  destruct (dec_pow a 5) as [num|] eqn:En; [|discriminate]. cbn [mbind result_bind].
  destruct (dec_sub UNIT rt) as [b|] eqn:Eb; [|discriminate]. cbn [mbind result_bind].
  destruct (dec_pow b 4) as [p4|] eqn:Ep; [|discriminate]. cbn [mbind result_bind].
  destruct (dec_mul FIVE_WAD p4) as [den|] eqn:Ed; [|discriminate]. cbn [mbind result_bind].
  apply div_prec_nonneg.
  - exact (dec_pow5_nonneg _ _ Ha En).
  - apply (mul_prec_nonneg prec FIVE_WAD p4 den);
      [unfold FIVE_WAD; simpl; lia | exact (dec_pow4_nonneg _ _ Ep) | exact Ed].
Qed.

Lemma integral_nonneg_beyond_threshold_witness :
  0 <= coef (mkDecimal 48828125 (-13)).
Proof.
  apply (integral_nonneg_beyond_threshold (of_int 200000000000000000)
           (of_int 900000000000000000)).
  - vm_compute. reflexivity.
  - vm_compute. reflexivity.
Defined.

(** *** Coverage ratio *)

Lemma fix_overflow p d e : _fix p d = Err e -> e = DecOverflow.
Proof.
  unfold _fix. intros H.
  repeat match type of H with
  | context [if ?b then _ else _] => destruct b
  | context [let '(_, _) := ?x in _] => destruct x
  end; inversion H; reflexivity.
Qed.

Lemma div_prec_nonzero_divisor p a b e :
  coef b <> 0 -> div_prec p a b = Err e -> e = DecOverflow.
Proof.
  intros Hb. unfold div_prec.
  destruct (Z.eqb_spec (coef b) 0); [contradiction|].
  destruct (coef a =? 0); [apply fix_overflow|].
  match goal with |- context [let '(_, _) := ?x in _] => destruct x end.
  apply fix_overflow.
Qed.

(** X18.  The liability guard of the coverage ratio: both the
    [coverage_ratio] property and [_coverage_ratio] fail with "Liability
    cannot be zero" exactly when the liability is zero, and because of the
    guard they never raise the division-by-zero or invalid-operation signals
    of the decimal module. *)
Theorem coverage_ratio_guard (a : AssetState) :
  coverage_ratio a = _coverage_ratio (cash a) (liability a)
  /\ (coverage_ratio a = Err ZeroLiability <-> dec_is_zero (liability a) = true)
  /\ coverage_ratio a <> Err DecDivisionByZero
  /\ coverage_ratio a <> Err DecInvalidOperation.
Proof.
  unfold coverage_ratio, _coverage_ratio.
  split; [reflexivity|].
  destruct (dec_is_zero (liability a)) eqn:Hz.
  - split; [split; reflexivity|]. split; discriminate.
  - assert (Hnz : coef (liability a) <> 0) by (apply Z.eqb_neq; exact Hz).
    assert (H : forall e, dec_div (cash a) (liability a) = Err e -> e = DecOverflow)
      by (intros e; apply div_prec_nonzero_divisor; exact Hnz).
    split; [split; [|discriminate]|split]; intros He; apply H in He; discriminate.
Qed.

Lemma coverage_ratio_guard_witness :
  coverage_ratio (mkAssetState Examples.USDe (of_int 0) (of_int 0) 18
                    Examples.stable_account None) = Err ZeroLiability.
Proof.
  apply (proj2 (proj1 (proj2 (coverage_ratio_guard
           (mkAssetState Examples.USDe (of_int 0) (of_int 0) 18
              Examples.stable_account None))))).
  reflexivity.
Defined.

(** X19.  An asset whose cash equals its liability has a coverage ratio of
    exactly one, however many digits the two amounts have; the division is
    exact and cannot fail. *)
Theorem coverage_ratio_of_balanced_asset (a : AssetState) :
  dec_is_zero (liability a) = false -> dec_eqb (cash a) (liability a) = true ->
  exists r, coverage_ratio a = Ok r /\ dec_eqb r (of_int 1) = true.
Proof.
  intros Hz Heq. unfold coverage_ratio. rewrite Hz.
  apply dec_eqb_value_iff in Heq.
  assert (Hnz : ~ (dval (liability a) == 0)%Q).
  { intros E. apply dec_is_zero_value in E. congruence. }
  destruct (div_exact prec prec_pos (cash a) (liability a) 1 0) as (r & Hr & Vr).
  - apply Z.eqb_neq. exact Hz.
  - unfold fits, Emin, Emax, prec. split; [|split; [simpl; lia|lia]].
    rewrite Heq. simpl (10 ^ 0)%Q. field. exact Hnz.
  - exists r. split; [exact Hr|]. apply dec_eqb_value. rewrite Vr, dval_of_int. reflexivity.
Qed.

Lemma coverage_ratio_of_balanced_asset_witness :
  exists r,
    coverage_ratio (mkAssetState Examples.WETH (of_int 100000000000000000000)
                      (of_int 100000000000000000000) 18 Examples.variant_account
                      (Some (of_int 1000000000000000000))) = Ok r
    /\ dec_eqb r (of_int 1) = true.
Proof.
  apply coverage_ratio_of_balanced_asset; vm_compute; reflexivity.
Defined.

(** *** Exact scaling *)

Lemma to_wad_value x d :
  Z.abs x < 10 ^ 28 -> 0 <= d <= 255 ->
  exists w, _to_wad x d = Ok w /\ (dval w == inject_Z x * 10 ^ (18 - d))%Q.
Proof.
  intros Hx Hd. unfold _to_wad.
  rewrite decimal_of_str_small by assumption. cbn [mbind result_bind].
  destruct (Z.ltb_spec d 18) as [Hlt|Hge]; [|destruct (Z.ltb_spec 18 d) as [Hgt|Heq]].
  - apply (mul_exact prec prec_pos). unfold fits, Emin, Emax, prec.
    split; [|split; [assumption|lia]].
    rewrite dval_of_int, dval_of_pow10 by lia. reflexivity.
  - apply (div_exact prec prec_pos).
    + simpl. pose proof (pow10_gt0 (d - 18)). lia.
    + unfold fits, Emin, Emax, prec. split; [|split; [assumption|lia]].
      rewrite dval_of_int, dval_of_pow10 by lia.
      replace (18 - d) with (- (d - 18)) by lia. rewrite Qpow10_opp. reflexivity.
  - exists (of_int x). split; [reflexivity|].
    replace (18 - d) with 0 by lia. reflexivity.
Qed.

Lemma from_wad_value x d :
  Z.abs x < 10 ^ 28 -> 0 <= d <= 255 ->
  exists n, _from_wad (of_int x) d = Ok n /\ (dval n == inject_Z x * 10 ^ (d - 18))%Q.
Proof.
  intros Hx Hd. unfold _from_wad.
  destruct (Z.ltb_spec d 18) as [Hlt|Hge]; [|destruct (Z.ltb_spec 18 d) as [Hgt|Heq]].
  - apply (div_exact prec prec_pos).
    + simpl. pose proof (pow10_gt0 (18 - d)). lia.
    + unfold fits, Emin, Emax, prec. split; [|split; [assumption|lia]].
      rewrite dval_of_int, dval_of_pow10 by lia.
      replace (d - 18) with (- (18 - d)) by lia. rewrite Qpow10_opp. reflexivity.
  - apply (mul_exact prec prec_pos). unfold fits, Emin, Emax, prec.
    split; [|split; [assumption|lia]].
    rewrite dval_of_int, dval_of_pow10 by lia. reflexivity.
  - exists (of_int x). split; [reflexivity|].
    replace (d - 18) with 0 by lia. reflexivity.
Qed.

(** X20.  Scaling is exact: for a decimal count between 0 and 255 and an
    integer amount below [10^28] in magnitude, [_to_wad] returns the amount
    times [10^(18 - d)] and [_from_wad] of the whole canonical amount
    returns the amount times [10^(d - 18)], both without rounding and
    without failure. *)
Theorem wad_scaling_is_exact x d :
  Z.abs x < 10 ^ 28 -> 0 <= d <= 255 ->
  (exists w, _to_wad x d = Ok w /\ dec_eqb w (mkDecimal x (18 - d)) = true)
  /\ (exists n, _from_wad (of_int x) d = Ok n /\ dec_eqb n (mkDecimal x (d - 18)) = true).
Proof.
  intros Hx Hd. split.
  - destruct (to_wad_value x d Hx Hd) as (w & Hw & Vw).
    exists w. split; [exact Hw|]. apply dec_eqb_value. rewrite Vw. reflexivity.
  - destruct (from_wad_value x d Hx Hd) as (n & Hn & Vn).
    exists n. split; [exact Hn|]. apply dec_eqb_value. rewrite Vn. reflexivity.
Qed.

Lemma wad_scaling_is_exact_witness :
  (exists w, _to_wad 100000000 6 = Ok w
             /\ dec_eqb w (mkDecimal 100000000 (18 - 6)) = true)
  /\ (exists n, _from_wad (of_int 100000000) 6 = Ok n
                /\ dec_eqb n (mkDecimal 100000000 (6 - 18)) = true).
Proof.
  apply (wad_scaling_is_exact 100000000 6).
  - vm_compute. reflexivity.
  - lia.
Defined.

(** X21.  Registering native amounts: [update_asset_state] with
    [values_in_wad = False], a decimal count between 0 and 255, cash and
    liability below [10^28] in magnitude and a price, if one is given, of
    at most 4300 digits succeeds and stores both amounts scaled exactly to
    eighteen decimals, together with the decimal count, the aggregate
    account and the price it was given. *)
Theorem update_asset_state_scales_native_amounts tok aa c l d agg (price : option Z) self :
  Z.abs c < 10 ^ 28 -> Z.abs l < 10 ^ 28 -> 0 <= d <= 255 ->
  (forall p, price = Some p -> ndigits p <= int_max_str_digits) ->
  exists cash_wad liability_wad,
    fst (update_asset_state tok aa c l d agg false price self) = Ok tt
    /\ assets (snd (update_asset_state tok aa c l d agg false price self)) !! tok
       = Some (mkAssetState tok cash_wad liability_wad d agg (of_int <$> price))
    /\ dec_eqb cash_wad (mkDecimal c (18 - d)) = true
    /\ dec_eqb liability_wad (mkDecimal l (18 - d)) = true.
Proof.
  intros Hc Hl Hd Hp.
  destruct (to_wad_value c d Hc Hd) as (cw & Hcw & Vc).
  destruct (to_wad_value l d Hl Hd) as (lw & Hlw & Vl).
  exists cw, lw. rewrite update_asset_state_run. unfold converted_inputs.
  rewrite Hcw, Hlw. cbn [mbind result_bind].
  assert (E : match price with
              | Some price_wad => p ← decimal_of_str price_wad; Ok (Some p)
              | None => Ok None
              end = Ok (of_int <$> price)).
  { destruct price as [p|]; [|reflexivity].
    rewrite (decimal_of_str_ok p (Hp p eq_refl)). reflexivity. }
  rewrite E. simpl. rewrite lookup_insert_eq.
  repeat split; apply dec_eqb_value; [rewrite Vc | rewrite Vl]; reflexivity.
Qed.

Lemma update_asset_state_scales_native_amounts_witness :
  exists cash_wad liability_wad,
    fst (update_asset_state Examples.USDC "0xb8Ca9787Cf03c6f1fA6ef207aB93e875F3B84426"
           21491644533 18717507771 6 Examples.stable_account false
           (Some 1000000000000000000) Examples.create_mantle_mainnet_stable_pool) = Ok tt
    /\ assets (snd (update_asset_state Examples.USDC
                      "0xb8Ca9787Cf03c6f1fA6ef207aB93e875F3B84426"
                      21491644533 18717507771 6 Examples.stable_account false
                      (Some 1000000000000000000)
                      Examples.create_mantle_mainnet_stable_pool)) !! Examples.USDC
       = Some (mkAssetState Examples.USDC cash_wad liability_wad 6
                 Examples.stable_account (of_int <$> Some 1000000000000000000))
    /\ dec_eqb cash_wad (mkDecimal 21491644533 (18 - 6)) = true
    /\ dec_eqb liability_wad (mkDecimal 18717507771 (18 - 6)) = true.
Proof.
  apply update_asset_state_scales_native_amounts.
  - vm_compute. reflexivity.
  - vm_compute. reflexivity.
  - lia.
  - intros p E. inversion E; subst. vm_compute. discriminate.
Defined.

(** *** Size of the registered amounts *)

(** X24.  Every record that [update_asset_state] stores with a decimal
    count between 0 and 255 holds a cash and a liability of ordinary size,
    whether the amounts were given in the canonical scale or converted to
    it, and whatever their length: a longer integer is refused by the
    conversion and nothing is stored. *)
Theorem registered_assets_are_ordinary tok aa c l d agg viw price self :
  0 <= d <= 255 ->
  fst (update_asset_state tok aa c l d agg viw price self) = Ok tt ->
  exists a,
    assets (snd (update_asset_state tok aa c l d agg viw price self)) !! tok = Some a
    /\ ordinary_asset a.
Proof.
  intros Hd. rewrite update_asset_state_run. unfold converted_inputs.
  destruct (if viw then decimal_of_str c else _to_wad c d) as [cw|e] eqn:Ec; [|discriminate].
  cbn [mbind result_bind].
  destruct (if viw then decimal_of_str l else _to_wad l d) as [lw|e] eqn:El; [|discriminate].
  cbn [mbind result_bind].
  destruct (match price with
            | Some price_wad => p ← decimal_of_str price_wad; Ok (Some p)
            | None => Ok None
            end) as [pd|e]; [|discriminate].
  cbn [mbind result_bind]. intros _. simpl.
  eexists. split; [apply lookup_insert_eq|].
  unfold ordinary_asset, size_limit; cbn [cash liability].
  split.
  - destruct viw.
    + destruct (decimal_of_str_ordinary c cw Ec) as (O & _).
      eapply ordinary_mono; [exact O|lia].
    + eapply ordinary_mono; [exact (to_wad_ordinary c d cw Hd Ec)|lia].
  - destruct viw.
    + destruct (decimal_of_str_ordinary l lw El) as (O & _).
      eapply ordinary_mono; [exact O|lia].
    + eapply ordinary_mono; [exact (to_wad_ordinary l d lw Hd El)|lia].
Qed.

Lemma registered_assets_are_ordinary_witness :
  exists a,
    assets (snd (update_asset_state Examples.USDC "0xb8Ca9787Cf03c6f1fA6ef207aB93e875F3B84426"
                   21491644533 18717507771 6 Examples.stable_account false None
                   Examples.create_mantle_mainnet_stable_pool)) !! Examples.USDC = Some a
    /\ ordinary_asset a.
Proof.
  apply registered_assets_are_ordinary.
  - lia.
  - vm_compute. reflexivity.
Defined.

(** *** The solvency score *)

(** X22.  No-op transition: for whole canonical cash and liability below
    [10^28] in magnitude and a non-zero liability, a cash change of zero
    gives a solvency score of exactly zero, whether cash is added or
    removed and whatever the threshold (a zero threshold included); with a
    zero liability the score fails with "Liability cannot be zero"
    instead. *)
Theorem solvency_score_of_no_change rt c l add_cash :
  Z.abs c < 10 ^ 28 -> Z.abs l < 10 ^ 28 ->
  _solvency_score rt (of_int c) (of_int l) ZERO add_cash
  = if l =? 0 then Err ZeroLiability else Ok ZERO.
Proof.
  intros Hc Hl. destruct (Z.eqb_spec l 0) as [->|Hnz].
  - reflexivity.
  - apply solvency_score_zero_change; assumption.
Qed.

Lemma solvency_score_of_no_change_witness :
  _solvency_score (of_int 230000000000000000) (of_int 21564039972018040980967)
    (of_int 24336765812301186559140) ZERO true
  = Ok ZERO.
Proof.
  apply (solvency_score_of_no_change (of_int 230000000000000000)
           21564039972018040980967 24336765812301186559140 true);
    vm_compute; reflexivity.
Defined.

(** *** The token configuration *)

Lemma token_lookup_missing items addr :
  (forall n d a, In (n, (d, a)) items -> a <> addr) ->
  token_name_in items addr = "Unknown"%string /\ token_decimals_in items addr = 18.
Proof.
  induction items as [|[n [d a]] rest IH]; intros H; simpl; [auto|].
  destruct (String.eqb_spec a addr) as [Heq|Hne].
  - exfalso. apply (H n d a); [left; reflexivity | assumption].
  - apply IH. intros n' d' a' Hin. apply (H n' d' a'). right. assumption.
Qed.

(** X23.  The token table: for every token of [TOKEN_CONFIG], looking its
    address up returns its own name and decimals (no address is listed
    twice), and every address that is not in the table gets the name
    "Unknown" and the default of eighteen decimals. *)
Theorem token_config_lookup :
  (forall n d a, In (n, (d, a)) TOKEN_CONFIG ->
     get_token_name a = n /\ get_token_decimals a = d)
  /\ (forall addr, (forall n d a, In (n, (d, a)) TOKEN_CONFIG -> a <> addr) ->
        get_token_name addr = "Unknown"%string /\ get_token_decimals addr = 18).
Proof.
  split.
  - intros n d a Hin. unfold TOKEN_CONFIG in Hin. simpl in Hin.
    repeat (destruct Hin as [Hin|Hin]; [inversion Hin; subst; split; reflexivity|]).
    contradiction.
  - intros addr H. apply token_lookup_missing. exact H.
Qed.

Lemma token_config_lookup_witness :
  get_token_name "0x09Bc4E0D864854c6aFB6eB9A9cdF58aC190D0dF9" = "USDC"%string
  /\ get_token_decimals "0x09Bc4E0D864854c6aFB6eB9A9cdF58aC190D0dF9" = 6.
Proof.
  apply (proj1 token_config_lookup "USDC"%string 6
           "0x09Bc4E0D864854c6aFB6eB9A9cdF58aC190D0dF9"%string).
  unfold TOKEN_CONFIG. simpl. right. left. reflexivity.
Defined.
